(** * Deferred image loading (src/index.js): a shallow embedding

    The script drives a gallery of [img.lazy] elements.  Everything it
    touches is modelled as one [Page] value that the functions of the
    script transform: the images with their class list, data-* and real
    attributes and their 'load'/'error' listeners, the [.load-now] buttons,
    the [.skeleton] wrappers, the module variables [io] and [currentMode],
    the label, the promises created by [loadImage], and a trace of the
    effects whose order or number matters (listener registration, listener
    removal, attribute commits, console output). *)

From Stdlib Require Import String.
From stdpp Require Import base option list gmap strings.

Local Open Scope string_scope.
Local Open Scope list_scope.

(** ** Elements *)

(** JavaScript truthiness of an optional string attribute: absent and the
    empty string are falsy. *)
Definition truthy (s : option string) : bool :=
  match s with
  | Some v => negb (String.eqb v "")
  | None => false
  end.

(** A [<source>] child of a [<picture>]. *)
Record Source := mkSource {
  s_data_srcset : option string;
  s_srcset : option string
}.

(** An [img.lazy] element.  [picture], [skeleton] and [btn] are what
    [img.closest('picture')], [img.closest('.skeleton')] and
    [img.closest('.card')?.querySelector('.load-now')] find: the sources of
    the enclosing picture, and references into the stores of wrappers and of
    buttons (several images may reach the same wrapper or button).
    [on_load] and [on_error] are the listeners registered by [loadImage],
    each named by the promise its closure settles. *)
Record Img := mkImg {
  loaded : bool;
  data_load : option string;
  data_src : option string;
  data_srcset : option string;
  data_sizes : option string;
  src : option string;
  srcset : option string;
  sizes : option string;
  picture : option (list Source);
  skeleton : option nat;
  btn : option nat;
  on_load : list nat;
  on_error : list nat
}.

(** A [.load-now] button; [on_click] lists the images whose click handler
    was bound to it. *)
Record Button := mkButton {
  hidden : bool;
  disabled : bool;
  textContent : string;
  on_click : list nat
}.

Inductive PState :=
| Pending
| Fulfilled
| Rejected (e : string).

(** What the caller of [loadImage] did with the promise. *)
Inductive Consumer :=
| Unobserved
| Swallowed                 (* .catch(() => {}) in the observer callback *)
| AllSettled                (* Promise.allSettled in loadAll *)
| Awaited (b : nat).        (* await in the click handler of button b *)

Record Promise := mkPromise {
  pstate : PState;
  consumer : Consumer
}.

Inductive EvKind := KLoad | KError.

Inductive Effect :=
| AddListener (i : nat) (k : EvKind) (p : nat)
| RemoveListener (i : nat) (k : EvKind) (p : nat)
| Commit (i : nat)
| ConsoleWarn (e : string)
| ConsoleLog (s : string).

(** An IntersectionObserver: its identity and its observation targets. *)
Record Observer := mkObserver {
  io_id : nat;
  targets : list nat
}.

Record Page := mkPage {
  images : list Img;
  buttons : gmap nat Button;
  skeletons : gmap nat bool;
  io : option Observer;
  next_io : nat;
  currentMode : string;
  modeLabel : string;
  promises : list Promise;
  log : list Effect
}.

#[global] Instance EvKind_eq_dec : EqDecision EvKind.
Proof. solve_decision. Defined.
#[global] Instance PState_eq_dec : EqDecision PState.
Proof. solve_decision. Defined.
#[global] Instance Effect_eq_dec : EqDecision Effect.
Proof. solve_decision. Defined.

(** ** Field updates *)

Definition with_loaded (b : bool) (im : Img) : Img :=
  mkImg b (data_load im) (data_src im) (data_srcset im) (data_sizes im)
        (src im) (srcset im) (sizes im) (picture im) (skeleton im) (btn im)
        (on_load im) (on_error im).

Definition with_data_load (m : option string) (im : Img) : Img :=
  mkImg (loaded im) m (data_src im) (data_srcset im) (data_sizes im)
        (src im) (srcset im) (sizes im) (picture im) (skeleton im) (btn im)
        (on_load im) (on_error im).

Definition with_src (v : option string) (im : Img) : Img :=
  mkImg (loaded im) (data_load im) (data_src im) (data_srcset im) (data_sizes im)
        v (srcset im) (sizes im) (picture im) (skeleton im) (btn im)
        (on_load im) (on_error im).

Definition with_srcset (v : option string) (im : Img) : Img :=
  mkImg (loaded im) (data_load im) (data_src im) (data_srcset im) (data_sizes im)
        (src im) v (sizes im) (picture im) (skeleton im) (btn im)
        (on_load im) (on_error im).

Definition with_sizes (v : option string) (im : Img) : Img :=
  mkImg (loaded im) (data_load im) (data_src im) (data_srcset im) (data_sizes im)
        (src im) (srcset im) v (picture im) (skeleton im) (btn im)
        (on_load im) (on_error im).

Definition with_picture (v : option (list Source)) (im : Img) : Img :=
  mkImg (loaded im) (data_load im) (data_src im) (data_srcset im) (data_sizes im)
        (src im) (srcset im) (sizes im) v (skeleton im) (btn im)
        (on_load im) (on_error im).

Definition with_on_load (l : list nat) (im : Img) : Img :=
  mkImg (loaded im) (data_load im) (data_src im) (data_srcset im) (data_sizes im)
        (src im) (srcset im) (sizes im) (picture im) (skeleton im) (btn im)
        l (on_error im).

Definition with_on_error (l : list nat) (im : Img) : Img :=
  mkImg (loaded im) (data_load im) (data_src im) (data_srcset im) (data_sizes im)
        (src im) (srcset im) (sizes im) (picture im) (skeleton im) (btn im)
        (on_load im) l.

Definition with_hidden (h : bool) (b : Button) : Button :=
  mkButton h (disabled b) (textContent b) (on_click b).

Definition with_disabled (d : bool) (b : Button) : Button :=
  mkButton (hidden b) d (textContent b) (on_click b).

Definition with_text (t : string) (b : Button) : Button :=
  mkButton (hidden b) (disabled b) t (on_click b).

Definition with_on_click (l : list nat) (b : Button) : Button :=
  mkButton (hidden b) (disabled b) (textContent b) l.

Definition with_images (f : list Img → list Img) (st : Page) : Page :=
  mkPage (f (images st)) (buttons st) (skeletons st) (io st) (next_io st)
         (currentMode st) (modeLabel st) (promises st) (log st).

Definition with_buttons (f : gmap nat Button → gmap nat Button) (st : Page) : Page :=
  mkPage (images st) (f (buttons st)) (skeletons st) (io st) (next_io st)
         (currentMode st) (modeLabel st) (promises st) (log st).

Definition with_skeletons (f : gmap nat bool → gmap nat bool) (st : Page) : Page :=
  mkPage (images st) (buttons st) (f (skeletons st)) (io st) (next_io st)
         (currentMode st) (modeLabel st) (promises st) (log st).

Definition with_io (o : option Observer) (st : Page) : Page :=
  mkPage (images st) (buttons st) (skeletons st) o (next_io st)
         (currentMode st) (modeLabel st) (promises st) (log st).

Definition with_next_io (n : nat) (st : Page) : Page :=
  mkPage (images st) (buttons st) (skeletons st) (io st) n
         (currentMode st) (modeLabel st) (promises st) (log st).

Definition with_mode (m l : string) (st : Page) : Page :=
  mkPage (images st) (buttons st) (skeletons st) (io st) (next_io st)
         m l (promises st) (log st).

Definition with_promises (f : list Promise → list Promise) (st : Page) : Page :=
  mkPage (images st) (buttons st) (skeletons st) (io st) (next_io st)
         (currentMode st) (modeLabel st) (f (promises st)) (log st).

Definition emit (e : Effect) (st : Page) : Page :=
  mkPage (images st) (buttons st) (skeletons st) (io st) (next_io st)
         (currentMode st) (modeLabel st) (promises st) (log st ++ [e]).

(** Update image [i] in place, button [b] in place (nothing happens when the
    reference is dangling, as with [btn?.]). *)
Definition upd_img (i : nat) (f : Img → Img) (st : Page) : Page :=
  with_images (alter f i) st.

Definition upd_btn (b : nat) (f : Button → Button) (st : Page) : Page :=
  with_buttons (alter f b) st.

(** [btn?.m(...)] for the button of an image. *)
Definition upd_btn_opt (ob : option nat) (f : Button → Button) (st : Page) : Page :=
  match ob with
  | Some b => upd_btn b f st
  | None => st
  end.

(** ** applyDataAttributes *)

Definition apply_source (s : Source) : Source :=
  match s_data_srcset s with
  | Some v => mkSource (Some v) (Some v)
  | None => s
  end.

Definition applyDataAttributes (im : Img) : Img :=
  let im1 := with_picture (map apply_source <$> picture im) im in
  let im2 := if truthy (data_src im1) then with_src (data_src im1) im1 else im1 in
  let im3 := if truthy (data_srcset im2) then with_srcset (data_srcset im2) im2 else im2 in
  if truthy (data_sizes im3) then with_sizes (data_sizes im3) im3 else im3.

(** ** Promises *)

(** The continuation that a consumer runs when the promise settles: only the
    click handler does anything ([btn.textContent = ...]). *)
Definition run_consumer (c : Consumer) (s : PState) (st : Page) : Page :=
  match c, s with
  | Awaited b, Fulfilled => upd_btn b (with_text "Готово") st
  | Awaited b, Rejected _ =>
      upd_btn b (with_disabled false)
        (upd_btn b (with_text "Помилка, спробуйте ще") st)
  | _, _ => st
  end.

(** [new Promise(...)]: a fresh pending promise, named by its position. *)
Definition new_promise (st : Page) : Page * nat :=
  (with_promises (λ ps, ps ++ [mkPromise Pending Unobserved]) st,
   length (promises st)).

(** [resolve()] / [reject(e)]: only a pending promise changes, and its
    consumer then runs. *)
Definition settle (p : nat) (s : PState) (st : Page) : Page :=
  match promises st !! p with
  | Some pr =>
      match pstate pr with
      | Pending =>
          run_consumer (consumer pr) s
            (with_promises (alter (λ _, mkPromise s (consumer pr)) p) st)
      | _ => st
      end
  | None => st
  end.

(** [.catch], [await], [Promise.allSettled] on the promise: the consumer is
    attached, and runs at once if the promise is already settled. *)
Definition then_ (p : nat) (c : Consumer) (st : Page) : Page :=
  match promises st !! p with
  | Some pr =>
      let st1 := with_promises (alter (λ _, mkPromise (pstate pr) c) p) st in
      match pstate pr with
      | Pending => st1
      | s => run_consumer c s st1
      end
  | None => st
  end.

(** ** loadImage *)

Definition listeners (k : EvKind) (im : Img) : list nat :=
  match k with
  | KLoad => on_load im
  | KError => on_error im
  end.

Definition with_listeners (k : EvKind) (l : list nat) (im : Img) : Img :=
  match k with
  | KLoad => with_on_load l im
  | KError => with_on_error l im
  end.

(** Dropping a listener from a listener list. *)
Definition drop (p : nat) (l : list nat) : list nat := filter (λ q, q ≠ p) l.

(** [img.addEventListener(k, cb, { once: true })] with [cb] a closure of the
    call that created promise [p]. *)
Definition addEventListener (i : nat) (k : EvKind) (p : nat) (st : Page) : Page :=
  emit (AddListener i k p)
    (upd_img i (λ im, with_listeners k (listeners k im ++ [p]) im) st).

Definition removeEventListener (i : nat) (k : EvKind) (p : nat) (st : Page) : Page :=
  emit (RemoveListener i k p)
    (upd_img i (λ im, with_listeners k (drop p (listeners k im)) im) st).

Definition cleanup (i p : nat) (st : Page) : Page :=
  removeEventListener i KError p (removeEventListener i KLoad p st).

Definition onLoad (i p : nat) (st : Page) : Page :=
  let st1 := upd_img i (with_loaded true) st in
  let st2 := match images st1 !! i ≫= skeleton with
             | Some w => with_skeletons (<[w:=true]>) st1
             | None => st1
             end in
  settle p Fulfilled (cleanup i p st2).

Definition onError (i p : nat) (e : string) (st : Page) : Page :=
  settle p (Rejected e) (cleanup i p (emit (ConsoleWarn e) st)).

(** The write of the real attributes, which starts the fetch. *)
Definition commit (i : nat) (st : Page) : Page :=
  emit (Commit i) (upd_img i applyDataAttributes st).

(** [loadImage(img)] for the image at position [i]; the result is the page
    and the promise returned. *)
Definition loadImage (i : nat) (st : Page) : Page * nat :=
  let '(st1, p) := new_promise st in
  match images st1 !! i with
  | Some im =>
      if loaded im then (settle p Fulfilled st1, p)
      else
        let st2 := addEventListener i KLoad p st1 in
        let st3 := addEventListener i KError p st2 in
        (commit i st3, p)
  | None => (st1, p)
  end.

(** ** The browser firing 'load' or 'error' at an image

    The listeners registered at the time of the dispatch run in order; one
    removed in the meantime is skipped; a [once] listener is removed just
    before it runs. *)
Definition callback (k : EvKind) (e : string) (i p : nat) (st : Page) : Page :=
  match k with
  | KLoad => onLoad i p st
  | KError => onError i p e st
  end.

Definition fire (k : EvKind) (e : string) (i p : nat) (st : Page) : Page :=
  match images st !! i with
  | Some im =>
      if decide (p ∈ listeners k im)
      then callback k e i p
             (upd_img i (λ im, with_listeners k (drop p (listeners k im)) im) st)
      else st
  | None => st
  end.

Definition dispatch (k : EvKind) (e : string) (i : nat) (st : Page) : Page :=
  match images st !! i with
  | Some im => foldl (λ s p, fire k e i p s) st (listeners k im)
  | None => st
  end.

(** ** ensureObserver and the observer callback *)

Definition loadMode (im : Img) : string :=
  match data_load im with
  | Some s => if String.eqb s "" then "scroll" else s
  | None => "scroll"
  end.

Definition ensureObserver (st : Page) : Page :=
  match io st with
  | Some _ => st
  | None =>
      with_next_io (S (next_io st))
        (with_io (Some (mkObserver (next_io st) [])) st)
  end.

(** [observe] of a target already observed does nothing. *)
Definition observe (i : nat) (o : Observer) : Observer :=
  if decide (i ∈ targets o) then o
  else mkObserver (io_id o) (targets o ++ [i]).

Definition unobserve (i : nat) (o : Observer) : Observer :=
  mkObserver (io_id o) (filter (λ j, j ≠ i) (targets o)).

Definition io_observe (i : nat) (st : Page) : Page :=
  with_io (observe i <$> io st) st.

Definition io_unobserve (i : nat) (st : Page) : Page :=
  with_io (unobserve i <$> io st) st.

Definition io_entry (en : nat * bool) (st : Page) : Page :=
  let '(i, isIntersecting) := en in
  if negb isIntersecting then st
  else
    match images st !! i with
    | Some im =>
        if negb (String.eqb (loadMode im) "scroll") then st
        else
          let '(st1, p) := loadImage i st in
          io_unobserve i (then_ p Swallowed st1)
    | None => st
    end.

Definition io_callback (entries : list (nat * bool)) (st : Page) : Page :=
  foldl (λ s en, io_entry en s) st entries.

Definition watched (i : nat) (st : Page) : bool :=
  match io st with
  | Some o => bool_decide (i ∈ targets o)
  | None => false
  end.

(** The browser delivers entries only for targets the live observer
    observes. *)
Definition deliver (entries : list (nat * bool)) (st : Page) : Page :=
  io_callback (filter (λ en, watched en.1 st = true) entries) st.

(** ** setupImages *)

Definition indices (st : Page) : list nat := seq 0 (length (images st)).

Definition click_handler (b i : nat) (st : Page) : Page :=
  let st1 := upd_btn b (with_disabled true) st in
  let st2 := upd_btn b (with_text "Завантаження…") st1 in
  let '(st3, p) := loadImage i st2 in
  then_ p (Awaited b) st3.

Definition setup_one (i : nat) (st : Page) : Page :=
  match images st !! i with
  | Some im =>
      if String.eqb (loadMode im) "click" then
        upd_btn_opt (btn im) (λ B, with_on_click (on_click B ++ [i]) B)
          (upd_btn_opt (btn im) (with_hidden false) st)
      else
        io_observe i (ensureObserver (upd_btn_opt (btn im) (with_hidden true) st))
  | None => st
  end.

Definition setupImages (st : Page) : Page :=
  foldl (λ s i, setup_one i s) st (indices st).

(** ** toggleMode *)

Definition toggle_one (i : nat) (st : Page) : Page :=
  match images st !! i with
  | Some im =>
      let st1 := upd_img i (with_data_load (Some (currentMode st))) st in
      if loaded im then st1
      else if String.eqb (currentMode st1) "scroll" then
        io_observe i (ensureObserver (upd_btn_opt (btn im) (with_hidden true) st1))
      else
        let st2 := upd_btn_opt (btn im) (with_hidden false) st1 in
        match io st2 with
        | Some _ => io_unobserve i st2
        | None => st2
        end
  | None => st
  end.

Definition toggleMode (isScroll : bool) (st : Page) : Page :=
  let st1 := with_mode (if isScroll then "scroll" else "click")
               (if isScroll then "авто (on-scroll)" else "по кліку (on-click)") st in
  foldl (λ s i, toggle_one i s) st1 (indices st1).

(** ** loadAll *)

Definition not_loaded (st : Page) (i : nat) : bool :=
  match images st !! i with
  | Some im => negb (loaded im)
  | None => false
  end.

(** [gallery.querySelectorAll('img.lazy:not(.loaded)')] *)
Definition selected (st : Page) : list nat :=
  filter (λ i, not_loaded st i = true) (indices st).

(** [images.map(loadImage)] *)
Fixpoint load_each (l : list nat) (st : Page) : Page * list nat :=
  match l with
  | [] => (st, [])
  | i :: l' =>
      let '(st1, p) := loadImage i st in
      let '(st2, ps) := load_each l' st1 in
      (st2, p :: ps)
  end.

Definition loadAll (st : Page) : Page * list nat :=
  let '(st1, ps) := load_each (selected st) st in
  (foldl (λ s p, then_ p AllSettled s) st1 ps, ps).

Definition settled (st : Page) (p : nat) : bool :=
  match promises st !! p with
  | Some (mkPromise Pending _) => false
  | Some _ => true
  | None => false
  end.

(** The promise of [Promise.allSettled(ps)], hence of the [loadAll] call
    that awaits it: fulfilled once every member has settled, never
    rejected. *)
Definition allSettled (st : Page) (ps : list nat) : PState :=
  if forallb (settled st) ps then Fulfilled else Pending.

(** ** init and the events of a session *)

Definition disconnectObserver (st : Page) : Page :=
  match io st with
  | Some _ => emit (ConsoleLog "IntersectionObserver відключено") (with_io None st)
  | None => st
  end.

(** [init()] runs [setupImages] and binds the three controls; what their
    listeners do is the effect of the events [EvToggle], [EvLoadAll] and
    [EvDisconnect] below. *)
Definition init (st : Page) : Page := setupImages st.

Inductive Event :=
| EvToggle (isScroll : bool)              (* 'change' on modeToggle *)
| EvLoadAll                               (* 'click' on loadAllBtn *)
| EvDisconnect                            (* 'click' on disconnectObserverBtn *)
| EvClick (b : nat)                       (* 'click' on a .load-now button *)
| EvIntersect (entries : list (nat * bool))
| EvLoad (i : nat)                        (* 'load' fired at an image *)
| EvError (i : nat) (e : string).         (* 'error' fired at an image *)

Definition click (b : nat) (st : Page) : Page :=
  match buttons st !! b with
  | Some B =>
      if disabled B then st
      else foldl (λ s i, click_handler b i s) st (on_click B)
  | None => st
  end.

Definition step (ev : Event) (st : Page) : Page :=
  match ev with
  | EvToggle b => toggleMode b st
  | EvLoadAll => (loadAll st).1
  | EvDisconnect => disconnectObserver st
  | EvClick b => click b st
  | EvIntersect entries => deliver entries st
  | EvLoad i => dispatch KLoad "" i st
  | EvError i e => dispatch KError e i st
  end.

Definition run (evs : list Event) (st : Page) : Page :=
  foldl (λ s ev, step ev s) st evs.

(** ** A sample page

    Three cards: a scroll image inside a picture, a click image, and an
    image with no declared mode; each has its own button and skeleton. *)
Definition sample_img (m : option string) (s : string) (k : nat) : Img :=
  mkImg false m (Some s) None None None None None None (Some k) (Some k) [] [].

Definition sample_button : Button := mkButton true false "Завантажити" [].

Definition sample_page : Page :=
  mkPage
    [ with_picture (Some [mkSource (Some "a.webp") None; mkSource None None])
        (sample_img (Some "scroll") "a.jpg" 0);
      sample_img (Some "click") "b.jpg" 1;
      sample_img None "c.jpg" 2 ]
    (<[0:=sample_button]> (<[1:=sample_button]> (<[2:=sample_button]> ∅)))
    ∅ None 0 "scroll" "" [] [].

Definition count_eff (e : Effect) (l : list Effect) : nat :=
  length (filter (λ x, x = e) l).

(** ** Notions used in the statements *)

(** The image after one registration-and-commit cycle for promise [p]. *)
Definition started (p : nat) (im : Img) : Img :=
  applyDataAttributes
    (with_on_error (on_error im ++ [p]) (with_on_load (on_load im ++ [p]) im)).

(** How the promise of a load ends when its listener for [k] runs. *)
Definition outcome (k : EvKind) (e : string) : PState :=
  match k with
  | KLoad => Fulfilled
  | KError => Rejected e
  end.

(** What a consumer does to the buttons. *)
Definition consumer_buttons (c : Consumer) (s : PState)
    (m : gmap nat Button) : gmap nat Button :=
  match c, s with
  | Awaited b, Fulfilled => alter (with_text "Готово") b m
  | Awaited b, Rejected _ =>
      alter (with_disabled false) b (alter (with_text "Помилка, спробуйте ще") b m)
  | _, _ => m
  end.

(** The image once the listener of promise [p] for [k] has run: its two
    listeners are gone and, for 'load', it carries the class. *)
Definition finished (k : EvKind) (p : nat) (im : Img) : Img :=
  mkImg (match k with KLoad => true | KError => loaded im end)
        (data_load im) (data_src im) (data_srcset im) (data_sizes im)
        (src im) (srcset im) (sizes im) (picture im) (skeleton im) (btn im)
        (drop p (on_load im)) (drop p (on_error im)).

(** The same, for a listener that may have been removed already. *)
Definition fin (k : EvKind) (p : nat) (im : Img) : Img :=
  if decide (p ∈ listeners k im) then finished k p im else im.

(** The trace of one listener running: [onError] warns first; both call
    [cleanup]. *)
Definition teardown (k : EvKind) (e : string) (i p : nat) : list Effect :=
  match k with
  | KLoad => []
  | KError => [ConsoleWarn e]
  end ++ [RemoveListener i KLoad p; RemoveListener i KError p].

(** The wrapper marked by the 'load' listener. *)
Definition mark_skeleton (k : EvKind) (im : Img) (m : gmap nat bool) : gmap nat bool :=
  match k, skeleton im with
  | KLoad, Some w => <[w:=true]> m
  | _, _ => m
  end.

(** The page on which the callback has run, before it settles its
    promise. *)
Definition torn_down (k : EvKind) (e : string) (i p : nat) (im : Img) (st : Page) : Page :=
  mkPage (alter (finished k p) i (images st)) (buttons st)
         (mark_skeleton k im (skeletons st)) (io st) (next_io st)
         (currentMode st) (modeLabel st) (promises st)
         (log st ++ teardown k e i p).

(** The image once the listeners [l] have run in turn. *)
Definition fin_all (k : EvKind) (l : list nat) (im : Img) : Img :=
  foldl (λ im p, fin k p im) im l.

(** The effects a listener can leave in the trace. *)
Definition is_teardown (x : Effect) : bool :=
  match x with
  | RemoveListener _ _ _ | ConsoleWarn _ => true
  | _ => false
  end.

(** The trace of one load started on image [i] for promise [p]. *)
Definition cycle (i p : nat) : list Effect :=
  [AddListener i KLoad p; AddListener i KError p; Commit i].

(** A dispatch reads and writes images, promises, buttons and wrappers
    only; the observer and the trace do not influence it. *)
Definition core (st : Page) :=
  (images st, promises st, buttons st, skeletons st).

(** The buttons, the observer and the next observer identity after
    [toggleMode] has dealt with image [i], read off its branches. *)
Definition toggled_buttons (scroll : bool) (im : Img)
    (m : gmap nat Button) : gmap nat Button :=
  if loaded im then m
  else match btn im with
       | Some b => alter (with_hidden scroll) b m
       | None => m
       end.

Definition toggled_io (scroll : bool) (i : nat) (im : Img) (n : nat)
    (o : option Observer) : option Observer :=
  if loaded im then o
  else if scroll then Some (observe i (default (mkObserver n []) o))
  else unobserve i <$> o.

Definition toggled_next_io (scroll : bool) (im : Img) (n : nat)
    (o : option Observer) : nat :=
  if loaded im then n
  else if scroll then match o with Some _ => n | None => S n end
  else n.

(** An image whose data-load, button and observation already agree with
    the current mode. *)
Definition reconciled (i : nat) (s : Page) : Prop :=
  ∀ im, images s !! i = Some im →
    data_load im = Some (currentMode s)
    ∧ (loaded im = false →
       (∀ b B, btn im = Some b → buttons s !! b = Some B →
               hidden B = String.eqb (currentMode s) "scroll")
       ∧ watched i s = String.eqb (currentMode s) "scroll").

(** No target is listed twice. *)
Definition targets_distinct (s : Page) : Prop :=
  ∀ o, io s = Some o → NoDup (targets o).

(** The number of intersecting entries of a batch that name image [i]. *)
Definition crossings (i : nat) (entries : list (nat * bool)) : nat :=
  length (filter (λ en, en = (i, true)) entries).

(** The click handlers bound to each button. *)
Definition handlers (s : Page) : gmap nat (list nat) := on_click <$> buttons s.

(** What [setupImages] binds: a handler for image [j] on button [b] only if
    [j] is in click mode and [b] is its button. *)
Definition bound_to_click_images (st0 s : Page) : Prop :=
  ∀ b B j, buttons s !! b = Some B → j ∈ on_click B →
    ∃ im, images st0 !! j = Some im ∧ loadMode im = "click" ∧ btn im = Some b.

(** Image [i] carries the class [loaded]. *)
Definition is_loaded (s : Page) (i : nat) : bool :=
  match images s !! i with
  | Some im => loaded im
  | None => false
  end.

(** The load of image [i] with promise [p] is in flight. *)
Definition in_flight (s : Page) (i p : nat) : Prop :=
  ∃ im, images s !! i = Some im ∧ loaded im = false
        ∧ p ∈ on_load im ∧ p ∈ on_error im
        ∧ (pstate <$> promises s !! p) = Some Pending.

(** The browser's answer for image [i]: 'load' if [ok i], else 'error'
    with reason [why i]. *)
Definition signal (ok : nat → bool) (why : nat → string) (i : nat) : Event :=
  if ok i then EvLoad i else EvError i (why i).

(** How the promise of the load of image [i] ends on that answer. *)
Definition answer (ok : nat → bool) (why : nat → string) (i : nat) : PState :=
  if ok i then Fulfilled else Rejected (why i).

(** Each promise of [tickets] is listened for on its own image only. *)
Definition owned (tickets : list (nat * nat)) (s : Page) : Prop :=
  ∀ j im k q i, images s !! j = Some im → q ∈ listeners k im →
    (i, q) ∈ tickets → i = j.

(** The loads of [tickets] while the answers for [done_] have arrived: the
    others are still in flight, the answered ones have ended as answered. *)
Record served (tickets : list (nat * nat)) (ok : nat → bool)
    (why : nat → string) (done_ : list nat) (s : Page) : Prop := {
  served_owned : owned tickets s;
  served_pending : ∀ i p, (i, p) ∈ tickets → i ∉ done_ → in_flight s i p;
  served_done : ∀ i p, (i, p) ∈ tickets → i ∈ done_ →
      is_loaded s i = ok i
      ∧ (pstate <$> promises s !! p) = Some (answer ok why i)
}.

(** Listener names refer to promises that exist. *)
Definition listeners_bound (st : Page) : Prop :=
  ∀ i im k p, images st !! i = Some im → p ∈ listeners k im →
    p < length (promises st).

(** The trace of [images.map(loadImage)]. *)
Definition cycles (l : list nat) (ps : list nat) : list Effect :=
  flat_map (λ ip, cycle ip.1 ip.2) (zip l ps).

(** The images selected by [loadAll], each with the promise of its load. *)
Definition tickets (st : Page) : list (nat * nat) :=
  zip (selected st) (seq (length (promises st)) (length (selected st))).

(** A page as the script finds it: no handler bound, no listener
    registered, no observer. *)
Definition pristine (st0 : Page) : Prop :=
  (∀ b B, buttons st0 !! b = Some B → on_click B = [])
  ∧ (∀ i im k, images st0 !! i = Some im → listeners k im = [])
  ∧ io st0 = None.

(** The observer, if any, was created before the next one will be. *)
Definition observer_bound (s : Page) : Prop :=
  ∀ o, io s = Some o → io_id o < next_io s.

(** From [s] to [s']: no promise is lost, and a listener of [s'] either
    was there in [s] or names a promise of [s']. *)
Definition grows (s s' : Page) : Prop :=
  (length (promises s) ≤ length (promises s'))%nat
  ∧ ∀ i im' k p, images s' !! i = Some im' → p ∈ listeners k im' →
      (∃ im, images s !! i = Some im ∧ p ∈ listeners k im)
      ∨ p < length (promises s').

(** [Q] holds of the observer, if any, given the next identity. *)
Definition observer_holds (Q : nat → Observer → Prop) (s : Page) : Prop :=
  ∀ o, io s = Some o → Q (next_io s) o.

(** The image takes the else branch of [setupImages]: its mode is not
    "click". *)
Definition non_click (st : Page) (i : nat) : bool :=
  match images st !! i with
  | Some im => negb (String.eqb (loadMode im) "click")
  | None => false
  end.

(** The images that [setupImages] hands to the observer, in document
    order. *)
Definition observed_by_setup (st : Page) : list nat :=
  filter (λ i, non_click st i = true) (indices st).

(** Observing the new targets [l] in turn, creating the observer for the
    first of them if there is none. *)
Definition watch_all (l : list nat) (o : option Observer) (n : nat)
    : option Observer * nat :=
  match l, o with
  | [], _ => (o, n)
  | _, Some ob => (Some (mkObserver (io_id ob) (targets ob ++ l)), n)
  | _, None => (Some (mkObserver n l), S n)
  end.

(** What the click handler shows once its load has ended. *)
Definition reported (k : EvKind) (B : Button) : Button :=
  match k with
  | KLoad => with_text "Готово" B
  | KError => with_disabled false (with_text "Помилка, спробуйте ще" B)
  end.

(** Image [i], once loaded, stays loaded and is not committed again. *)
Definition stays_loaded (i : nat) (s s' : Page) : Prop :=
  is_loaded s i = true →
  is_loaded s' i = true
  ∧ count_eff (Commit i) (log s') = count_eff (Commit i) (log s).

(** Promise [p], once settled, keeps its state. *)
Definition stays_settled (p : nat) (s s' : Page) : Prop :=
  ∀ x, (pstate <$> promises s !! p) = Some x → x ≠ Pending →
       (pstate <$> promises s' !! p) = Some x.

(** ** Pages of the sample session *)

(** The sample page once the script has run [init]. *)
Definition page_ready : Page := Eval vm_compute in init sample_page.

(** A page on which image 0 has been loaded through the observer. *)
Definition page_after_scroll : Page :=
  Eval vm_compute in run [EvIntersect [(0, true)]; EvLoad 0] (page_ready).

(** The image at position [i]. *)
Definition img_at (st : Page) (i : nat) : Img :=
  default (sample_img None "" 0) (images st !! i).

(** The page after a click on button 1, with the load of image 1 in
    flight. *)
Definition page_in_flight : Page :=
  Eval vm_compute in run [EvClick 1] (page_ready).

(** The page after the scroll image 0 has crossed into view: its load is in
    flight and the observer holds the remaining target. *)
Definition page_scrolling : Page :=
  Eval vm_compute in run [EvIntersect [(0, true)]] (page_ready).

(** A card whose two images, one in click mode and one in scroll mode,
    share one button. *)
Definition page_shared_card : Page :=
  mkPage
    [ mkImg false (Some "click") (Some "a.jpg") None None None None None None
        (Some 0) (Some 0) [] [];
      mkImg false (Some "scroll") (Some "b.jpg") None None None None None None
        (Some 1) (Some 0) [] [] ]
    (<[0:=sample_button]> ∅)
    ∅ None 0 "scroll" "" [] [].

(** A page with a single image whose data-load is "hover". *)
Definition page_odd_mode : Page :=
  mkPage [sample_img (Some "hover") "h.jpg" 0] (<[0:=sample_button]> ∅)
    ∅ None 0 "scroll" "" [] [].

(** The sample page after its three images were loaded by [loadAll]. *)
Definition page_all_loaded : Page :=
  Eval vm_compute in run [EvLoadAll; EvLoad 0; EvLoad 1; EvLoad 2] page_ready.

(** The page after the load started by a click on button 1 has failed. *)
Definition page_failed : Page :=
  Eval vm_compute in run [EvClick 1; EvError 1 "net"] page_ready.

(** * Properties *)

(** ** Lists and folds *)

Lemma alter_snoc {A} (f : A → A) (l : list A) (x : A) :
  alter f (length l) (l ++ [x]) = l ++ [f x].
Proof. induction l as [|a l IH]; simpl; [done | f_equal; apply IH]. Qed.

Lemma lookup_snoc {A} (l : list A) (x : A) : (l ++ [x]) !! length l = Some x.
Proof. induction l; simpl; auto. Qed.

Lemma alter_alter {A} (f g : A → A) (i : nat) (l : list A) :
  alter f i (alter g i l) = alter (λ x, f (g x)) i l.
Proof.
  revert i; induction l as [|a l IH]; intros [|i]; simpl; try done.
  f_equal. apply IH.
Qed.

Lemma alter_same {A} (f : A → A) (i : nat) (l : list A) (x : A) :
  l !! i = Some x → f x = x → alter f i l = l.
Proof.
  revert i; induction l as [|a l IH]; intros [|i]; simpl; try done.
  - intros [= ->] ->. done.
  - intros H1 H2. f_equal. by apply IH.
Qed.

Lemma foldl_inv {A B} (P : A → Prop) (f : A → B → A) (l : list B) (a : A) :
  P a → (∀ s x, x ∈ l → P s → P (f s x)) → P (foldl f a l).
Proof.
  revert a; induction l as [|x l IH]; simpl; intros a Ha Hs; [done|].
  apply IH.
  - apply Hs; [left | done].
  - intros s y Hy. apply Hs. by right.
Qed.

Lemma elem_of_drop (p q : nat) (l : list nat) : q ∈ drop p l ↔ q ∈ l ∧ q ≠ p.
Proof. unfold drop. rewrite list_elem_of_filter. tauto. Qed.

Lemma count_eff_app e l1 l2 : count_eff e (l1 ++ l2) = count_eff e l1 + count_eff e l2.
Proof. unfold count_eff. by rewrite filter_app, length_app. Qed.

(** ** Pages field by field *)

Lemma page_eq (s s' : Page) :
  images s = images s' → buttons s = buttons s' → skeletons s = skeletons s' →
  io s = io s' → next_io s = next_io s' → currentMode s = currentMode s' →
  modeLabel s = modeLabel s' → promises s = promises s' → log s = log s' →
  s = s'.
Proof. destruct s, s'; simpl; congruence. Qed.

Ltac proj :=
  cbn [images buttons skeletons io next_io currentMode modeLabel promises log
       emit upd_img upd_btn upd_btn_opt with_images with_buttons with_skeletons
       with_io with_next_io with_mode with_promises
       cleanup removeEventListener addEventListener commit
       io_observe io_unobserve fst snd] in *.

Ltac img_proj :=
  cbn [loaded data_load data_src data_srcset data_sizes src srcset sizes
       picture skeleton btn on_load on_error
       with_loaded with_data_load with_src with_srcset with_sizes with_picture
       with_on_load with_on_error with_listeners listeners] in *.

(** ** loadImage, case by case *)

Lemma loadImage_loaded st i im :
  images st !! i = Some im → loaded im = true →
  loadImage i st =
    (with_promises (λ ps, ps ++ [mkPromise Fulfilled Unobserved]) st,
     length (promises st)).
Proof.
  intros Hi Hl. unfold loadImage, new_promise. proj. rewrite Hi, Hl.
  unfold settle. proj.
  rewrite lookup_snoc. cbn.
  f_equal. apply page_eq; proj; try done.
  apply (alter_snoc (λ _, mkPromise Fulfilled Unobserved)).
Qed.

Lemma loadImage_not_loaded st i im :
  images st !! i = Some im → loaded im = false →
  loadImage i st =
    (mkPage (alter (started (length (promises st))) i (images st))
       (buttons st) (skeletons st) (io st) (next_io st)
       (currentMode st) (modeLabel st)
       (promises st ++ [mkPromise Pending Unobserved])
       (log st ++ [AddListener i KLoad (length (promises st));
                   AddListener i KError (length (promises st));
                   Commit i]),
     length (promises st)).
Proof.
  intros Hi Hl. unfold loadImage, new_promise. proj. rewrite Hi, Hl.
  f_equal. apply page_eq; proj; try done.
  - by rewrite !alter_alter.
  - by rewrite <- !app_assoc.
Qed.

Lemma loadImage_none st i :
  images st !! i = None →
  loadImage i st =
    (with_promises (λ ps, ps ++ [mkPromise Pending Unobserved]) st,
     length (promises st)).
Proof. intros Hi. unfold loadImage, new_promise. proj. by rewrite Hi. Qed.

(** ** Frame properties of the primitives *)

Lemma run_consumer_buttons c s st :
  buttons (run_consumer c s st) = consumer_buttons c s (buttons st).
Proof. by destruct c, s. Qed.
Lemma run_consumer_images c s st : images (run_consumer c s st) = images st.
Proof. by destruct c, s. Qed.
Lemma run_consumer_promises c s st : promises (run_consumer c s st) = promises st.
Proof. by destruct c, s. Qed.
Lemma run_consumer_log c s st : log (run_consumer c s st) = log st.
Proof. by destruct c, s. Qed.
Lemma run_consumer_io c s st : io (run_consumer c s st) = io st.
Proof. by destruct c, s. Qed.
Lemma run_consumer_next_io c s st : next_io (run_consumer c s st) = next_io st.
Proof. by destruct c, s. Qed.
Lemma run_consumer_skeletons c s st : skeletons (run_consumer c s st) = skeletons st.
Proof. by destruct c, s. Qed.
Lemma run_consumer_mode c s st : currentMode (run_consumer c s st) = currentMode st.
Proof. by destruct c, s. Qed.
Lemma run_consumer_label c s st : modeLabel (run_consumer c s st) = modeLabel st.
Proof. by destruct c, s. Qed.

Ltac settle_frame lem :=
  unfold settle; repeat case_match; try done; rewrite lem; reflexivity.

Lemma settle_images p s st : images (settle p s st) = images st.
Proof. settle_frame run_consumer_images. Qed.
Lemma settle_log p s st : log (settle p s st) = log st.
Proof. settle_frame run_consumer_log. Qed.
Lemma settle_io p s st : io (settle p s st) = io st.
Proof. settle_frame run_consumer_io. Qed.
Lemma settle_next_io p s st : next_io (settle p s st) = next_io st.
Proof. settle_frame run_consumer_next_io. Qed.
Lemma settle_skeletons p s st : skeletons (settle p s st) = skeletons st.
Proof. settle_frame run_consumer_skeletons. Qed.
Lemma settle_mode p s st : currentMode (settle p s st) = currentMode st.
Proof. settle_frame run_consumer_mode. Qed.
Lemma settle_label p s st : modeLabel (settle p s st) = modeLabel st.
Proof. settle_frame run_consumer_label. Qed.

Lemma settle_promises p s st :
  promises (settle p s st) =
    match promises st !! p with
    | Some (mkPromise Pending c) => alter (λ _, mkPromise s c) p (promises st)
    | _ => promises st
    end.
Proof.
  unfold settle. destruct (promises st !! p) as [[[] c]|]; simpl; try done.
  by rewrite run_consumer_promises.
Qed.

Lemma settle_buttons p s st :
  buttons (settle p s st) =
    match promises st !! p with
    | Some (mkPromise Pending c) => consumer_buttons c s (buttons st)
    | _ => buttons st
    end.
Proof.
  unfold settle. destruct (promises st !! p) as [[[] c]|]; simpl; try done.
  by rewrite run_consumer_buttons.
Qed.

Ltac then_frame lem :=
  unfold then_; repeat case_match; try done; rewrite lem; reflexivity.

Lemma then_images p c st : images (then_ p c st) = images st.
Proof. then_frame run_consumer_images. Qed.
Lemma then_log p c st : log (then_ p c st) = log st.
Proof. then_frame run_consumer_log. Qed.
Lemma then_io p c st : io (then_ p c st) = io st.
Proof. then_frame run_consumer_io. Qed.
Lemma then_next_io p c st : next_io (then_ p c st) = next_io st.
Proof. then_frame run_consumer_next_io. Qed.
Lemma then_skeletons p c st : skeletons (then_ p c st) = skeletons st.
Proof. then_frame run_consumer_skeletons. Qed.
Lemma then_mode p c st : currentMode (then_ p c st) = currentMode st.
Proof. then_frame run_consumer_mode. Qed.
Lemma then_label p c st : modeLabel (then_ p c st) = modeLabel st.
Proof. then_frame run_consumer_label. Qed.

Lemma then_promises p c st :
  promises (then_ p c st) =
    alter (λ pr, mkPromise (pstate pr) c) p (promises st).
Proof.
  unfold then_. destruct (promises st !! p) as [pr|] eqn:Hp.
  - assert (promises (with_promises (alter (λ _, mkPromise (pstate pr) c) p) st)
            = alter (λ pr, mkPromise (pstate pr) c) p (promises st)) as Heq.
    { proj. apply list_eq; intros j. destruct (decide (p = j)) as [<-|Hne].
      - rewrite !list_lookup_alter_eq, Hp. done.
      - by rewrite !list_lookup_alter_ne. }
    destruct (pstate pr); rewrite ?run_consumer_promises; exact Heq.
  - symmetry. apply list_eq; intros j. destruct (decide (p = j)) as [<-|Hne].
    + by rewrite list_lookup_alter_eq, Hp.
    + by rewrite list_lookup_alter_ne.
Qed.

Lemma then_buttons p c st :
  buttons (then_ p c st) =
    match promises st !! p with
    | Some pr => consumer_buttons c (pstate pr) (buttons st)
    | None => buttons st
    end.
Proof.
  unfold then_. destruct (promises st !! p) as [[[] c']|]; simpl; try done;
    rewrite ?run_consumer_buttons; by destruct c.
Qed.

(** ** One listener firing *)

Lemma drop_drop p l : drop p (drop p l) = drop p l.
Proof.
  unfold drop. induction l as [|a l IH]; [done|].
  rewrite !filter_cons. destruct (decide (a ≠ p)); [|done].
  rewrite filter_cons. destruct (decide (a ≠ p)); [|done]. by rewrite IH.
Qed.

Lemma fire_eq k e i p st im :
  images st !! i = Some im →
  fire k e i p st =
    if decide (p ∈ listeners k im)
    then settle p (outcome k e) (torn_down k e i p im st)
    else st.
Proof.
  intros Hi. unfold fire. rewrite Hi.
  destruct (decide (p ∈ listeners k im)) as [Hin|Hin]; [|done].
  assert (∀ l : list Img, alter (λ im0, with_listeners KError (drop p (listeners KError im0)) im0) i
            (alter (λ im0, with_listeners KLoad (drop p (listeners KLoad im0)) im0) i
               (alter (with_loaded true) i
                  (alter (λ im0, with_listeners KLoad (drop p (listeners KLoad im0)) im0) i l)))
          = alter (finished KLoad p) i l) as Hload.
  { intros l. rewrite !alter_alter. apply list_alter_ext; [|done]. intros im' _.
    destruct im'. unfold finished. img_proj. by rewrite ?drop_drop. }
  destruct k; cbn [callback outcome]; unfold onLoad, onError.
  - proj. rewrite !list_lookup_alter_eq, Hi. cbn [fmap option_fmap option_map mbind option_bind].
    replace (skeleton (with_loaded true (with_listeners KLoad (drop p (listeners KLoad im)) im)))
      with (skeleton im) by done.
    f_equal. unfold torn_down, mark_skeleton.
    destruct (skeleton im); apply page_eq; proj; try done;
      first [apply Hload | by rewrite <- !app_assoc].
  - f_equal. apply page_eq; proj; try done.
    + rewrite !alter_alter. apply list_alter_ext; [|done]. intros im' _.
      destruct im'. unfold finished. img_proj. by rewrite ?drop_drop.
    + by rewrite <- !app_assoc.
Qed.

Lemma fire_none k e i p st : images st !! i = None → fire k e i p st = st.
Proof. intros Hi. unfold fire. by rewrite Hi. Qed.

Lemma fire_images k e i p st :
  images (fire k e i p st) = alter (fin k p) i (images st).
Proof.
  destruct (images st !! i) as [im|] eqn:Hi.
  - rewrite (fire_eq _ _ _ _ _ _ Hi).
    destruct (decide (p ∈ listeners k im)) as [Hin|Hin].
    + rewrite settle_images. cbn [images torn_down].
      apply list_alter_ext; [|done]. intros im' Him'.
      assert (im' = im) as -> by congruence.
      unfold fin. by rewrite decide_True.
    + symmetry. eapply alter_same; [done|]. unfold fin. by rewrite decide_False.
  - rewrite fire_none by done.
    symmetry. apply list_eq; intros j. destruct (decide (i = j)) as [<-|].
    + by rewrite list_lookup_alter_eq, Hi.
    + by rewrite list_lookup_alter_ne.
Qed.

Ltac fire_frame lem :=
  match goal with
  | |- context [fire ?k ?e ?i ?p ?st] =>
      let Hi := fresh in
      destruct (images st !! i) eqn:Hi;
      [ rewrite (fire_eq _ _ _ _ _ _ Hi); destruct (decide _); [rewrite lem|]; done
      | by rewrite fire_none ]
  end.

Lemma fire_io k e i p st : io (fire k e i p st) = io st.
Proof. fire_frame settle_io. Qed.
Lemma fire_next_io k e i p st : next_io (fire k e i p st) = next_io st.
Proof. fire_frame settle_next_io. Qed.
Lemma fire_mode k e i p st : currentMode (fire k e i p st) = currentMode st.
Proof. fire_frame settle_mode. Qed.
Lemma fire_label k e i p st : modeLabel (fire k e i p st) = modeLabel st.
Proof. fire_frame settle_label. Qed.

Lemma fire_log k e i p st im :
  images st !! i = Some im →
  log (fire k e i p st) =
    log st ++ (if decide (p ∈ listeners k im) then teardown k e i p else []).
Proof.
  intros Hi. rewrite (fire_eq _ _ _ _ _ _ Hi).
  destruct (decide (p ∈ listeners k im)); [|by rewrite app_nil_r].
  by rewrite settle_log.
Qed.

Lemma fire_promises k e i p st im :
  images st !! i = Some im →
  promises (fire k e i p st) =
    if decide (p ∈ listeners k im)
    then promises (settle p (outcome k e) st)
    else promises st.
Proof.
  intros Hi. rewrite (fire_eq _ _ _ _ _ _ Hi).
  destruct (decide (p ∈ listeners k im)); [|done].
  by rewrite !settle_promises.
Qed.

Lemma fire_buttons k e i p st im :
  images st !! i = Some im →
  buttons (fire k e i p st) =
    if decide (p ∈ listeners k im)
    then buttons (settle p (outcome k e) st)
    else buttons st.
Proof.
  intros Hi. rewrite (fire_eq _ _ _ _ _ _ Hi).
  destruct (decide (p ∈ listeners k im)); [|done].
  by rewrite !settle_buttons.
Qed.

Lemma fire_skeletons k e i p st im :
  images st !! i = Some im →
  skeletons (fire k e i p st) =
    if decide (p ∈ listeners k im)
    then mark_skeleton k im (skeletons st)
    else skeletons st.
Proof.
  intros Hi. rewrite (fire_eq _ _ _ _ _ _ Hi).
  destruct (decide (p ∈ listeners k im)); [|done].
  by rewrite settle_skeletons.
Qed.

(** ** A dispatch: all listeners of one kind firing in turn *)

Lemma fold_fire_images k e i l st :
  images (foldl (λ s p, fire k e i p s) st l)
  = foldl (λ ims p, alter (fin k p) i ims) (images st) l.
Proof.
  revert st; induction l as [|p l IH]; intros st; simpl; [done|].
  by rewrite IH, fire_images.
Qed.

Lemma fold_alter_lookup k i l (ims : list Img) im :
  ims !! i = Some im →
  foldl (λ ims p, alter (fin k p) i ims) ims l !! i = Some (fin_all k l im).
Proof.
  revert ims im; induction l as [|p l IH]; intros ims im Hi; simpl; [done|].
  apply IH. by rewrite list_lookup_alter_eq, Hi.
Qed.

Lemma fold_alter_lookup_ne k i j l (ims : list Img) :
  i ≠ j →
  foldl (λ ims p, alter (fin k p) i ims) ims l !! j = ims !! j.
Proof.
  intros Hne. revert ims; induction l as [|p l IH]; intros ims; simpl; [done|].
  by rewrite IH, list_lookup_alter_ne.
Qed.

Lemma fold_alter_length k i l (ims : list Img) :
  length (foldl (λ ims p, alter (fin k p) i ims) ims l) = length ims.
Proof.
  revert ims; induction l as [|p l IH]; intros ims; simpl; [done|].
  by rewrite IH, length_alter.
Qed.

Lemma dispatch_lookup k e i st im :
  images st !! i = Some im →
  images (dispatch k e i st) !! i = Some (fin_all k (listeners k im) im).
Proof.
  intros Hi. unfold dispatch. rewrite Hi, fold_fire_images.
  by apply fold_alter_lookup.
Qed.

Lemma dispatch_lookup_ne k e i j st :
  i ≠ j → images (dispatch k e i st) !! j = images st !! j.
Proof.
  intros Hne. unfold dispatch. destruct (images st !! i); [|done].
  rewrite fold_fire_images. by apply fold_alter_lookup_ne.
Qed.

Lemma dispatch_length k e i st :
  length (images (dispatch k e i st)) = length (images st).
Proof.
  unfold dispatch. destruct (images st !! i); [|done].
  rewrite fold_fire_images. apply fold_alter_length.
Qed.

(** What a dispatch leaves of one image. *)

Lemma fin_listeners k p im k' q :
  q ∈ listeners k' (fin k p im) ↔
  q ∈ listeners k' im ∧ ¬ (q = p ∧ p ∈ listeners k im).
Proof.
  unfold fin. destruct (decide (p ∈ listeners k im)) as [Hin|Hin].
  - destruct k'; simpl; rewrite elem_of_drop; tauto.
  - tauto.
Qed.

Lemma fin_all_listeners k l im k' q :
  q ∈ listeners k' (fin_all k l im) ↔
  q ∈ listeners k' im ∧ ¬ (q ∈ l ∧ q ∈ listeners k im).
Proof.
  unfold fin_all. revert im; induction l as [|p l IH]; intros im; simpl.
  - rewrite elem_of_nil. tauto.
  - rewrite IH, !fin_listeners, elem_of_cons.
    destruct (decide (q = p)) as [->|Hne]; [tauto|].
    split; intros H; [|tauto]. destruct H as [[H1 H2] H3].
    split; [done|]. intros [[?|?] ?]; [done|]. apply H3. tauto.
Qed.

Lemma fin_all_loaded_error l im : loaded (fin_all KError l im) = loaded im.
Proof.
  unfold fin_all. revert im; induction l as [|p l IH]; intros im; simpl; [done|].
  rewrite IH. unfold fin. by destruct (decide _).
Qed.

Lemma fin_all_loaded_keep k l im :
  loaded im = true → loaded (fin_all k l im) = true.
Proof.
  unfold fin_all. revert im; induction l as [|p l IH]; intros im Hl; simpl; [done|].
  apply IH. unfold fin. destruct (decide _); [|done]. by destruct k.
Qed.

Lemma fin_all_loaded_load l im p :
  p ∈ l → p ∈ on_load im → loaded (fin_all KLoad l im) = true.
Proof.
  unfold fin_all. revert im; induction l as [|q l IH]; intros im Hp Hin; simpl.
  - by apply elem_of_nil in Hp.
  - destruct (decide (q ∈ on_load im)) as [Hq|Hq].
    + apply (fin_all_loaded_keep KLoad). unfold fin. simpl. by rewrite decide_True.
    + apply elem_of_cons in Hp as [->|Hp]; [done|].
      apply IH; [done|]. unfold fin. simpl. by rewrite decide_False.
Qed.

Lemma fin_all_loaded_none k l im :
  (∀ p, p ∈ l → p ∉ listeners k im) → fin_all k l im = im.
Proof.
  unfold fin_all. revert im; induction l as [|q l IH]; intros im H; simpl; [done|].
  assert (fin k q im = im) as ->.
  { unfold fin. rewrite decide_False; [done|]. apply H. by left. }
  apply IH. intros p Hp. apply H. by right.
Qed.

Lemma fin_static k p im :
  data_load (fin k p im) = data_load im ∧ btn (fin k p im) = btn im
  ∧ skeleton (fin k p im) = skeleton im ∧ src (fin k p im) = src im
  ∧ srcset (fin k p im) = srcset im ∧ sizes (fin k p im) = sizes im
  ∧ picture (fin k p im) = picture im ∧ data_src (fin k p im) = data_src im
  ∧ data_srcset (fin k p im) = data_srcset im
  ∧ data_sizes (fin k p im) = data_sizes im.
Proof. unfold fin. by destruct (decide _). Qed.

Lemma fin_all_static k l im :
  data_load (fin_all k l im) = data_load im ∧ btn (fin_all k l im) = btn im
  ∧ skeleton (fin_all k l im) = skeleton im ∧ src (fin_all k l im) = src im
  ∧ srcset (fin_all k l im) = srcset im ∧ sizes (fin_all k l im) = sizes im
  ∧ picture (fin_all k l im) = picture im
  ∧ data_src (fin_all k l im) = data_src im
  ∧ data_srcset (fin_all k l im) = data_srcset im
  ∧ data_sizes (fin_all k l im) = data_sizes im.
Proof.
  unfold fin_all. revert im; induction l as [|p l IH]; intros im; simpl; [done|].
  destruct (IH (fin k p im)) as (->&->&->&->&->&->&->&->&->&->).
  apply fin_static.
Qed.

(** Promises under a dispatch. *)

Lemma settle_lookup_ne p q s st :
  p ≠ q → promises (settle p s st) !! q = promises st !! q.
Proof.
  intros Hne. rewrite settle_promises.
  destruct (promises st !! p) as [[[] c]|]; try done.
  by rewrite list_lookup_alter_ne.
Qed.

Lemma settle_lookup_pending p s c st :
  promises st !! p = Some (mkPromise Pending c) →
  promises (settle p s st) !! p = Some (mkPromise s c).
Proof.
  intros Hp. rewrite settle_promises, Hp. by rewrite list_lookup_alter_eq, Hp.
Qed.

Lemma settle_lookup_done p q s st pr :
  promises st !! q = Some pr → pstate pr ≠ Pending →
  promises (settle p s st) !! q = Some pr.
Proof.
  intros Hq Hs. destruct (decide (p = q)) as [->|Hne].
  - rewrite settle_promises, Hq. destruct pr as [[] c]; done.
  - by rewrite settle_lookup_ne.
Qed.

Lemma settle_length p s st : length (promises (settle p s st)) = length (promises st).
Proof.
  rewrite settle_promises. destruct (promises st !! p) as [[[] c]|]; try done.
  by rewrite length_alter.
Qed.

Lemma fire_cases k e i p st :
  (∃ im, images st !! i = Some im ∧ p ∈ listeners k im
         ∧ promises (fire k e i p st) = promises (settle p (outcome k e) st)
         ∧ log (fire k e i p st) = log st ++ teardown k e i p)
  ∨ ((∀ im, images st !! i = Some im → p ∉ listeners k im)
     ∧ fire k e i p st = st).
Proof.
  destruct (images st !! i) as [im|] eqn:Hi.
  - destruct (decide (p ∈ listeners k im)) as [Hin|Hin].
    + left. exists im. split; [done|]. split; [done|].
      rewrite (fire_promises _ _ _ _ _ _ Hi), (fire_log _ _ _ _ _ _ Hi).
      by destruct (decide _).
    + right. split; [by intros ? [= <-]|]. unfold fire. rewrite Hi.
      by destruct (decide _).
  - right. split; [done|]. unfold fire. by rewrite Hi.
Qed.

Lemma fire_lookup_ne k e i p q st :
  p ≠ q → promises (fire k e i p st) !! q = promises st !! q.
Proof.
  intros Hne. destruct (fire_cases k e i p st) as [(im&_&_&->&_)|[_ ->]]; [|done].
  by apply settle_lookup_ne.
Qed.

Lemma fire_lookup_done k e i p q st pr :
  promises st !! q = Some pr → pstate pr ≠ Pending →
  promises (fire k e i p st) !! q = Some pr.
Proof.
  intros Hq Hs. destruct (fire_cases k e i p st) as [(im&_&_&->&_)|[_ ->]]; [|done].
  by eapply settle_lookup_done.
Qed.

Lemma fire_length k e i p st :
  length (promises (fire k e i p st)) = length (promises st).
Proof.
  destruct (fire_cases k e i p st) as [(im&_&_&->&_)|[_ ->]]; [|done].
  apply settle_length.
Qed.

Lemma fold_fire_lookup_notin k e i l q st :
  q ∉ l →
  promises (foldl (λ s p, fire k e i p s) st l) !! q = promises st !! q.
Proof.
  revert st; induction l as [|p l IH]; intros st Hq; simpl; [done|].
  apply not_elem_of_cons in Hq as [Hne Hq].
  rewrite IH by done. by apply fire_lookup_ne.
Qed.

Lemma fold_fire_lookup_done k e i l q st pr :
  promises st !! q = Some pr → pstate pr ≠ Pending →
  promises (foldl (λ s p, fire k e i p s) st l) !! q = Some pr.
Proof.
  revert st; induction l as [|p l IH]; intros st Hq Hs; simpl; [done|].
  apply IH; [|done]. by apply fire_lookup_done.
Qed.

Lemma fold_fire_length k e i l st :
  length (promises (foldl (λ s p, fire k e i p s) st l)) = length (promises st).
Proof.
  revert st; induction l as [|p l IH]; intros st; simpl; [done|].
  by rewrite IH, fire_length.
Qed.

Lemma fold_fire_settles k e i l q c st im :
  images st !! i = Some im → q ∈ l → q ∈ listeners k im →
  promises st !! q = Some (mkPromise Pending c) →
  promises (foldl (λ s p, fire k e i p s) st l) !! q
  = Some (mkPromise (outcome k e) c).
Proof.
  revert st im; induction l as [|p l IH]; intros st im Hi Hq Hin Hp; simpl.
  - by apply elem_of_nil in Hq.
  - destruct (decide (p = q)) as [->|Hne].
    + apply fold_fire_lookup_done with (pr := mkPromise (outcome k e) c).
      * destruct (fire_cases k e i q st) as [(im'&Hi'&_&->&_)|[Hno _]].
        -- by apply settle_lookup_pending.
        -- by destruct (Hno im Hi).
      * by destruct k.
    + apply elem_of_cons in Hq as [->|Hq]; [done|].
      apply IH with (im := fin k p im); try done.
      * by rewrite fire_images, list_lookup_alter_eq, Hi.
      * apply fin_listeners. split; [done|]. intros [? _]. congruence.
      * by rewrite fire_lookup_ne.
Qed.

Lemma dispatch_settles k e i q c st im :
  images st !! i = Some im → q ∈ listeners k im →
  promises st !! q = Some (mkPromise Pending c) →
  promises (dispatch k e i st) !! q = Some (mkPromise (outcome k e) c).
Proof.
  intros Hi Hq Hp. unfold dispatch. rewrite Hi.
  by eapply fold_fire_settles.
Qed.

Lemma dispatch_lookup_notin k e i q st :
  (∀ im, images st !! i = Some im → q ∉ listeners k im) →
  promises (dispatch k e i st) !! q = promises st !! q.
Proof.
  intros Hq. unfold dispatch. destruct (images st !! i) as [im|] eqn:Hi; [|done].
  apply fold_fire_lookup_notin. by apply Hq.
Qed.

Lemma dispatch_lookup_done k e i q st pr :
  promises st !! q = Some pr → pstate pr ≠ Pending →
  promises (dispatch k e i st) !! q = Some pr.
Proof.
  intros Hq Hs. unfold dispatch. destruct (images st !! i); [|done].
  by apply fold_fire_lookup_done.
Qed.

Lemma dispatch_promises_length k e i st :
  length (promises (dispatch k e i st)) = length (promises st).
Proof.
  unfold dispatch. destruct (images st !! i); [|done]. apply fold_fire_length.
Qed.

(** The trace of a dispatch. *)

Lemma count_teardown_other x k e i p :
  is_teardown x = false → count_eff x (teardown k e i p) = 0.
Proof.
  intros Hx. unfold teardown, count_eff.
  destruct k; simpl; rewrite ?filter_cons, ?filter_nil;
    repeat (destruct (decide _) as [<-|]; [done|]); done.
Qed.

Lemma fire_count_other x k e i p st :
  is_teardown x = false →
  count_eff x (log (fire k e i p st)) = count_eff x (log st).
Proof.
  intros Hx. destruct (fire_cases k e i p st) as [(im&_&_&_&->)|[_ ->]]; [|done].
  rewrite count_eff_app, count_teardown_other by done. lia.
Qed.

Lemma dispatch_count_other x k e i st :
  is_teardown x = false →
  count_eff x (log (dispatch k e i st)) = count_eff x (log st).
Proof.
  intros Hx. unfold dispatch. destruct (images st !! i); [|done].
  apply (foldl_inv (λ s, count_eff x (log s) = count_eff x (log st))); [done|].
  intros s p _ <-. by apply fire_count_other.
Qed.

Lemma count_teardown_remove k e i p k' q :
  count_eff (RemoveListener i k' q) (teardown k e i p) = if decide (p = q) then 1 else 0.
Proof.
  unfold teardown, count_eff.
  destruct k, k'; simpl; rewrite ?filter_cons, ?filter_nil;
    repeat (destruct (decide _)); simplify_eq; done.
Qed.

Lemma fold_fire_count_remove k e i l k' q st im :
  images st !! i = Some im →
  count_eff (RemoveListener i k' q) (log (foldl (λ s p, fire k e i p s) st l))
  = count_eff (RemoveListener i k' q) (log st)
    + (if decide (q ∈ l ∧ q ∈ listeners k im) then 1 else 0).
Proof.
  revert st im; induction l as [|p l IH]; intros st im Hi; cbn [foldl].
  - rewrite decide_False; [lia|]. intros [H _]. by apply elem_of_nil in H.
  - rewrite (IH _ (fin k p im)) by (by rewrite fire_images, list_lookup_alter_eq, Hi).
    rewrite (fire_log _ _ _ _ _ _ Hi).
    destruct (decide (p ∈ listeners k im)) as [Hp|Hp].
    + rewrite count_eff_app, count_teardown_remove.
      destruct (decide (p = q)) as [->|Hne].
      * rewrite (decide_False (P := q ∈ l ∧ _)).
        2:{ intros [_ H]. apply fin_listeners in H. tauto. }
        rewrite decide_True; [lia|]. split; [left|done].
      * rewrite <- Nat.add_assoc. f_equal. simpl.
        apply decide_ext. rewrite fin_listeners, elem_of_cons.
        split; [intros [? [? _]]; tauto|].
        intros [[->|?] ?]; [done|]. split; [done|]. split; [done|].
        intros [? _]. congruence.
    + rewrite app_nil_r. f_equal. apply decide_ext.
      rewrite fin_listeners, elem_of_cons. split; [intros [? [? _]]; tauto|].
      intros [[->|?] ?]; [done|]. split; [done|]. split; [done|]. tauto.
Qed.

Lemma dispatch_count_remove k e i k' q st im :
  images st !! i = Some im →
  count_eff (RemoveListener i k' q) (log (dispatch k e i st))
  = count_eff (RemoveListener i k' q) (log st)
    + (if decide (q ∈ listeners k im) then 1 else 0).
Proof.
  intros Hi. unfold dispatch. rewrite Hi.
  rewrite (fold_fire_count_remove _ _ _ _ _ _ _ _ Hi). f_equal.
  apply decide_ext. tauto.
Qed.

Lemma dispatch_io k e i st : io (dispatch k e i st) = io st.
Proof.
  unfold dispatch. destruct (images st !! i); [|done].
  apply (foldl_inv (λ s, io s = io st)); [done|].
  intros s p _ <-. apply fire_io.
Qed.

Lemma dispatch_next_io k e i st : next_io (dispatch k e i st) = next_io st.
Proof.
  unfold dispatch. destruct (images st !! i); [|done].
  apply (foldl_inv (λ s, next_io s = next_io st)); [done|].
  intros s p _ <-. apply fire_next_io.
Qed.

(** ** The registration-and-commit cycle *)

Lemma applyDataAttributes_static im :
  loaded (applyDataAttributes im) = loaded im
  ∧ data_load (applyDataAttributes im) = data_load im
  ∧ btn (applyDataAttributes im) = btn im
  ∧ skeleton (applyDataAttributes im) = skeleton im
  ∧ on_load (applyDataAttributes im) = on_load im
  ∧ on_error (applyDataAttributes im) = on_error im.
Proof. unfold applyDataAttributes; simpl. repeat case_match; done. Qed.

Lemma started_listeners p im k :
  listeners k (started p im) = listeners k im ++ [p].
Proof.
  unfold started.
  destruct (applyDataAttributes_static
              (with_on_error (on_error im ++ [p]) (with_on_load (on_load im ++ [p]) im)))
    as (_&_&_&_&Hl&He).
  destruct k; simpl; [by rewrite Hl | by rewrite He].
Qed.

Lemma started_on_load p im : on_load (started p im) = on_load im ++ [p].
Proof. apply (started_listeners p im KLoad). Qed.

Lemma started_on_error p im : on_error (started p im) = on_error im ++ [p].
Proof. apply (started_listeners p im KError). Qed.

Lemma started_static p im :
  loaded (started p im) = loaded im ∧ data_load (started p im) = data_load im
  ∧ btn (started p im) = btn im ∧ skeleton (started p im) = skeleton im.
Proof.
  unfold started.
  destruct (applyDataAttributes_static
              (with_on_error (on_error im ++ [p]) (with_on_load (on_load im ++ [p]) im)))
    as (->&->&->&->&_&_).
  done.
Qed.

(** C6: on an image that carries the class [loaded], [loadImage] returns a
    promise that is already fulfilled and does nothing else: the page is the
    same but for that new promise, so no attribute is committed again and no
    listener is registered. *)
Theorem loadImage_loaded_no_effect st i im :
  images st !! i = Some im → loaded im = true →
  (loadImage i st).1
    = with_promises (λ ps, ps ++ [mkPromise Fulfilled Unobserved]) st
  ∧ promises (loadImage i st).1 !! (loadImage i st).2
    = Some (mkPromise Fulfilled Unobserved)
  ∧ images (loadImage i st).1 = images st
  ∧ log (loadImage i st).1 = log st
  ∧ buttons (loadImage i st).1 = buttons st
  ∧ skeletons (loadImage i st).1 = skeletons st
  ∧ io (loadImage i st).1 = io st.
Proof.
  intros Hi Hl. rewrite (loadImage_loaded _ _ _ Hi Hl). simpl.
  split; [done|]. split; [apply lookup_snoc|]. done.
Qed.

Lemma loadImage_loaded_no_effect_witness :
  (images page_after_scroll !! 0 = Some (img_at page_after_scroll 0)
   ∧ loaded (img_at page_after_scroll 0) = true)
  ∧ log (loadImage 0 page_after_scroll).1 = log page_after_scroll
  ∧ images (loadImage 0 page_after_scroll).1 = images page_after_scroll.
Proof.
  assert (images page_after_scroll !! 0 = Some (img_at page_after_scroll 0)) as Hi
    by reflexivity.
  assert (loaded (img_at page_after_scroll 0) = true) as Hl by reflexivity.
  split; [by split|].
  destruct (loadImage_loaded_no_effect page_after_scroll 0 _ Hi Hl)
    as (_ & _ & Him & Hlog & _).
  split; [exact Hlog | exact Him].
Defined.

(** C5: while the image is not loaded, [loadImage] registers the 'load'
    listener, then the 'error' listener, and only then commits the
    attributes; whichever of the two signals fires next, the cleanup removes
    each of the two listeners once, they are gone from the image afterwards,
    and a further signal of either kind removes nothing more for that call. *)
Theorem listeners_registered_before_commit st i im :
  images st !! i = Some im → loaded im = false →
  let p := (loadImage i st).2 in
  let st1 := (loadImage i st).1 in
  log st1 = log st ++ [AddListener i KLoad p; AddListener i KError p; Commit i]
  ∧ (∃ im1, images st1 !! i = Some im1
            ∧ on_load im1 = on_load im ++ [p]
            ∧ on_error im1 = on_error im ++ [p])
  ∧ ∀ k e,
      let st2 := dispatch k e i st1 in
      (∀ k', count_eff (RemoveListener i k' p) (log st2)
             = S (count_eff (RemoveListener i k' p) (log st1)))
      ∧ (∃ im2, images st2 !! i = Some im2
                ∧ (p ∉ on_load im2) ∧ (p ∉ on_error im2))
      ∧ (∀ k2 e2 k', count_eff (RemoveListener i k' p) (log (dispatch k2 e2 i st2))
                     = count_eff (RemoveListener i k' p) (log st2)).
Proof.
  intros Hi Hl. rewrite (loadImage_not_loaded _ _ _ Hi Hl). simpl.
  set (p := length (promises st)).
  set (st1 := mkPage _ _ _ _ _ _ _ _ _).
  assert (images st1 !! i = Some (started p im)) as Hi1.
  { simpl. by rewrite list_lookup_alter_eq, Hi. }
  split; [done|]. split.
  { exists (started p im). split; [done|].
    split; [apply started_on_load | apply started_on_error]. }
  intros k e.
  assert (p ∈ listeners k (started p im)) as Hin.
  { rewrite started_listeners. apply elem_of_app. right. by left. }
  pose proof (dispatch_lookup k e i st1 _ Hi1) as Hi2.
  assert (∀ k', p ∉ listeners k' (fin_all k (listeners k (started p im)) (started p im)))
    as Hgone.
  { intros k' H. apply fin_all_listeners in H. tauto. }
  split; [|split].
  - intros k'. rewrite (dispatch_count_remove _ _ _ _ _ _ _ Hi1).
    rewrite decide_True by done. by rewrite Nat.add_1_r.
  - eexists. split; [exact Hi2|]. split; [apply (Hgone KLoad) | apply (Hgone KError)].
  - intros k2 e2 k'. rewrite (dispatch_count_remove _ _ _ _ _ _ _ Hi2).
    rewrite decide_False by apply Hgone. by rewrite Nat.add_0_r.
Qed.

Lemma listeners_registered_before_commit_witness :
  let st := page_ready in
  (images st !! 1 = Some (img_at st 1) ∧ loaded (img_at st 1) = false)
  ∧ log (loadImage 1 st).1
    = log st ++ [AddListener 1 KLoad 0; AddListener 1 KError 0; Commit 1].
Proof.
  assert (images (page_ready) !! 1 = Some (img_at (page_ready) 1)) as Hi
    by reflexivity.
  assert (loaded (img_at (page_ready) 1) = false) as Hl by reflexivity.
  split; [by split|].
  exact (proj1 (listeners_registered_before_commit (page_ready) 1 _ Hi Hl)).
Defined.

(** C1 (as the code has it): the only guard of [loadImage] is the class
    [loaded].  On an image that is not loaded, in flight or not, every call
    registers a new pair of listeners and commits the attributes again, so
    two calls in a row leave two pairs of listeners and two commits; the
    signal that fires next settles both promises alike. *)
Theorem loadImage_twice_commits_twice st i im :
  images st !! i = Some im → loaded im = false →
  let p := (loadImage i st).2 in
  let st1 := (loadImage i st).1 in
  let q := (loadImage i st1).2 in
  let st2 := (loadImage i st1).1 in
  q = S p
  ∧ log st2 = log st ++ cycle i p ++ cycle i q
  ∧ count_eff (Commit i) (log st2) = 2 + count_eff (Commit i) (log st)
  ∧ (∃ im2, images st2 !! i = Some im2
            ∧ on_load im2 = on_load im ++ [p; q]
            ∧ on_error im2 = on_error im ++ [p; q])
  ∧ ∀ k e,
      promises (dispatch k e i st2) !! p = Some (mkPromise (outcome k e) Unobserved)
      ∧ promises (dispatch k e i st2) !! q = Some (mkPromise (outcome k e) Unobserved).
Proof.
  intros Hi Hl. rewrite (loadImage_not_loaded _ _ _ Hi Hl). simpl.
  set (p := length (promises st)).
  set (st1 := mkPage _ _ _ _ _ _ _ _ _).
  assert (images st1 !! i = Some (started p im)) as Hi1.
  { simpl. by rewrite list_lookup_alter_eq, Hi. }
  assert (loaded (started p im) = false) as Hl1.
  { by rewrite (proj1 (started_static p im)). }
  rewrite (loadImage_not_loaded _ _ _ Hi1 Hl1). simpl.
  assert (length (promises st ++ [mkPromise Pending Unobserved]) = S p) as Hq.
  { rewrite length_app. simpl. unfold p. lia. }
  rewrite Hq.
  split; [done|]. split.
  { unfold cycle. by rewrite <- app_assoc. }
  split.
  { rewrite <- app_assoc, !count_eff_app. unfold count_eff. simpl.
    rewrite !filter_cons, !filter_nil.
    repeat (destruct (decide _) as [?|?]; try congruence). simpl. lia. }
  set (im2 := started (S p) (started p im)).
  assert (∀ k, listeners k im2 = listeners k im ++ [p; S p]) as Hls.
  { intros k. unfold im2. rewrite !started_listeners. by rewrite <- app_assoc. }
  split.
  { exists im2. split.
    - by rewrite list_lookup_alter_eq, list_lookup_alter_eq, Hi.
    - unfold im2. rewrite !started_on_load, !started_on_error.
      by rewrite <- !app_assoc. }
  intros k e. split.
  - eapply dispatch_settles.
    + simpl. by rewrite list_lookup_alter_eq, list_lookup_alter_eq, Hi.
    + fold im2. rewrite Hls. apply elem_of_app. right. by left.
    + simpl. rewrite lookup_app_l by (rewrite length_app; simpl; unfold p; lia).
      apply lookup_snoc.
  - eapply dispatch_settles.
    + simpl. by rewrite list_lookup_alter_eq, list_lookup_alter_eq, Hi.
    + fold im2. rewrite Hls. apply elem_of_app. right. right. by left.
    + simpl. rewrite <- Hq. apply lookup_snoc.
Qed.

Lemma loadImage_twice_commits_twice_witness :
  let st := page_ready in
  (images st !! 1 = Some (img_at st 1) ∧ loaded (img_at st 1) = false)
  ∧ count_eff (Commit 1) (log (loadImage 1 (loadImage 1 st).1).1)
    = 2 + count_eff (Commit 1) (log st).
Proof.
  assert (images (page_ready) !! 1 = Some (img_at (page_ready) 1)) as Hi
    by reflexivity.
  assert (loaded (img_at (page_ready) 1) = false) as Hl by reflexivity.
  split; [by split|].
  exact (proj1 (proj2 (proj2
    (loadImage_twice_commits_twice (page_ready) 1 _ Hi Hl)))).
Defined.

(** C1, as stated, fails: image 1 of the sample page is in flight after a
    first [loadImage] (its listeners are registered, its promise is pending,
    it is not loaded); the second call commits again and registers a second
    pair of listeners. *)
Lemma second_load_in_flight_commits_again :
  let st0 := page_ready in
  let st1 := (loadImage 1 st0).1 in
  let st2 := (loadImage 1 st1).1 in
  (on_load <$> images st1 !! 1) = Some [0]
  ∧ (loaded <$> images st1 !! 1) = Some false
  ∧ (pstate <$> promises st1 !! 0) = Some Pending
  ∧ count_eff (Commit 1) (log st1) = 1
  ∧ count_eff (Commit 1) (log st2) = 2
  ∧ (on_load <$> images st2 !! 1) = Some [0; 1]
  ∧ (on_error <$> images st2 !! 1) = Some [0; 1]
  ∧ ¬ (count_eff (Commit 1) (log st2) = count_eff (Commit 1) (log st1)).
Proof. vm_compute. repeat split; try reflexivity. discriminate. Qed.

(** C2 (as the code has it): when 'error' fires at an image with a load in
    flight, the promise of that load is rejected with the reason, the
    cleanup removes each of its two listeners once and both are gone, and
    nothing is committed or registered again.  Nothing is written to the
    image: its class list and attributes are as before, so the failure is
    not recorded on it, and a later [loadImage] on it runs a full cycle
    again. *)
Theorem error_signal_rejects st i im p c e :
  images st !! i = Some im → p ∈ on_error im →
  promises st !! p = Some (mkPromise Pending c) →
  let st' := dispatch KError e i st in
  promises st' !! p = Some (mkPromise (Rejected e) c)
  ∧ (∀ k', count_eff (RemoveListener i k' p) (log st')
           = S (count_eff (RemoveListener i k' p) (log st)))
  ∧ (∀ x, is_teardown x = false → count_eff x (log st') = count_eff x (log st))
  ∧ (∃ im', images st' !! i = Some im'
            ∧ (p ∉ on_load im') ∧ (p ∉ on_error im')
            ∧ loaded im' = loaded im ∧ data_load im' = data_load im
            ∧ src im' = src im ∧ srcset im' = srcset im ∧ sizes im' = sizes im
            ∧ (loaded im = false →
               log (loadImage i st').1 = log st' ++ cycle i (loadImage i st').2)).
Proof.
  intros Hi Hp Hpr st'.
  pose proof (dispatch_lookup KError e i st _ Hi) as Hi'. fold st' in Hi'.
  set (im' := fin_all KError (listeners KError im) im) in Hi'.
  split; [by eapply (dispatch_settles KError)|].
  split.
  { intros k'. unfold st'. rewrite (dispatch_count_remove _ _ _ _ _ _ _ Hi).
    rewrite decide_True by done. lia. }
  split; [intros x Hx; by apply dispatch_count_other|].
  exists im'. split; [done|].
  assert (∀ k', p ∉ listeners k' im') as Hgone.
  { intros k' H. apply fin_all_listeners in H. tauto. }
  split; [apply (Hgone KLoad)|]. split; [apply (Hgone KError)|].
  assert (loaded im' = loaded im) as Hl by apply fin_all_loaded_error.
  destruct (fin_all_static KError (listeners KError im) im)
    as (Hd & _ & _ & Hs1 & Hs2 & Hs3 & _).
  split; [done|]. split; [done|]. split; [done|]. split; [done|]. split; [done|].
  intros Hnl. rewrite (loadImage_not_loaded _ _ _ Hi') by congruence. done.
Qed.

Lemma error_signal_rejects_witness :
  (images page_in_flight !! 1 = Some (img_at page_in_flight 1)
   ∧ 0 ∈ on_error (img_at page_in_flight 1)
   ∧ promises page_in_flight !! 0 = Some (mkPromise Pending (Awaited 1)))
  ∧ promises (dispatch KError "net" 1 page_in_flight) !! 0
    = Some (mkPromise (Rejected "net") (Awaited 1)).
Proof.
  assert (images page_in_flight !! 1 = Some (img_at page_in_flight 1)) as Hi
    by reflexivity.
  assert (0 ∈ on_error (img_at page_in_flight 1)) as Hp by (vm_compute; left).
  assert (promises page_in_flight !! 0 = Some (mkPromise Pending (Awaited 1))) as Hpr
    by reflexivity.
  split; [done|].
  exact (proj1 (error_signal_rejects page_in_flight 1 _ 0 _ "net" Hi Hp Hpr)).
Defined.

(** C2, as stated, fails: after the load of image 1 has failed the image is
    exactly the initial one with its attributes committed (no trace of the
    failure on it, and not in flight), and the failure is not terminal: a
    second click loads it. *)
Lemma failed_load_not_recorded_not_terminal :
  let st0 := page_ready in
  let st1 := run [EvClick 1; EvError 1 "net"] st0 in
  let st2 := run [EvClick 1; EvLoad 1] st1 in
  (pstate <$> promises st1 !! 0) = Some (Rejected "net")
  ∧ images st1 !! 1 = applyDataAttributes <$> images st0 !! 1
  ∧ (loaded <$> images st1 !! 1) = Some false
  ∧ (loaded <$> images st2 !! 1) = Some true
  ∧ count_eff (Commit 1) (log st2) = 2.
Proof. vm_compute. repeat split; reflexivity. Qed.

(** ** What a signal depends on *)

Lemma fire_core_ext k e i p s s' :
  core s = core s' → core (fire k e i p s) = core (fire k e i p s').
Proof.
  unfold core. intros [= Him Hpr Hb Hsk].
  rewrite !fire_images, Him. f_equal; [f_equal; [f_equal|]|].
  - destruct (images s' !! i) as [im|] eqn:Hi.
    + rewrite (fire_promises _ _ _ _ s im), (fire_promises _ _ _ _ s' im) by congruence.
      rewrite !settle_promises. by rewrite Hpr.
    + rewrite (fire_none _ _ _ _ s), (fire_none _ _ _ _ s') by congruence. done.
  - destruct (images s' !! i) as [im|] eqn:Hi.
    + rewrite (fire_buttons _ _ _ _ s im), (fire_buttons _ _ _ _ s' im) by congruence.
      rewrite !settle_buttons. by rewrite Hpr, Hb.
    + rewrite (fire_none _ _ _ _ s), (fire_none _ _ _ _ s') by congruence. done.
  - destruct (images s' !! i) as [im|] eqn:Hi.
    + rewrite (fire_skeletons _ _ _ _ s im), (fire_skeletons _ _ _ _ s' im) by congruence.
      by rewrite Hsk.
    + rewrite (fire_none _ _ _ _ s), (fire_none _ _ _ _ s') by congruence. done.
Qed.

Lemma dispatch_core_ext k e i s s' :
  core s = core s' → core (dispatch k e i s) = core (dispatch k e i s').
Proof.
  intros H. unfold dispatch.
  assert (images s = images s') as Him by (unfold core in H; congruence).
  rewrite <- Him. destruct (images s !! i) as [im|]; [|done].
  revert s s' H Him. induction (listeners k im) as [|p l IH]; intros s s' H Him; simpl; [done|].
  apply IH.
  - by apply fire_core_ext.
  - pose proof (fire_core_ext k e i p s s' H) as H'. unfold core in H'. congruence.
Qed.

Lemma disconnectObserver_core st : core (disconnectObserver st) = core st.
Proof. unfold disconnectObserver. destruct (io st); reflexivity. Qed.

(** ** The observer *)

(** C10: [ensureObserver] creates the observer when there is none and
    otherwise changes nothing, so every registration goes to the one
    instance; the disconnect control drops all targets and the instance;
    the next [ensureObserver] then makes a new instance, distinct from every
    earlier one; the disconnect leaves images, promises, buttons and
    wrappers as they were, and a signal that fires afterwards has on them
    the effect it has without the disconnect: a load in flight is still
    fulfilled with the image loaded, or rejected. *)
Theorem observer_single_lazy_instance st :
  observer_bound st →
  (io st = None →
     io (ensureObserver st) = Some (mkObserver (next_io st) [])
     ∧ next_io (ensureObserver st) = S (next_io st))
  ∧ (∀ o, io st = Some o → ensureObserver st = st)
  ∧ (∀ i, io (ensureObserver (io_observe i (ensureObserver st)))
          = io (io_observe i (ensureObserver st))
        ∧ (io_id <$> io (io_observe i (ensureObserver st)))
          = (io_id <$> io (ensureObserver st)))
  ∧ io (disconnectObserver st) = None
  ∧ (∀ i, watched i (disconnectObserver st) = false)
  ∧ (∀ o, io st = Some o →
       ∃ o', io (ensureObserver (disconnectObserver st)) = Some o'
             ∧ io_id o' ≠ io_id o ∧ targets o' = [])
  ∧ images (disconnectObserver st) = images st
  ∧ promises (disconnectObserver st) = promises st
  ∧ buttons (disconnectObserver st) = buttons st
  ∧ skeletons (disconnectObserver st) = skeletons st
  ∧ (∀ k e i,
       core (dispatch k e i (disconnectObserver st)) = core (dispatch k e i st))
  ∧ (∀ k e i im p c,
       images st !! i = Some im → p ∈ listeners k im →
       promises st !! p = Some (mkPromise Pending c) →
       promises (dispatch k e i (disconnectObserver st)) !! p
         = Some (mkPromise (outcome k e) c)
       ∧ (loaded <$> images (dispatch k e i (disconnectObserver st)) !! i)
         = Some (match k with KLoad => true | KError => loaded im end)).
Proof.
  intros Hid.
  split. { intros Hn. unfold ensureObserver. by rewrite Hn. }
  split. { intros o Ho. unfold ensureObserver. by rewrite Ho. }
  split.
  { intros i. unfold ensureObserver, io_observe.
    destruct (io st) as [o|] eqn:Ho; simpl; rewrite ?Ho; simpl;
      unfold observe; simpl; by repeat case_match. }
  split. { unfold disconnectObserver. destruct (io st) eqn:Ho; [reflexivity | exact Ho]. }
  split.
  { intros i. unfold watched, disconnectObserver.
    destruct (io st) eqn:Ho; [reflexivity | by rewrite Ho]. }
  split.
  { intros o Ho. unfold disconnectObserver, ensureObserver. rewrite Ho. simpl.
    eexists. split; [done|]. simpl. split; [|done].
    specialize (Hid o Ho). lia. }
  pose proof (disconnectObserver_core st) as Hc.
  split; [unfold core in Hc; congruence|].
  split; [unfold core in Hc; congruence|].
  split; [unfold core in Hc; congruence|].
  split; [unfold core in Hc; congruence|].
  split.
  { intros k e i. by apply dispatch_core_ext. }
  intros k e i im p c Hi Hp Hpr.
  pose proof (dispatch_core_ext k e i _ _ Hc) as H. unfold core in H.
  assert (images (dispatch k e i (disconnectObserver st)) = images (dispatch k e i st))
    as -> by congruence.
  assert (promises (dispatch k e i (disconnectObserver st)) = promises (dispatch k e i st))
    as -> by congruence.
  split; [by eapply dispatch_settles|].
  rewrite (dispatch_lookup _ _ _ _ _ Hi). simpl. f_equal.
  destruct k; [by apply (fin_all_loaded_load _ _ p) | apply fin_all_loaded_error].
Qed.

Lemma observer_single_lazy_instance_witness :
  observer_bound page_scrolling
  ∧ io (disconnectObserver page_scrolling) = None
  ∧ (io_id <$> io (ensureObserver (disconnectObserver page_scrolling))) = Some 1
  ∧ (io_id <$> io page_scrolling) = Some 0.
Proof.
  assert (observer_bound page_scrolling) as Hid.
  { intros o Ho. vm_compute in Ho. injection Ho as <-. vm_compute. lia. }
  split; [exact Hid|].
  split; [exact (proj1 (proj2 (proj2 (proj2
            (observer_single_lazy_instance page_scrolling Hid)))))|].
  split; reflexivity.
Defined.

(** ** loadImage, field by field *)

Lemma loadImage_cases i st :
  (∃ im, images st !! i = Some im ∧ loaded im = false
         ∧ not_loaded st i = true
         ∧ loadImage i st =
             (mkPage (alter (started (length (promises st))) i (images st))
                (buttons st) (skeletons st) (io st) (next_io st)
                (currentMode st) (modeLabel st)
                (promises st ++ [mkPromise Pending Unobserved])
                (log st ++ cycle i (length (promises st))),
              length (promises st)))
  ∨ (not_loaded st i = false
     ∧ ∃ s, loadImage i st =
              (with_promises (λ ps, ps ++ [mkPromise s Unobserved]) st,
               length (promises st))).
Proof.
  unfold not_loaded. destruct (images st !! i) as [im|] eqn:Hi.
  - destruct (loaded im) eqn:Hl.
    + right. split; [done|]. exists Fulfilled. by apply (loadImage_loaded _ _ im).
    + left. exists im. split; [done|]. split; [done|]. split; [done|].
      by apply (loadImage_not_loaded _ _ im).
  - right. split; [done|]. exists Pending. by apply loadImage_none.
Qed.

Lemma loadImage_snd i st : (loadImage i st).2 = length (promises st).
Proof. destruct (loadImage_cases i st) as [(?&?&?&?&->)|(?&?&->)]; done. Qed.
Lemma loadImage_io i st : io (loadImage i st).1 = io st.
Proof. destruct (loadImage_cases i st) as [(?&?&?&?&->)|(?&?&->)]; done. Qed.
Lemma loadImage_next_io i st : next_io (loadImage i st).1 = next_io st.
Proof. destruct (loadImage_cases i st) as [(?&?&?&?&->)|(?&?&->)]; done. Qed.
Lemma loadImage_buttons i st : buttons (loadImage i st).1 = buttons st.
Proof. destruct (loadImage_cases i st) as [(?&?&?&?&->)|(?&?&->)]; done. Qed.
Lemma loadImage_skeletons i st : skeletons (loadImage i st).1 = skeletons st.
Proof. destruct (loadImage_cases i st) as [(?&?&?&?&->)|(?&?&->)]; done. Qed.
Lemma loadImage_mode i st : currentMode (loadImage i st).1 = currentMode st.
Proof. destruct (loadImage_cases i st) as [(?&?&?&?&->)|(?&?&->)]; done. Qed.
Lemma loadImage_label i st : modeLabel (loadImage i st).1 = modeLabel st.
Proof. destruct (loadImage_cases i st) as [(?&?&?&?&->)|(?&?&->)]; done. Qed.

Lemma loadImage_images i st :
  images (loadImage i st).1 =
    if not_loaded st i then alter (started (length (promises st))) i (images st)
    else images st.
Proof. destruct (loadImage_cases i st) as [(?&?&?&->&->)|(->&?&->)]; done. Qed.

Lemma loadImage_log i st :
  log (loadImage i st).1 =
    log st ++ (if not_loaded st i then cycle i (length (promises st)) else []).
Proof.
  destruct (loadImage_cases i st) as [(?&?&?&->&->)|(->&?&->)]; [done|].
  proj. by rewrite app_nil_r.
Qed.

Lemma loadImage_promises i st :
  ∃ s, promises (loadImage i st).1 = promises st ++ [mkPromise s Unobserved].
Proof.
  destruct (loadImage_cases i st) as [(?&?&?&?&->)|(?&s&->)]; by eexists.
Qed.

Lemma loadImage_lookup_ne i j st :
  i ≠ j → images (loadImage i st).1 !! j = images st !! j.
Proof.
  intros Hne. rewrite loadImage_images. destruct (not_loaded st i); [|done].
  by apply list_lookup_alter_ne.
Qed.

(** ** Crossing events *)

Lemma deliver_watched i b st :
  watched i st = true → deliver [(i, b)] st = io_entry (i, b) st.
Proof.
  intros Hw. unfold deliver, io_callback.
  rewrite filter_cons, decide_True by done. by rewrite filter_nil.
Qed.

Lemma deliver_unwatched i b st :
  watched i st = false → deliver [(i, b)] st = st.
Proof.
  intros Hw. unfold deliver, io_callback.
  rewrite filter_cons, decide_False by (cbn; congruence). by rewrite filter_nil.
Qed.

Lemma watched_unobserve i st : watched i (io_unobserve i st) = false.
Proof.
  unfold watched, io_unobserve. proj. destruct (io st) as [o|]; [|done].
  cbn. apply bool_decide_eq_false. rewrite list_elem_of_filter. tauto.
Qed.

(** ** toggleMode, one image at a time *)

Lemma toggle_one_eq i st im :
  images st !! i = Some im →
  toggle_one i st =
    mkPage (alter (with_data_load (Some (currentMode st))) i (images st))
      (toggled_buttons (String.eqb (currentMode st) "scroll") im (buttons st))
      (skeletons st)
      (toggled_io (String.eqb (currentMode st) "scroll") i im (next_io st) (io st))
      (toggled_next_io (String.eqb (currentMode st) "scroll") im (next_io st) (io st))
      (currentMode st) (modeLabel st) (promises st) (log st).
Proof.
  intros Hi. unfold toggle_one, toggled_buttons, toggled_io, toggled_next_io.
  rewrite Hi. proj.
  destruct (loaded im); [by apply page_eq|].
  destruct (String.eqb (currentMode st) "scroll");
    destruct (btn im) as [b|]; unfold ensureObserver; proj;
    destruct (io st) as [o|] eqn:Ho; proj; rewrite ?Ho;
    apply page_eq; proj; rewrite ?Ho; done.
Qed.

Lemma toggle_one_none i st : images st !! i = None → toggle_one i st = st.
Proof. intros Hi. unfold toggle_one. by rewrite Hi. Qed.

Lemma toggle_one_images i st :
  images (toggle_one i st)
  = alter (with_data_load (Some (currentMode st))) i (images st).
Proof.
  destruct (images st !! i) as [im|] eqn:Hi.
  - by rewrite (toggle_one_eq _ _ _ Hi).
  - rewrite toggle_one_none by done.
    symmetry. apply list_eq; intros j. destruct (decide (i = j)) as [<-|].
    + by rewrite list_lookup_alter_eq, Hi.
    + by rewrite list_lookup_alter_ne.
Qed.

Ltac toggle_frame :=
  match goal with
  | |- context [toggle_one ?i ?st] =>
      let Hi := fresh in
      destruct (images st !! i) eqn:Hi;
      [ by rewrite (toggle_one_eq _ _ _ Hi) | by rewrite toggle_one_none ]
  end.

Lemma toggle_one_mode i st : currentMode (toggle_one i st) = currentMode st.
Proof. toggle_frame. Qed.
Lemma toggle_one_label i st : modeLabel (toggle_one i st) = modeLabel st.
Proof. toggle_frame. Qed.
Lemma toggle_one_promises i st : promises (toggle_one i st) = promises st.
Proof. toggle_frame. Qed.
Lemma toggle_one_log i st : log (toggle_one i st) = log st.
Proof. toggle_frame. Qed.
Lemma toggle_one_skeletons i st : skeletons (toggle_one i st) = skeletons st.
Proof. toggle_frame. Qed.

Lemma watched_iff i st :
  watched i st = true ↔ ∃ o, io st = Some o ∧ i ∈ targets o.
Proof.
  unfold watched. destruct (io st) as [o|].
  - rewrite bool_decide_eq_true. split; [by exists o|]. by intros (? & [= <-] & ?).
  - split; [done|]. by intros (? & ? & ?).
Qed.

Lemma elem_of_observe i j o : j ∈ targets (observe i o) ↔ j = i ∨ j ∈ targets o.
Proof.
  unfold observe. destruct (decide (i ∈ targets o)) as [Hin|Hin].
  - split; [by right|]. by intros [->|].
  - cbn. rewrite elem_of_app, list_elem_of_singleton. tauto.
Qed.

Lemma elem_of_unobserve i j o : j ∈ targets (unobserve i o) ↔ j ≠ i ∧ j ∈ targets o.
Proof. unfold unobserve. cbn. rewrite list_elem_of_filter. tauto. Qed.

Lemma watched_toggle_one i j st im :
  images st !! i = Some im →
  watched j (toggle_one i st) =
    if loaded im then watched j st
    else if String.eqb (currentMode st) "scroll"
         then bool_decide (j = i) || watched j st
         else negb (bool_decide (j = i)) && watched j st.
Proof.
  intros Hi. rewrite (toggle_one_eq _ _ _ Hi). unfold watched, toggled_io. proj.
  destruct (loaded im); [done|].
  destruct (String.eqb (currentMode st) "scroll").
  - apply eq_true_iff_eq. rewrite bool_decide_eq_true, elem_of_observe.
    rewrite orb_true_iff, bool_decide_eq_true.
    destruct (io st) as [o|]; cbn [default targets].
    + by rewrite bool_decide_eq_true.
    + rewrite elem_of_nil. split; [intros [?|[]]; by left|]. intros [?|?]; [by left|done].
  - destruct (io st) as [o|]; cbn [fmap option_fmap option_map].
    + apply eq_true_iff_eq. rewrite bool_decide_eq_true, elem_of_unobserve.
      rewrite andb_true_iff, negb_true_iff, bool_decide_eq_false, bool_decide_eq_true.
      tauto.
    + by rewrite andb_false_r.
Qed.

Lemma with_data_load_same m im : data_load im = m → with_data_load m im = im.
Proof. intros <-. by destruct im. Qed.

Lemma with_hidden_same h B : hidden B = h → with_hidden h B = B.
Proof. intros <-. by destruct B. Qed.

Lemma alter_hidden_same h b (m : gmap nat Button) :
  (∀ B, m !! b = Some B → hidden B = h) → alter (with_hidden h) b m = m.
Proof.
  intros H. apply map_eq; intros b'. rewrite lookup_alter.
  destruct (decide (b = b')) as [<-|]; [|done].
  destruct (m !! b) as [B|] eqn:HB; [|done]. cbn. f_equal.
  apply with_hidden_same. by apply H.
Qed.

Lemma filter_ne_id (i : nat) (l : list nat) : i ∉ l → filter (λ j, j ≠ i) l = l.
Proof.
  induction l as [|a l IH]; intros Hi; [done|].
  apply not_elem_of_cons in Hi as [Hne Hi].
  rewrite filter_cons, decide_True by done. by rewrite IH.
Qed.

Lemma toggle_one_noop i s : reconciled i s → toggle_one i s = s.
Proof.
  intros Hr. destruct (images s !! i) as [im|] eqn:Hi;
    [|by apply toggle_one_none].
  destruct (Hr im Hi) as [Hd Hn].
  rewrite (toggle_one_eq _ _ _ Hi).
  apply page_eq; proj; try done.
  - eapply alter_same; [done|]. by apply with_data_load_same.
  - unfold toggled_buttons. destruct (loaded im); [done|].
    destruct (btn im) as [b|] eqn:Hb; [|done].
    apply alter_hidden_same. intros B HB. by apply (proj1 (Hn eq_refl) b B).
  - unfold toggled_io. destruct (loaded im); [done|].
    destruct (Hn eq_refl) as [_ Hw].
    destruct (String.eqb (currentMode s) "scroll").
    + apply watched_iff in Hw as (o & Ho & Hin). rewrite Ho. cbn. f_equal.
      unfold observe. by rewrite decide_True.
    + unfold watched in Hw. destruct (io s) as [o|]; [|done]. cbn. f_equal.
      apply bool_decide_eq_false in Hw. unfold unobserve.
      rewrite filter_ne_id by done. by destruct o.
  - unfold toggled_next_io. destruct (loaded im); [done|].
    destruct (Hn eq_refl) as [_ Hw].
    destruct (String.eqb (currentMode s) "scroll"); [|done].
    apply watched_iff in Hw as (o & Ho & Hin). by rewrite Ho.
Qed.

Lemma toggle_one_buttons_hidden i st im b B :
  images st !! i = Some im →
  buttons (toggle_one i st) !! b = Some B →
  (loaded im = false ∧ btn im = Some b
   ∧ hidden B = String.eqb (currentMode st) "scroll")
  ∨ buttons st !! b = Some B.
Proof.
  intros Hi. rewrite (toggle_one_eq _ _ _ Hi). proj. unfold toggled_buttons.
  destruct (loaded im); [by right|].
  destruct (btn im) as [b'|]; [|by right].
  rewrite lookup_alter. destruct (decide (b' = b)) as [->|]; [|by right].
  destruct (buttons st !! b) as [B0|]; [|done]. cbn. intros [= <-]. by left.
Qed.

Lemma toggle_one_reconciles i j s :
  (j = i ∨ reconciled j s) → reconciled j (toggle_one i s).
Proof.
  intros Hj. destruct (images s !! i) as [im|] eqn:Hi.
  2:{ rewrite toggle_one_none by done. destruct Hj as [->|]; [|done].
      intros im. congruence. }
  intros imj Himj. rewrite toggle_one_mode.
  rewrite toggle_one_images in Himj.
  rewrite (watched_toggle_one _ _ _ _ Hi).
  destruct (decide (j = i)) as [->|Hne].
  - rewrite list_lookup_alter_eq, Hi in Himj. injection Himj as <-.
    split; [done|]. cbn [loaded with_data_load btn]. intros Hl. rewrite Hl. split.
    + intros b B Hb HB.
      destruct (toggle_one_buttons_hidden _ _ _ _ _ Hi HB) as [(_&_&?)|HB']; [done|].
      rewrite (toggle_one_eq _ _ _ Hi) in HB. proj. unfold toggled_buttons in HB.
      rewrite Hl, Hb, lookup_alter_eq, HB' in HB. injection HB as <-. done.
    + rewrite bool_decide_eq_true_2 by done.
      by destruct (String.eqb (currentMode s) "scroll").
  - destruct Hj as [?|Hr]; [done|].
    rewrite list_lookup_alter_ne in Himj by done.
    destruct (Hr imj Himj) as [Hd Hn]. split; [done|].
    intros Hl. destruct (Hn Hl) as [Hb Hw]. split.
    + intros b B Hbtn HB.
      destruct (toggle_one_buttons_hidden _ _ _ _ _ Hi HB) as [(_&_&?)|HB']; [done|].
      by apply (Hb b B).
    + rewrite bool_decide_eq_false_2 by done. cbn [negb orb andb].
      by destruct (loaded im), (String.eqb (currentMode s) "scroll").
Qed.

Lemma fold_toggle_mode l s :
  currentMode (foldl (λ s i, toggle_one i s) s l) = currentMode s.
Proof.
  apply (foldl_inv (λ s', currentMode s' = currentMode s)); [done|].
  intros s' i _ <-. apply toggle_one_mode.
Qed.

Lemma fold_toggle_reconciled l s j :
  j ∈ l → reconciled j (foldl (λ s i, toggle_one i s) s l).
Proof.
  revert s. induction l as [|i l IH] using rev_ind; intros s Hj.
  - by apply elem_of_nil in Hj.
  - rewrite foldl_snoc. apply toggle_one_reconciles.
    apply elem_of_app in Hj as [Hj|Hj].
    + right. by apply IH.
    + left. by apply list_elem_of_singleton in Hj.
Qed.

Lemma fold_toggle_noop l s :
  (∀ j, j ∈ l → reconciled j s) → foldl (λ s i, toggle_one i s) s l = s.
Proof.
  induction l as [|i l IH]; intros H; [done|]. cbn [foldl].
  rewrite toggle_one_noop by (apply H; by left).
  apply IH. intros j Hj. apply H. by right.
Qed.

Lemma fold_toggle_images l s :
  images (foldl (λ s i, toggle_one i s) s l)
  = foldl (λ ims i, alter (with_data_load (Some (currentMode s))) i ims) (images s) l.
Proof.
  revert s; induction l as [|i l IH]; intros s; [done|]. cbn [foldl].
  by rewrite IH, toggle_one_images, toggle_one_mode.
Qed.

Lemma alter_middle {A} (f : A → A) (pre l : list A) (a : A) :
  alter f (length pre) (pre ++ a :: l) = pre ++ f a :: l.
Proof. induction pre as [|x pre IH]; [done|]. cbn. f_equal. apply IH. Qed.

Lemma foldl_alter_seq {A} (f : A → A) (pre l : list A) :
  foldl (λ ims i, alter f i ims) (pre ++ l) (seq (length pre) (length l))
  = pre ++ (f <$> l).
Proof.
  revert pre; induction l as [|a l IH]; intros pre; [done|].
  cbn [length seq foldl fmap list_fmap].
  replace (alter f (length pre) (pre ++ a :: l)) with ((pre ++ [f a]) ++ l).
  2:{ rewrite <- app_assoc. cbn. symmetry. apply alter_middle. }
  replace (S (length pre)) with (length (pre ++ [f a]))
    by (rewrite length_app; cbn; lia).
  rewrite IH. by rewrite <- app_assoc.
Qed.

Lemma toggleMode_images b st :
  images (toggleMode b st)
  = with_data_load (Some (if b then "scroll" else "click")) <$> images st.
Proof.
  unfold toggleMode. rewrite fold_toggle_images. proj. unfold indices. proj.
  apply (foldl_alter_seq _ [] (images st)).
Qed.

Lemma toggleMode_mode b st :
  currentMode (toggleMode b st) = if b then "scroll" else "click".
Proof. unfold toggleMode. by rewrite fold_toggle_mode. Qed.

Lemma toggleMode_label b st :
  modeLabel (toggleMode b st)
  = if b then "авто (on-scroll)" else "по кліку (on-click)".
Proof.
  unfold toggleMode.
  apply (foldl_inv (λ s, modeLabel s = if b then "авто (on-scroll)" else "по кліку (on-click)"));
    [done|].
  intros s i _ <-. apply toggle_one_label.
Qed.

Lemma toggleMode_reconciled b st j :
  j < length (images st) → reconciled j (toggleMode b st).
Proof.
  intros Hj. unfold toggleMode. apply fold_toggle_reconciled.
  unfold indices. proj. apply elem_of_seq. lia.
Qed.

Lemma fold_toggle_inv (P : Page → Prop) (s : Page) (l : list nat) :
  P s →
  (∀ s' j imj0 imj,
     j ∈ l → images s !! j = Some imj0 → images s' !! j = Some imj →
     loaded imj = loaded imj0 → btn imj = btn imj0 →
     currentMode s' = currentMode s → P s' → P (toggle_one j s')) →
  P (foldl (λ s i, toggle_one i s) s l).
Proof.
  intros HP Hstep.
  pose (Q := λ s', P s' ∧ currentMode s' = currentMode s
                   ∧ ∀ j imj, images s' !! j = Some imj →
                       ∃ imj0, images s !! j = Some imj0
                               ∧ loaded imj = loaded imj0 ∧ btn imj = btn imj0).
  assert (Q (foldl (λ s i, toggle_one i s) s l)) as [H _]; [|done].
  apply foldl_inv.
  - split; [done|]. split; [done|]. intros j imj Hj. by exists imj.
  - intros s' j Hj (HP' & Hm & Hsh). split; [|split].
    + destruct (images s' !! j) as [imj|] eqn:Hij.
      * destruct (Hsh j imj Hij) as (imj0 & H0 & Hl & Hb). by eapply Hstep.
      * by rewrite toggle_one_none.
    + by rewrite toggle_one_mode.
    + intros j' imj'. rewrite toggle_one_images.
      destruct (decide (j = j')) as [<-|Hne].
      * rewrite list_lookup_alter_eq.
        destruct (images s' !! j) as [imj|] eqn:Hij; [|done].
        cbn. intros [= <-]. destruct (Hsh j imj Hij) as (imj0 & H0 & Hl & Hb).
        by exists imj0.
      * rewrite list_lookup_alter_ne by done. apply Hsh.
Qed.

Lemma NoDup_observe i o : NoDup (targets o) → NoDup (targets (observe i o)).
Proof.
  intros H. unfold observe. destruct (decide (i ∈ targets o)) as [Hin|Hin]; [done|].
  cbn. apply NoDup_app. split; [done|]. split.
  - intros j Hj Hj'. apply list_elem_of_singleton in Hj'. by subst.
  - apply NoDup_singleton.
Qed.

Lemma NoDup_unobserve i o : NoDup (targets o) → NoDup (targets (unobserve i o)).
Proof. intros H. unfold unobserve. cbn. by apply NoDup_filter. Qed.

Lemma toggle_one_distinct i s : targets_distinct s → targets_distinct (toggle_one i s).
Proof.
  intros H. destruct (images s !! i) as [im|] eqn:Hi;
    [|by rewrite toggle_one_none].
  rewrite (toggle_one_eq _ _ _ Hi). intros o. proj. unfold toggled_io.
  destruct (loaded im); [apply H|].
  destruct (String.eqb (currentMode s) "scroll").
  - intros [= <-]. apply NoDup_observe.
    destruct (io s) as [o'|] eqn:Ho; cbn; [by apply H | apply NoDup_nil_2].
  - destruct (io s) as [o'|] eqn:Ho; [|done]. cbn. intros [= <-].
    apply NoDup_unobserve. by apply H.
Qed.

(** C9: [toggleMode] with the value it was last called with changes nothing:
    the whole page, hence the observed targets, every button and the label,
    is what the first call left.  No target is ever listed twice. *)
Theorem toggleMode_idempotent b st :
  toggleMode b (toggleMode b st) = toggleMode b st
  ∧ io (toggleMode b (toggleMode b st)) = io (toggleMode b st)
  ∧ buttons (toggleMode b (toggleMode b st)) = buttons (toggleMode b st)
  ∧ modeLabel (toggleMode b (toggleMode b st)) = modeLabel (toggleMode b st)
  ∧ (targets_distinct st → targets_distinct (toggleMode b st)).
Proof.
  assert (toggleMode b (toggleMode b st) = toggleMode b st) as Heq.
  { set (s := toggleMode b st). unfold toggleMode at 1.
    assert (with_mode (if b then "scroll" else "click")
              (if b then "авто (on-scroll)" else "по кліку (on-click)") s = s) as ->.
    { apply page_eq; proj; try done; unfold s.
      - by rewrite toggleMode_mode.
      - by rewrite toggleMode_label. }
    apply fold_toggle_noop. intros j Hj. unfold s. apply toggleMode_reconciled.
    unfold indices in Hj. apply elem_of_seq in Hj.
    unfold s in Hj. rewrite toggleMode_images, length_fmap in Hj. lia. }
  split; [done|]. rewrite Heq. split; [done|]. split; [done|]. split; [done|].
  intros Hd. unfold toggleMode.
  apply (foldl_inv targets_distinct); [done|].
  intros s i _. apply toggle_one_distinct.
Qed.

(** C3 (as the code has it): [toggleMode] writes the new mode into
    data-load of every image, loaded or not; for a loaded image that is
    all: its class, attributes and listeners are kept, it is observed
    afterwards exactly if it was before, and its button is untouched unless
    the same button also belongs to an image that is not loaded. *)
Theorem toggleMode_loaded_image b st i im :
  images st !! i = Some im → loaded im = true →
  images (toggleMode b st) !! i
    = Some (with_data_load (Some (if b then "scroll" else "click")) im)
  ∧ watched i (toggleMode b st) = watched i st
  ∧ (∀ k, btn im = Some k →
       (∀ j imj, images st !! j = Some imj → loaded imj = false → btn imj ≠ Some k) →
       buttons (toggleMode b st) !! k = buttons st !! k).
Proof.
  intros Hi Hl. split; [|split].
  - by rewrite toggleMode_images, list_lookup_fmap, Hi.
  - unfold toggleMode.
    set (s1 := with_mode _ _ st).
    apply (fold_toggle_inv (λ s, watched i s = watched i st)); [done|].
    intros s' j imj0 imj _ H0 Hj Hlj _ _ <-.
    rewrite (watched_toggle_one _ _ _ _ Hj).
    destruct (decide (i = j)) as [<-|Hne].
    + assert (imj0 = im) as -> by (cbn in H0; congruence). by rewrite Hlj, Hl.
    + rewrite bool_decide_eq_false_2 by done. cbn [negb orb andb].
      by destruct (loaded imj), (String.eqb (currentMode s') "scroll").
  - intros k Hk Hun. unfold toggleMode.
    set (s1 := with_mode _ _ st).
    apply (fold_toggle_inv (λ s, buttons s !! k = buttons st !! k)); [done|].
    intros s' j imj0 imj _ H0 Hj Hlj Hbj _ <-.
    rewrite (toggle_one_eq _ _ _ Hj). proj. unfold toggled_buttons.
    destruct (loaded imj) eqn:Hlj'; [done|].
    destruct (btn imj) as [b'|] eqn:Hb'; [|done].
    apply lookup_alter_ne. intros ->.
    apply (Hun j imj0); [done | congruence | congruence].
Qed.

Lemma toggleMode_loaded_image_witness :
  (images page_after_scroll !! 0 = Some (img_at page_after_scroll 0)
   ∧ loaded (img_at page_after_scroll 0) = true)
  ∧ (data_load <$> images (toggleMode false page_after_scroll) !! 0) = Some (Some "click")
  ∧ watched 0 (toggleMode false page_after_scroll) = watched 0 page_after_scroll.
Proof.
  assert (images page_after_scroll !! 0 = Some (img_at page_after_scroll 0)) as Hi
    by reflexivity.
  assert (loaded (img_at page_after_scroll 0) = true) as Hl by reflexivity.
  split; [by split|].
  destruct (toggleMode_loaded_image false page_after_scroll 0 _ Hi Hl)
    as (H1 & H2 & _).
  split; [by rewrite H1 | exact H2].
Defined.

(** C3, as stated, fails: image 0 of the sample page is loaded with
    data-load "scroll"; [toggleMode(false)] rewrites its data-load to
    "click". *)
Lemma toggleMode_rewrites_mode_of_loaded_image :
  (loaded <$> images page_after_scroll !! 0) = Some true
  ∧ (loadMode <$> images page_after_scroll !! 0) = Some "scroll"
  ∧ (loadMode <$> images (toggleMode false page_after_scroll) !! 0) = Some "click"
  ∧ images (toggleMode false page_after_scroll) !! 0 ≠ images page_after_scroll !! 0.
Proof. vm_compute. repeat split; try reflexivity. discriminate. Qed.

(** ** Batches of crossing events *)

Lemma io_entry_scroll i st im :
  images st !! i = Some im → loadMode im = "scroll" →
  io_entry (i, true) st
  = io_unobserve i (then_ (length (promises st)) Swallowed (loadImage i st).1).
Proof.
  intros Hi Hm. unfold io_entry. cbn [negb]. rewrite Hi, Hm, String.eqb_refl.
  cbn [negb]. rewrite <- (loadImage_snd i st). by destruct (loadImage i st).
Qed.

Lemma cycle_no_commit i j p : i ≠ j → count_eff (Commit i) (cycle j p) = 0.
Proof.
  intros Hne. unfold count_eff, cycle.
  rewrite !filter_cons, filter_nil.
  repeat (destruct (decide _) as [?|?]; try congruence). done.
Qed.

Lemma cycle_commit i p : count_eff (Commit i) (cycle i p) = 1.
Proof.
  unfold count_eff, cycle.
  rewrite !filter_cons, filter_nil.
  repeat (destruct (decide _) as [?|?]; try congruence). done.
Qed.

Lemma crossings_cons i en l :
  crossings i (en :: l)
  = (if decide (en = (i, true)) then 1 else 0) + crossings i l.
Proof.
  unfold crossings. rewrite filter_cons. by destruct (decide (en = (i, true))).
Qed.

Lemma crossings_other i l :
  (∀ en, en ∈ l → en.1 ≠ i) → crossings i l = 0.
Proof.
  induction l as [|en l IH]; intros Hl; [done|].
  rewrite crossings_cons, IH.
  - destruct (decide (en = (i, true))) as [->|]; [|done].
    exfalso. apply (Hl (i, true)); [left|done].
  - intros en' Hen'. apply Hl. by right.
Qed.

Lemma crossings_watched i st entries :
  watched i st = true →
  crossings i (filter (λ en, watched en.1 st = true) entries)
  = crossings i entries.
Proof.
  intros Hw. induction entries as [|en l IH]; [done|].
  rewrite filter_cons. destruct (decide (watched en.1 st = true)) as [He|He].
  - by rewrite !crossings_cons, IH.
  - rewrite crossings_cons, IH.
    destruct (decide (en = (i, true))) as [->|]; [|done].
    cbn in He. congruence.
Qed.

Lemma watched_unobserve_ne i j st :
  i ≠ j → watched i (io_unobserve j st) = watched i st.
Proof.
  intros Hne. unfold watched, io_unobserve. proj.
  destruct (io st) as [o|]; [|done].
  cbn. apply bool_decide_ext. rewrite list_elem_of_filter. tauto.
Qed.

(** An entry that names another image. *)
Lemma io_entry_other i j b st :
  i ≠ j →
  images (io_entry (j, b) st) !! i = images st !! i
  ∧ count_eff (Commit i) (log (io_entry (j, b) st)) = count_eff (Commit i) (log st)
  ∧ watched i (io_entry (j, b) st) = watched i st.
Proof.
  intros Hne. unfold io_entry. destruct b; cbn [negb]; [|done].
  destruct (images st !! j) as [imj|]; [|done].
  destruct (negb _); [done|].
  destruct (loadImage j st) as [st1 p] eqn:Hl.
  replace st1 with (loadImage j st).1 by (by rewrite Hl).
  split; [|split].
  - unfold io_unobserve. proj. rewrite then_images.
    apply loadImage_lookup_ne. congruence.
  - unfold io_unobserve. proj. rewrite then_log, loadImage_log, count_eff_app.
    destruct (not_loaded st j); [rewrite cycle_no_commit by done|cbn]; lia.
  - rewrite watched_unobserve_ne by done. unfold watched.
    by rewrite then_io, loadImage_io.
Qed.

(** An entry that names the image and leaves it alone. *)
Lemma io_entry_idle i b st im :
  images st !! i = Some im → b = false ∨ loadMode im ≠ "scroll" →
  io_entry (i, b) st = st.
Proof.
  intros Hi [->|Hm]; [done|]. unfold io_entry. destruct b; cbn [negb]; [|done].
  rewrite Hi. by destruct (String.eqb_spec (loadMode im) "scroll").
Qed.

(** An intersecting entry that names an image in scroll mode. *)
Lemma io_entry_crossing i st im :
  images st !! i = Some im → loadMode im = "scroll" →
  (∃ im', images (io_entry (i, true) st) !! i = Some im'
          ∧ loadMode im' = "scroll" ∧ loaded im' = loaded im)
  ∧ count_eff (Commit i) (log (io_entry (i, true) st))
    = count_eff (Commit i) (log st) + (if loaded im then 0 else 1)
  ∧ watched i (io_entry (i, true) st) = false.
Proof.
  intros Hi Hm. rewrite (io_entry_scroll i st im Hi Hm).
  split; [|split; [|apply watched_unobserve]].
  - unfold io_unobserve. proj. rewrite then_images, loadImage_images.
    unfold not_loaded. rewrite Hi. destruct (loaded im) eqn:Hl; cbn [negb].
    + by exists im.
    + exists (started (length (promises st)) im).
      rewrite list_lookup_alter_eq, Hi. split; [done|].
      destruct (started_static (length (promises st)) im) as (Hl'&Hd&_).
      split; [|congruence]. unfold loadMode in *. by rewrite Hd.
  - unfold io_unobserve. proj. rewrite then_log, loadImage_log, count_eff_app.
    unfold not_loaded. rewrite Hi. destruct (loaded im); cbn [negb].
    + done.
    + by rewrite cycle_commit.
Qed.

(** A batch none of whose entries names the image. *)
Lemma io_callback_others i l : ∀ st,
  (∀ en, en ∈ l → en.1 ≠ i) →
  images (io_callback l st) !! i = images st !! i
  ∧ count_eff (Commit i) (log (io_callback l st)) = count_eff (Commit i) (log st)
  ∧ watched i (io_callback l st) = watched i st.
Proof.
  induction l as [|[j b] l IH]; intros st Hl; [done|].
  unfold io_callback. cbn [foldl]. fold (io_callback l (io_entry (j, b) st)).
  assert (i ≠ j) as Hne.
  { intros ->. apply (Hl (j, b)); [left|done]. }
  destruct (io_entry_other i j b st Hne) as (<-&<-&<-).
  apply IH. intros en Hen. apply Hl. by right.
Qed.

(** A batch in which the image does not cross, or is not in scroll mode. *)
Lemma io_callback_idle i im l : ∀ st,
  images st !! i = Some im →
  loadMode im ≠ "scroll" ∨ crossings i l = 0 →
  images (io_callback l st) !! i = Some im
  ∧ count_eff (Commit i) (log (io_callback l st)) = count_eff (Commit i) (log st)
  ∧ watched i (io_callback l st) = watched i st.
Proof.
  induction l as [|[j b] l IH]; intros st Hi Hc; [done|].
  unfold io_callback. cbn [foldl]. fold (io_callback l (io_entry (j, b) st)).
  assert (loadMode im ≠ "scroll" ∨ crossings i l = 0) as Hc'.
  { destruct Hc as [?|Hc]; [by left|right].
    rewrite crossings_cons in Hc. lia. }
  destruct (decide (i = j)) as [<-|Hne].
  - rewrite (io_entry_idle i b st im Hi); [by apply IH|].
    destruct Hc as [?|Hc]; [by right|left].
    rewrite crossings_cons in Hc. destruct b; [|done].
    rewrite decide_True in Hc by done. lia.
  - destruct (io_entry_other i j b st Hne) as (Hi'&<-&<-).
    apply IH; [|done]. by rewrite Hi'.
Qed.

(** A batch over an image in scroll mode: one call of [loadImage] for each
    intersecting entry that names it. *)
Lemma io_callback_scroll i l : ∀ st im,
  images st !! i = Some im → loadMode im = "scroll" →
  count_eff (Commit i) (log (io_callback l st))
  = count_eff (Commit i) (log st) + (if loaded im then 0 else crossings i l)
  ∧ (0 < crossings i l → watched i (io_callback l st) = false).
Proof.
  induction l as [|[j b] l IH]; intros st im Hi Hm.
  { cbn. split; [destruct (loaded im)|]; lia. }
  unfold io_callback. cbn [foldl]. fold (io_callback l (io_entry (j, b) st)).
  rewrite crossings_cons.
  destruct (decide ((j, b) = (i, true))) as [[= -> ->]|Hne].
  - destruct (io_entry_crossing i st im Hi Hm) as ((im'&Hi'&Hm'&Hl')&Hc&Hw).
    destruct (IH _ _ Hi' Hm') as [Hc' Hw']. rewrite Hl' in Hc'.
    split.
    + rewrite Hc', Hc. destruct (loaded im); lia.
    + intros _. destruct (decide (0 < crossings i l)) as [Hpos|Hz]; [by apply Hw'|].
      destruct (io_callback_idle i im' l _ Hi') as (_&_&->); [right; lia|done].
  - assert (io_entry (j, b) st = st
            ∨ (i ≠ j)) as [->|Hij].
    { destruct (decide (i = j)) as [<-|]; [left|by right].
      apply (io_entry_idle i b st im Hi). left. destruct b; [congruence|done]. }
    + destruct (IH _ _ Hi Hm) as [Hc' Hw']. split; [by rewrite Hc'|].
      intros Hpos. apply Hw'. lia.
    + destruct (io_entry_other i j b st Hij) as (Hi'&Hc&Hw).
      rewrite <- Hi' in Hi. destruct (IH _ _ Hi Hm) as [Hc' Hw'].
      split; [by rewrite Hc', Hc|]. intros Hpos. apply Hw'. lia.
Qed.

(** Entries that name an image which is not observed are not delivered. *)
Lemma deliver_unwatched_batch i entries st :
  watched i st = false →
  images (deliver entries st) !! i = images st !! i
  ∧ count_eff (Commit i) (log (deliver entries st)) = count_eff (Commit i) (log st)
  ∧ watched i (deliver entries st) = false.
Proof.
  intros Hw. unfold deliver.
  destruct (io_callback_others i (filter (λ en, watched en.1 st = true) entries) st)
    as (Hi&Hc&Hw').
  { intros en [Hen _]%list_elem_of_filter Hi. rewrite Hi in Hen. congruence. }
  by rewrite Hw' in *.
Qed.

(** C8 (as the code has it): for a crossing event at an observed image,
    the event is ignored and the image stays observed when its mode is no
    longer "scroll"; otherwise [loadImage] is called, the promise is given a
    handler that ignores rejection, and the image is unobserved.  The
    callback does not look at the observer between the entries of one
    batch: in a delivered batch [loadImage] is called once for every
    intersecting entry that names the image, so an image that is not loaded
    is committed as many times as it crosses in the batch.  After the batch
    the image is unobserved, and no batch does anything to an image that is
    not observed; [toggleMode(true)] observes it again if it is not loaded
    by then. *)
Theorem crossing_event_loads_then_unobserves st i im o :
  io st = Some o → i ∈ targets o → images st !! i = Some im →
  (loadMode im ≠ "scroll" → deliver [(i, true)] st = st)
  ∧ (loadMode im = "scroll" →
     let p := (loadImage i st).2 in
     let st' := deliver [(i, true)] st in
     st' = io_unobserve i (then_ p Swallowed (loadImage i st).1)
     ∧ (consumer <$> promises st' !! p) = Some Swallowed
     ∧ (∀ s s0, run_consumer Swallowed s s0 = s0)
     ∧ (loaded im = false → log st' = log st ++ cycle i p)
     ∧ io st' = Some (unobserve i o)
     ∧ watched i st' = false
     ∧ deliver [(i, true)] st' = st'
     ∧ (loaded im = false → watched i (toggleMode true st') = true))
  ∧ (∀ entries,
       loadMode im ≠ "scroll" →
       images (deliver entries st) !! i = Some im
       ∧ watched i (deliver entries st) = true
       ∧ count_eff (Commit i) (log (deliver entries st))
         = count_eff (Commit i) (log st))
  ∧ (∀ entries,
       loadMode im = "scroll" →
       count_eff (Commit i) (log (deliver entries st))
       = count_eff (Commit i) (log st)
         + (if loaded im then 0 else crossings i entries)
       ∧ (0 < crossings i entries → watched i (deliver entries st) = false)
       ∧ (crossings i entries = 0 →
          watched i (deliver entries st) = true
          ∧ images (deliver entries st) !! i = Some im))
  ∧ (∀ entries s,
       watched i s = false →
       images (deliver entries s) !! i = images s !! i
       ∧ count_eff (Commit i) (log (deliver entries s))
         = count_eff (Commit i) (log s)
       ∧ watched i (deliver entries s) = false).
Proof.
  intros Ho Hin Hi.
  assert (watched i st = true) as Hw.
  { unfold watched. rewrite Ho. by apply bool_decide_eq_true. }
  split; [|split; [|split; [|split]]].
  - intros Hm. rewrite deliver_watched by done. unfold io_entry. cbn [negb].
    rewrite Hi. destruct (String.eqb_spec (loadMode im) "scroll"); [done|].
    reflexivity.
  - intros Hm p st'.
    assert (st' = io_unobserve i (then_ p Swallowed (loadImage i st).1)) as Hst'.
    { unfold st'. rewrite deliver_watched by done. unfold io_entry. cbn [negb].
      rewrite Hi, Hm, String.eqb_refl. cbn [negb].
      unfold p. by destruct (loadImage i st). }
    split; [done|]. rewrite Hst'.
    split.
    { unfold io_unobserve. proj. rewrite then_promises.
      destruct (loadImage_promises i st) as [s ->].
      unfold p. rewrite loadImage_snd.
      by rewrite list_lookup_alter_eq, lookup_snoc. }
    split; [done|].
    split.
    { intros Hl. unfold io_unobserve. proj. rewrite then_log, loadImage_log.
      unfold not_loaded. rewrite Hi, Hl. cbn [negb]. unfold p.
      by rewrite loadImage_snd. }
    split.
    { unfold io_unobserve. proj. by rewrite then_io, loadImage_io, Ho. }
    split; [apply watched_unobserve|].
    split; [apply deliver_unwatched, watched_unobserve|].
    intros Hl.
    assert (images (io_unobserve i (then_ p Swallowed (loadImage i st).1)) !! i
            = Some (started p im)) as Hi'.
    { unfold io_unobserve. proj. rewrite then_images, loadImage_images.
      unfold not_loaded. rewrite Hi, Hl. cbn [negb]. unfold p.
      by rewrite loadImage_snd, list_lookup_alter_eq, Hi. }
    pose proof (toggleMode_reconciled true _ i (lookup_lt_Some _ _ _ Hi')) as Hr.
    assert (images (toggleMode true (io_unobserve i (then_ p Swallowed (loadImage i st).1))) !! i
            = Some (with_data_load (Some "scroll") (started p im))) as Hi2.
    { by rewrite toggleMode_images, list_lookup_fmap, Hi'. }
    destruct (Hr _ Hi2) as [_ Hn].
    destruct (Hn (eq_trans (proj1 (started_static p im)) Hl)) as [_ Hw'].
    by rewrite Hw', toggleMode_mode.
  - intros entries Hm. unfold deliver.
    destruct (io_callback_idle i im
                (filter (λ en, watched en.1 st = true) entries) st Hi)
      as (Hi'&Hc&Hw'); [by left|].
    by rewrite Hw' in *.
  - intros entries Hm. unfold deliver.
    set (l := filter (λ en, watched en.1 st = true) entries).
    assert (crossings i l = crossings i entries) as Hl
      by (by apply crossings_watched).
    destruct (io_callback_scroll i l st im Hi Hm) as [Hc Hu].
    rewrite Hl in Hc, Hu. split; [done|]. split; [done|].
    intros Hz.
    destruct (io_callback_idle i im l st Hi) as (Hi'&_&Hw');
      [right; by rewrite Hl|].
    by rewrite Hw' in *.
  - intros entries s. apply deliver_unwatched_batch.
Qed.

Lemma crossing_event_loads_then_unobserves_witness :
  (io page_ready = Some (mkObserver 0 [0; 2]) ∧ 0 ∈ [0; 2]
   ∧ images page_ready !! 0 = Some (img_at page_ready 0))
  ∧ watched 0 (deliver [(0, true)] page_ready) = false
  ∧ count_eff (Commit 0)
      (log (deliver [(0, true); (0, false); (2, true); (0, true)] page_ready))
    = count_eff (Commit 0) (log page_ready) + 2.
Proof.
  assert (io page_ready = Some (mkObserver 0 [0; 2])) as Ho by reflexivity.
  assert (0 ∈ [0; 2]) as Hin by left.
  assert (images page_ready !! 0 = Some (img_at page_ready 0)) as Hi by reflexivity.
  assert (loadMode (img_at page_ready 0) = "scroll") as Hm by reflexivity.
  split; [done|].
  destruct (crossing_event_loads_then_unobserves page_ready 0 _ _ Ho Hin Hi)
    as (_ & H & _ & Hb & _).
  split.
  - exact (proj1 (proj2 (proj2 (proj2 (proj2 (proj2 (H Hm))))))).
  - exact (proj1 (Hb [(0, true); (0, false); (2, true); (0, true)] Hm)).
Defined.

(** C8, as stated, fails in its last part: [toggleMode(true)] observes again
    every image that is not loaded, so the scroll image 0 of the sample
    page, unobserved after its first crossing, is observed again and its
    next crossing calls [loadImage] a second time.  And within one batch
    that names image 0 in two intersecting entries, [loadImage] is called
    for both. *)
Lemma observed_again_triggers_again :
  let st1 := run [EvIntersect [(0, true)]] page_ready in
  let st2 := run [EvToggle true] st1 in
  let st3 := run [EvIntersect [(0, true)]] st2 in
  watched 0 page_ready = true
  ∧ watched 0 st1 = false
  ∧ count_eff (Commit 0) (log st1) = 1
  ∧ watched 0 st2 = true
  ∧ count_eff (Commit 0) (log st3) = 2
  ∧ promises st3 = [mkPromise Pending Swallowed; mkPromise Pending Swallowed]
  ∧ count_eff (Commit 0) (log (run [EvIntersect [(0, true); (0, true)]] page_ready)) = 2.
Proof. vm_compute. repeat split; reflexivity. Qed.

(** ** Click handlers *)

Lemma fmap_on_click_alter (f : Button → Button) b (m : gmap nat Button) :
  (∀ B, on_click (f B) = on_click B) →
  on_click <$> alter f b m = on_click <$> m.
Proof.
  intros Hf. apply map_eq; intros b'. rewrite !lookup_fmap, lookup_alter.
  destruct (decide (b = b')) as [<-|]; [|done].
  destruct (m !! b) as [B|]; [|done]. cbn. by rewrite Hf.
Qed.

Lemma consumer_buttons_handlers c s m :
  on_click <$> consumer_buttons c s m = on_click <$> m.
Proof.
  destruct c, s; cbn [consumer_buttons]; try done;
    by rewrite !fmap_on_click_alter.
Qed.

Lemma settle_handlers p s st : handlers (settle p s st) = handlers st.
Proof.
  unfold handlers. rewrite settle_buttons.
  destruct (promises st !! p) as [[[] c]|]; try done.
  apply consumer_buttons_handlers.
Qed.

Lemma then_handlers p c st : handlers (then_ p c st) = handlers st.
Proof.
  unfold handlers. rewrite then_buttons.
  destruct (promises st !! p) as [pr|]; [|done].
  apply consumer_buttons_handlers.
Qed.

Lemma fire_handlers k e i p st : handlers (fire k e i p st) = handlers st.
Proof.
  destruct (images st !! i) as [im|] eqn:Hi; [|by rewrite fire_none].
  unfold handlers at 1. rewrite (fire_buttons _ _ _ _ _ _ Hi).
  destruct (decide _); [|done]. apply settle_handlers.
Qed.

Lemma dispatch_handlers k e i st : handlers (dispatch k e i st) = handlers st.
Proof.
  unfold dispatch. destruct (images st !! i); [|done].
  apply (foldl_inv (λ s, handlers s = handlers st)); [done|].
  intros s p _ <-. apply fire_handlers.
Qed.

Lemma loadImage_handlers i st : handlers (loadImage i st).1 = handlers st.
Proof. unfold handlers. by rewrite loadImage_buttons. Qed.

Lemma toggle_one_handlers i st : handlers (toggle_one i st) = handlers st.
Proof.
  destruct (images st !! i) as [im|] eqn:Hi; [|by rewrite toggle_one_none].
  rewrite (toggle_one_eq _ _ _ Hi). unfold handlers, toggled_buttons. proj.
  destruct (loaded im); [done|]. destruct (btn im); [|done].
  by apply fmap_on_click_alter.
Qed.

Lemma toggleMode_handlers b st : handlers (toggleMode b st) = handlers st.
Proof.
  unfold toggleMode.
  apply (foldl_inv (λ s, handlers s = handlers st)); [done|].
  intros s i _ <-. apply toggle_one_handlers.
Qed.

Lemma click_handler_handlers b i st : handlers (click_handler b i st) = handlers st.
Proof.
  unfold click_handler.
  destruct (loadImage i _) as [st3 p] eqn:Hl.
  rewrite then_handlers.
  replace st3 with (loadImage i (upd_btn b (with_text "Завантаження…")
                      (upd_btn b (with_disabled true) st))).1 by (by rewrite Hl).
  rewrite loadImage_handlers. unfold handlers. proj.
  by rewrite !fmap_on_click_alter.
Qed.

Lemma click_handlers b st : handlers (click b st) = handlers st.
Proof.
  unfold click. destruct (buttons st !! b) as [B|]; [|done].
  destruct (disabled B); [done|].
  apply (foldl_inv (λ s, handlers s = handlers st)); [done|].
  intros s i _ <-. apply click_handler_handlers.
Qed.

Lemma io_entry_handlers en st : handlers (io_entry en st) = handlers st.
Proof.
  destruct en as [i b]. unfold io_entry. destruct (negb b); [done|].
  destruct (images st !! i) as [im|]; [|done].
  destruct (negb _); [done|].
  destruct (loadImage i st) as [st1 p] eqn:Hl.
  unfold handlers, io_unobserve. proj. fold (handlers (then_ p Swallowed st1)).
  rewrite then_handlers.
  replace st1 with (loadImage i st).1 by (by rewrite Hl).
  apply loadImage_handlers.
Qed.

Lemma deliver_handlers entries st : handlers (deliver entries st) = handlers st.
Proof.
  unfold deliver, io_callback.
  apply (foldl_inv (λ s, handlers s = handlers st)); [done|].
  intros s en _ <-. apply io_entry_handlers.
Qed.

Lemma load_each_handlers l st : handlers (load_each l st).1 = handlers st.
Proof.
  revert st; induction l as [|i l IH]; intros st; [done|]. cbn [load_each].
  destruct (loadImage i st) as [st1 p] eqn:H1.
  destruct (load_each l st1) as [st2 ps] eqn:H2. cbn [fst].
  replace st2 with (load_each l st1).1 by (by rewrite H2). rewrite IH.
  replace st1 with (loadImage i st).1 by (by rewrite H1).
  apply loadImage_handlers.
Qed.

Lemma loadAll_handlers st : handlers (loadAll st).1 = handlers st.
Proof.
  unfold loadAll. destruct (load_each (selected st) st) as [st1 ps] eqn:H1.
  cbn [fst].
  replace st1 with (load_each (selected st) st).1 by (by rewrite H1).
  rewrite <- (load_each_handlers (selected st) st).
  apply (foldl_inv (λ s, handlers s = handlers (load_each (selected st) st).1));
    [done|].
  intros s p _ <-. apply then_handlers.
Qed.

Lemma step_handlers ev st : handlers (step ev st) = handlers st.
Proof.
  destruct ev; cbn [step].
  - apply toggleMode_handlers.
  - apply loadAll_handlers.
  - unfold disconnectObserver. by destruct (io st).
  - apply click_handlers.
  - apply deliver_handlers.
  - apply dispatch_handlers.
  - apply dispatch_handlers.
Qed.

Lemma run_handlers evs st : handlers (run evs st) = handlers st.
Proof.
  unfold run. apply (foldl_inv (λ s, handlers s = handlers st)); [done|].
  intros s ev _ <-. apply step_handlers.
Qed.

Lemma handlers_lookup s b B :
  buttons s !! b = Some B → handlers s !! b = Some (on_click B).
Proof. intros H. unfold handlers. by rewrite lookup_fmap, H. Qed.

Lemma handlers_lookup_inv s b l :
  handlers s !! b = Some l → ∃ B, buttons s !! b = Some B ∧ on_click B = l.
Proof.
  unfold handlers. rewrite lookup_fmap.
  destruct (buttons s !! b) as [B|]; [|done]. intros [= <-]. by exists B.
Qed.

Lemma setup_one_images i s : images (setup_one i s) = images s.
Proof.
  unfold setup_one. destruct (images s !! i) as [im|]; [|done].
  destruct (String.eqb _ _); destruct (btn im); unfold ensureObserver; proj;
    destruct (io s); done.
Qed.

Lemma setup_one_bound st0 i s :
  images s = images st0 →
  bound_to_click_images st0 s → bound_to_click_images st0 (setup_one i s).
Proof.
  intros Him Hb. unfold setup_one.
  destruct (images s !! i) as [im|] eqn:Hi; [|done].
  destruct (String.eqb_spec (loadMode im) "click") as [Hm|Hm].
  - destruct (btn im) as [b0|] eqn:Hb0; [|done]. proj.
    intros b B j HB Hj. proj. rewrite lookup_alter in HB.
    destruct (decide (b0 = b)) as [->|Hne].
    + rewrite lookup_alter_eq in HB.
      destruct (buttons s !! b) as [B0|] eqn:HB0; [|done].
      cbn in HB. injection HB as <-. cbn in Hj.
      apply elem_of_app in Hj as [Hj|Hj].
      * by apply (Hb b B0 j).
      * apply list_elem_of_singleton in Hj as ->. exists im.
        by rewrite <- Him.
    + rewrite lookup_alter_ne in HB by done. by apply (Hb b B j).
  - assert (∀ s', buttons s' = buttons
              (upd_btn_opt (btn im) (with_hidden true) s) →
              bound_to_click_images st0 s') as Hgen.
    { intros s' Hs' b B j HB Hj. rewrite Hs' in HB.
      destruct (btn im) as [b0|]; proj; [|by apply (Hb b B j)].
      rewrite lookup_alter in HB.
      destruct (decide (b0 = b)) as [->|Hne]; [|by apply (Hb b B j)].
      destruct (buttons s !! b) as [B0|] eqn:HB0; [|done].
      cbn in HB. injection HB as <-. by apply (Hb b B0 j). }
    apply Hgen. unfold ensureObserver. proj.
    destruct (btn im); proj; by destruct (io s).
Qed.

Lemma init_bound st0 :
  (∀ b B, buttons st0 !! b = Some B → on_click B = []) →
  images (init st0) = images st0 ∧ bound_to_click_images st0 (init st0).
Proof.
  intros Hp. unfold init, setupImages.
  apply (foldl_inv (λ s, images s = images st0 ∧ bound_to_click_images st0 s)).
  - split; [done|]. intros b B j HB Hj. rewrite (Hp b B HB) in Hj.
    by apply elem_of_nil in Hj.
  - intros s i _ [Him Hb]. split.
    + by rewrite setup_one_images.
    + by apply setup_one_bound.
Qed.

(** A click, image by image. *)

Lemma click_handler_other b i j st :
  i ≠ j →
  images (click_handler b j st) !! i = images st !! i
  ∧ count_eff (Commit i) (log (click_handler b j st)) = count_eff (Commit i) (log st).
Proof.
  intros Hne. unfold click_handler.
  set (st2 := upd_btn b _ (upd_btn b _ st)).
  destruct (loadImage j st2) as [st3 p] eqn:Hl.
  replace st3 with (loadImage j st2).1 by (by rewrite Hl).
  rewrite then_images, then_log. split.
  - by rewrite loadImage_lookup_ne.
  - rewrite loadImage_log, count_eff_app.
    destruct (not_loaded st2 j); [rewrite cycle_no_commit by done|]; unfold st2; proj;
      [lia | cbn; lia].
Qed.

Lemma click_other b i st :
  (∀ B, buttons st !! b = Some B → i ∉ on_click B) →
  images (click b st) !! i = images st !! i
  ∧ count_eff (Commit i) (log (click b st)) = count_eff (Commit i) (log st).
Proof.
  intros Hi. unfold click. destruct (buttons st !! b) as [B|] eqn:HB; [|done].
  destruct (disabled B); [done|].
  apply (foldl_inv (λ s, images s !! i = images st !! i
                         ∧ count_eff (Commit i) (log s) = count_eff (Commit i) (log st)));
    [done|].
  intros s j Hj [<- <-]. apply click_handler_other.
  intros ->. by apply (Hi B).
Qed.

(** C4 (as the code has it): handlers are bound by [setupImages] only, and
    only for images in click mode at that time.  So, whatever happens after
    [init], no button carries a handler for an image that was not in click
    mode: a click on any button leaves that image as it is and commits
    nothing for it; a button that was the button of no click-mode image has
    no handler at all; and the button that [toggleMode(false)] reveals for
    such an image, if it is not loaded, is shown ([hidden] removed) all the
    same. *)
Theorem revealed_button_has_no_handler st0 i im evs :
  (∀ b B, buttons st0 !! b = Some B → on_click B = []) →
  images st0 !! i = Some im → loadMode im ≠ "click" →
  let st := run evs (init st0) in
  (∀ b B, buttons st !! b = Some B → i ∉ on_click B)
  ∧ (∀ b, images (click b st) !! i = images st !! i
          ∧ count_eff (Commit i) (log (click b st)) = count_eff (Commit i) (log st))
  ∧ (∀ b B,
       (∀ j imj, images st0 !! j = Some imj → btn imj = Some b →
                 loadMode imj ≠ "click") →
       buttons st !! b = Some B → on_click B = [])
  ∧ (∀ b B imi,
       images st !! i = Some imi → loaded imi = false → btn imi = Some b →
       buttons (toggleMode false st) !! b = Some B → hidden B = false).
Proof.
  intros Hp Hi Hm st.
  destruct (init_bound st0 Hp) as [_ Hb].
  assert (∀ b B, buttons st !! b = Some B →
            ∃ B0, buttons (init st0) !! b = Some B0 ∧ on_click B0 = on_click B) as Hback.
  { intros b B HB. apply handlers_lookup in HB. unfold st in HB.
    rewrite run_handlers in HB. by apply handlers_lookup_inv. }
  assert (∀ b B, buttons st !! b = Some B → i ∉ on_click B) as H1.
  { intros b B HB Hin. destruct (Hback b B HB) as (B0 & HB0 & Heq).
    rewrite <- Heq in Hin.
    destruct (Hb b B0 i HB0 Hin) as (im' & Hi' & Hm' & _). congruence. }
  split; [done|]. split.
  { intros b. apply click_other. intros B HB. by apply (H1 b). }
  split.
  { intros b B Hun HB. destruct (Hback b B HB) as (B0 & HB0 & Heq).
    rewrite <- Heq. destruct (on_click B0) as [|j l] eqn:Hl; [done|].
    destruct (Hb b B0 j HB0) as (imj & Hj & Hmj & Hbj); [rewrite Hl; by left|].
    by destruct (Hun j imj Hj Hbj). }
  intros b B imi Himi Hl Hbi HB.
  assert (i < length (images st)) as Hlt by (by eapply lookup_lt_Some).
  pose proof (toggleMode_reconciled false st i Hlt) as Hr.
  assert (images (toggleMode false st) !! i = Some (with_data_load (Some "click") imi))
    as Hi'.
  { by rewrite toggleMode_images, list_lookup_fmap, Himi. }
  destruct (Hr _ Hi') as [_ Hn].
  destruct (Hn Hl) as [Hh _].
  rewrite (Hh b B Hbi HB), toggleMode_mode. reflexivity.
Qed.

Lemma revealed_button_has_no_handler_witness :
  ((∀ b B, buttons sample_page !! b = Some B → on_click B = [])
   ∧ images sample_page !! 0 = Some (img_at sample_page 0)
   ∧ loadMode (img_at sample_page 0) ≠ "click")
  ∧ ∀ b, images (click b (run [EvToggle false] (init sample_page))) !! 0
         = images (run [EvToggle false] (init sample_page)) !! 0.
Proof.
  assert (∀ b B, buttons sample_page !! b = Some B → on_click B = []) as Hp.
  { intros b B HB. unfold sample_page in HB. cbn [buttons] in HB.
    repeat (apply lookup_insert_Some in HB as [[_ <-]|[_ HB]]; [reflexivity|]).
    by rewrite lookup_empty in HB. }
  assert (images sample_page !! 0 = Some (img_at sample_page 0)) as Hi by reflexivity.
  assert (loadMode (img_at sample_page 0) ≠ "click") as Hm by discriminate.
  split; [done|].
  intros b.
  exact (proj1 (proj1 (proj2
    (revealed_button_has_no_handler sample_page 0 _ [EvToggle false] Hp Hi Hm)) b)).
Defined.

(** C4, as stated, fails where a button is shared: on a card with a click
    image 0 and a scroll image 1 that have the same button, [init] binds
    the handler of image 0 to the button and leaves it hidden for image 1;
    [toggleMode(false)] then reveals it for image 1, and the revealed button
    does carry a handler.  A click on it loads image 0, and not image 1. *)
Lemma shared_button_revealed_with_handler :
  let st := run [EvToggle false] (init page_shared_card) in
  (on_click <$> buttons page_shared_card !! 0) = Some []
  ∧ (loadMode <$> images page_shared_card !! 1) = Some "scroll"
  ∧ (btn <$> images page_shared_card !! 1) = Some (Some 0)
  ∧ (hidden <$> buttons (init page_shared_card) !! 0) = Some true
  ∧ (hidden <$> buttons st !! 0) = Some false
  ∧ (on_click <$> buttons st !! 0) = Some [0]
  ∧ count_eff (Commit 0) (log st) = 0
  ∧ count_eff (Commit 0) (log (click 0 st)) = 1
  ∧ count_eff (Commit 1) (log (click 0 st)) = 0.
Proof. vm_compute. repeat split; reflexivity. Qed.

(** ** Loads in flight and the signals that end them *)

Lemma NoDup_fst_unique {A B} (l : list (A * B)) x y1 y2 :
  NoDup l.*1 → (x, y1) ∈ l → (x, y2) ∈ l → y1 = y2.
Proof.
  induction l as [|[a b] l IH]; intros Hnd H1 H2.
  - by apply elem_of_nil in H1.
  - cbn in Hnd. apply NoDup_cons in Hnd as [Hnot Hnd].
    apply elem_of_cons in H1 as [H1|H1]; apply elem_of_cons in H2 as [H2|H2].
    + congruence.
    + injection H1 as -> ->. destruct Hnot.
      apply list_elem_of_fmap. by exists (a, y2).
    + injection H2 as -> ->. destruct Hnot.
      apply list_elem_of_fmap. by exists (a, y1).
    + by apply IH.
Qed.

Lemma in_flight_pending s i p :
  in_flight s i p → ∃ c, promises s !! p = Some (mkPromise Pending c).
Proof.
  intros (im & _ & _ & _ & _ & Hp).
  destruct (promises s !! p) as [[ps c]|]; [|done].
  cbn in Hp. injection Hp as ->. by exists c.
Qed.

Lemma served_step tickets ok why done_ s i :
  NoDup tickets.*1 → i ∈ tickets.*1 → i ∉ done_ →
  served tickets ok why done_ s →
  served tickets ok why (done_ ++ [i]) (step (signal ok why i) s).
Proof.
  intros Hnd Hi Hnot [Hown Hpend Hdone].
  apply list_elem_of_fmap in Hi as ([i' p] & Heq & Hip). cbn in Heq. subst i'.
  pose proof (Hpend i p Hip Hnot) as Hfl.
  destruct Hfl as (im & Him & Hl & Hpl & Hpe & Hps).
  destruct (in_flight_pending s i p) as [c Hc]; [by exists im|].
  set (k := if ok i then KLoad else KError).
  set (e := if ok i then "" else why i).
  assert (step (signal ok why i) s = dispatch k e i s) as ->.
  { unfold signal, k, e. by destruct (ok i). }
  assert (outcome k e = answer ok why i) as Hout.
  { unfold k, e, answer. by destruct (ok i). }
  assert (p ∈ listeners k im) as Hpk by (unfold k; by destruct (ok i)).
  assert (∀ j q, (j, q) ∈ tickets → j ≠ i →
            promises (dispatch k e i s) !! q = promises s !! q
            ∧ images (dispatch k e i s) !! j = images s !! j) as Hother.
  { intros j q Hjq Hne. split; [|by apply dispatch_lookup_ne].
    apply dispatch_lookup_notin. intros im' Him' Hq.
    assert (im' = im) as -> by congruence.
    by apply Hne, (Hown i im k q j). }
  split.
  - intros j im' k' q i' Hj Hq Ht.
    destruct (decide (j = i)) as [->|Hne].
    + rewrite (dispatch_lookup _ _ _ _ _ Him) in Hj. injection Hj as <-.
      apply fin_all_listeners in Hq as [Hq _]. by apply (Hown i im k' q i').
    + rewrite dispatch_lookup_ne in Hj by done. by apply (Hown j im' k' q i').
  - intros j q Hjq Hnj.
    apply not_elem_of_app in Hnj as [Hnj Hji].
    assert (j ≠ i) as Hne by (intros ->; apply Hji; by left).
    destruct (Hpend j q Hjq Hnj) as (imj & ? & ? & ? & ? & ?).
    destruct (Hother j q Hjq Hne) as [Hq Hj].
    exists imj. by rewrite Hq, Hj.
  - intros j q Hjq Hj. apply elem_of_app in Hj as [Hj|Hj].
    + assert (j ≠ i) as Hne by (by intros ->).
      destruct (Hother j q Hjq Hne) as [Hq Hj'].
      unfold is_loaded. rewrite Hq, Hj'. by apply Hdone.
    + apply list_elem_of_singleton in Hj as ->.
      assert (q = p) as ->.
      { by apply (NoDup_fst_unique tickets i). }
      split.
      * unfold is_loaded. rewrite (dispatch_lookup _ _ _ _ _ Him).
        unfold k. destruct (ok i).
        -- by apply (fin_all_loaded_load _ _ p).
        -- by rewrite fin_all_loaded_error.
      * rewrite (dispatch_settles _ _ _ _ _ _ _ Him Hpk Hc). cbn. by rewrite Hout.
Qed.

Lemma served_run tickets ok why order s :
  NoDup tickets.*1 → NoDup order → (∀ i, i ∈ order → i ∈ tickets.*1) →
  served tickets ok why [] s →
  served tickets ok why order (run (signal ok why <$> order) s).
Proof.
  intros Hnd. induction order as [|i order IH] using rev_ind; intros Ho Hsub Hs.
  - done.
  - apply NoDup_app in Ho as (Ho & Hdis & _).
    rewrite fmap_app. unfold run. rewrite foldl_app. cbn [fmap list_fmap foldl].
    apply served_step; try done.
    + apply Hsub, elem_of_app. right. by left.
    + intros Hin. apply (Hdis i Hin). by left.
    + apply IH; try done. intros j Hj. apply Hsub, elem_of_app. by left.
Qed.

(** ** loadAll *)

Lemma elem_of_selected st i : i ∈ selected st ↔ not_loaded st i = true.
Proof.
  unfold selected, indices. rewrite list_elem_of_filter, elem_of_seq.
  split; [tauto|]. intros H. split; [done|].
  unfold not_loaded in H. destruct (images st !! i) eqn:Hi; [|done].
  apply lookup_lt_Some in Hi. lia.
Qed.

Lemma NoDup_selected st : NoDup (selected st).
Proof. unfold selected. apply NoDup_filter, NoDup_seq. Qed.

Lemma not_loaded_Some st i :
  not_loaded st i = true ↔ ∃ im, images st !! i = Some im ∧ loaded im = false.
Proof.
  unfold not_loaded. destruct (images st !! i) as [im|].
  - rewrite negb_true_iff. split; [by exists im|]. by intros (? & [= <-] & ?).
  - split; [done|]. by intros (? & ? & ?).
Qed.

Lemma load_each_spec l st :
  NoDup l → (∀ i, i ∈ l → not_loaded st i = true) →
  (load_each l st).2 = seq (length (promises st)) (length l)
  ∧ promises (load_each l st).1
    = promises st ++ replicate (length l) (mkPromise Pending Unobserved)
  ∧ log (load_each l st).1 = log st ++ cycles l (load_each l st).2
  ∧ (∀ j, j ∉ l → images (load_each l st).1 !! j = images st !! j)
  ∧ (∀ n i, l !! n = Some i →
       ∃ im, images st !! i = Some im ∧ loaded im = false
             ∧ images (load_each l st).1 !! i
               = Some (started (length (promises st) + n) im)).
Proof.
  revert st; induction l as [|i l IH]; intros st Hnd Hnl.
  - cbn. rewrite !app_nil_r. repeat split; try done.
  - apply NoDup_cons in Hnd as [Hil Hnd].
    destruct (loadImage_cases i st) as [(im & Hi & Hl & _ & Heq)|[Hno _]].
    2:{ rewrite Hnl in Hno; [done | by left]. }
    cbn [load_each]. rewrite Heq.
    set (st1 := mkPage _ _ _ _ _ _ _ _ _).
    assert (∀ j, j ≠ i → images st1 !! j = images st !! j) as Hne.
    { intros j Hj. unfold st1. proj. by apply list_lookup_alter_ne. }
    destruct (IH st1 Hnd) as (Hps & Hpr & Hlog & Hout & Hin).
    { intros j Hj. unfold not_loaded. rewrite Hne by (intros ->; done).
      apply (Hnl j). by right. }
    destruct (load_each l st1) as [st2 ps] eqn:H2. cbn [fst snd] in *.
    assert (length (promises st1) = S (length (promises st))) as Hlen.
    { unfold st1. proj. rewrite length_app. cbn. lia. }
    rewrite Hlen in *.
    split; [by rewrite Hps|]. split.
    { rewrite Hpr. unfold st1. proj. by rewrite <- app_assoc. }
    split.
    { rewrite Hlog. unfold st1. proj. unfold cycles. rewrite Hps at 2.
      cbn [zip zip_with flat_map fst snd]. by rewrite <- !app_assoc, Hps. }
    split.
    { intros j Hj. apply not_elem_of_cons in Hj as [Hji Hjl].
      by rewrite Hout, Hne. }
    intros [|n] j Hj.
    + cbn in Hj. injection Hj as <-. exists im. split; [done|]. split; [done|].
      rewrite Hout by done. unfold st1. proj.
      by rewrite list_lookup_alter_eq, Hi, Nat.add_0_r.
    + cbn in Hj. destruct (Hin n j Hj) as (imj & Hj1 & Hlj & Hj2).
      assert (j ≠ i) as Hji.
      { intros ->. apply Hil. by eapply list_elem_of_lookup_2. }
      exists imj. rewrite <- Hne by done. split; [done|]. split; [done|].
      rewrite Hj2. do 2 f_equal. lia.
Qed.

Lemma then_pstate q c s p :
  pstate <$> promises (then_ q c s) !! p = pstate <$> promises s !! p.
Proof.
  rewrite then_promises. destruct (decide (q = p)) as [->|Hne].
  - rewrite list_lookup_alter_eq. by destruct (promises s !! p).
  - by rewrite list_lookup_alter_ne.
Qed.

Lemma fold_then_frame c ps s :
  images (foldl (λ s p, then_ p c s) s ps) = images s
  ∧ log (foldl (λ s p, then_ p c s) s ps) = log s
  ∧ ∀ p, pstate <$> promises (foldl (λ s p, then_ p c s) s ps) !! p
         = pstate <$> promises s !! p.
Proof.
  apply (foldl_inv (λ s', images s' = images s ∧ log s' = log s
      ∧ ∀ p, pstate <$> promises s' !! p = pstate <$> promises s !! p)); [done|].
  intros s' q _ (<- & <- & Hp). split; [apply then_images|].
  split; [apply then_log|]. intros p. by rewrite then_pstate.
Qed.

Lemma loadAll_spec st :
  (loadAll st).2 = seq (length (promises st)) (length (selected st))
  ∧ log (loadAll st).1 = log st ++ cycles (selected st) (loadAll st).2
  ∧ (∀ j, j ∉ selected st → images (loadAll st).1 !! j = images st !! j)
  ∧ (∀ n i, selected st !! n = Some i →
       ∃ im, images st !! i = Some im ∧ loaded im = false
             ∧ images (loadAll st).1 !! i
               = Some (started (length (promises st) + n) im)
             ∧ (pstate <$> promises (loadAll st).1 !! (length (promises st) + n))
               = Some Pending).
Proof.
  destruct (load_each_spec (selected st) st (NoDup_selected st))
    as (Hps & Hpr & Hlog & Hout & Hin).
  { intros i. apply elem_of_selected. }
  unfold loadAll. destruct (load_each (selected st) st) as [st1 ps]. cbn [fst snd] in *.
  destruct (fold_then_frame AllSettled ps st1) as (Him & Hl & Hp).
  split; [done|]. split; [by rewrite Hl|]. split.
  { intros j Hj. rewrite Him. by apply Hout. }
  intros n i Hn. destruct (Hin n i Hn) as (im & Hi & Hli & Hi1).
  exists im. rewrite Him. split; [done|]. split; [done|]. split; [done|].
  rewrite Hp, Hpr. rewrite lookup_app_r by lia.
  replace (length (promises st) + n - length (promises st)) with n by lia.
  rewrite lookup_replicate_2; [done|]. by eapply lookup_lt_Some.
Qed.

Lemma elem_of_tickets st i p :
  (i, p) ∈ tickets st ↔
  ∃ n, selected st !! n = Some i ∧ p = length (promises st) + n.
Proof.
  unfold tickets. rewrite list_elem_of_lookup. split.
  - intros (n & Hn). apply lookup_zip_with_Some in Hn as (i' & p' & [= <- <-] & Hi & Hp).
    exists n. split; [done|]. apply lookup_seq in Hp. lia.
  - intros (n & Hi & ->). exists n. apply lookup_zip_with_Some.
    exists i, (length (promises st) + n). split; [done|]. split; [done|].
    apply lookup_seq. split; [done|]. by eapply lookup_lt_Some.
Qed.

Lemma tickets_fst st : (tickets st).*1 = selected st.
Proof. unfold tickets. apply fst_zip. by rewrite length_seq. Qed.

Lemma loadAll_served st ok why :
  listeners_bound st →
  served (tickets st) ok why [] (loadAll st).1.
Proof.
  intros Hb. destruct (loadAll_spec st) as (Hps & Hlog & Hout & Hin).
  split.
  - intros j im' k q i Hj Hq Ht.
    apply elem_of_tickets in Ht as (n & Hn & ->).
    destruct (decide (j ∈ selected st)) as [Hsel|Hsel].
    + apply list_elem_of_lookup in Hsel as (m & Hm).
      destruct (Hin m j Hm) as (im & Hi & _ & Hi1 & _).
      assert (im' = started (length (promises st) + m) im) as -> by congruence.
      rewrite started_listeners in Hq. apply elem_of_app in Hq as [Hq|Hq].
      * apply (Hb j im k) in Hq; [lia|done].
      * apply list_elem_of_singleton in Hq.
        assert (n = m) as -> by lia. congruence.
    + rewrite Hout in Hj by done. apply (Hb j im' k) in Hq; [lia|done].
  - intros i p Ht _. apply elem_of_tickets in Ht as (n & Hn & ->).
    destruct (Hin n i Hn) as (im & Hi & Hl & Hi1 & Hp).
    exists (started (length (promises st) + n) im). split; [done|].
    split; [by rewrite (proj1 (started_static _ im))|].
    rewrite started_on_load, started_on_error.
    split; [apply elem_of_app; right; by left|].
    split; [apply elem_of_app; right; by left|]. done.
  - intros i p _ Hi. by apply elem_of_nil in Hi.
Qed.

Lemma forallb_elem_of {A} (f : A → bool) (l : list A) :
  forallb f l = true ↔ ∀ x, x ∈ l → f x = true.
Proof.
  induction l as [|a l IH]; cbn.
  - split; [|done]. intros _ x Hx. by apply elem_of_nil in Hx.
  - rewrite andb_true_iff, IH. split.
    + intros [Ha Hl] x Hx. apply elem_of_cons in Hx as [->|Hx]; auto.
    + intros H. split; [apply H; by left|]. intros x Hx. apply H. by right.
Qed.

Lemma filter_bool_ext (f g : nat → bool) (l : list nat) :
  (∀ i, i ∈ l → f i = g i) →
  filter (λ i, f i = true) l = filter (λ i, g i = true) l.
Proof.
  induction l as [|a l IH]; intros H; [done|].
  rewrite !filter_cons, IH by (intros i Hi; apply H; by right).
  rewrite (H a) by (by left). done.
Qed.

Lemma length_filter_true_false (g : nat → bool) (l : list nat) :
  length (filter (λ i, g i = true) l)
  = length l - length (filter (λ i, g i = false) l).
Proof.
  assert (length (filter (λ i, g i = true) l) + length (filter (λ i, g i = false) l)
          = length l) as H; [|lia].
  induction l as [|a l IH]; [done|].
  rewrite !filter_cons. destruct (g a) eqn:Ha.
  - rewrite decide_True, decide_False by done. cbn. lia.
  - rewrite decide_False, decide_True by done. cbn. lia.
Qed.

Lemma settled_pstate s p x :
  (pstate <$> promises s !! p) = Some x →
  settled s p = match x with Pending => false | _ => true end.
Proof.
  unfold settled. destruct (promises s !! p) as [[y c]|]; [|done].
  cbn. intros [= ->]. by destruct x.
Qed.

(** C7: [loadAll] calls [loadImage] on exactly the images without the class
    [loaded], in document order.  If the browser then answers for some of
    them, each at most once, with 'load' or 'error' ([order] lists the
    images answered so far, [ok] tells which answers are 'load'): the
    promise awaited by [loadAll] is fulfilled exactly when every selected
    image has been answered, and it is never rejected; an answered image is
    loaded exactly when its answer was 'load', an unanswered one is not
    loaded; so once all N are answered, N - M of them are loaded, M being
    the number of 'error' answers. *)
Theorem loadAll_settles_every_load st ok why order :
  listeners_bound st → NoDup order → (∀ i, i ∈ order → i ∈ selected st) →
  let st1 := (loadAll st).1 in
  let ps := (loadAll st).2 in
  let st2 := run (signal ok why <$> order) st1 in
  (∀ i, i ∈ selected st ↔ not_loaded st i = true)
  ∧ length ps = length (selected st)
  ∧ log st1 = log st ++ cycles (selected st) ps
  ∧ (allSettled st2 ps = Fulfilled ↔ ∀ i, i ∈ selected st → i ∈ order)
  ∧ (∀ e, allSettled st2 ps ≠ Rejected e)
  ∧ (∀ i, i ∈ order → is_loaded st2 i = ok i)
  ∧ (∀ i, i ∈ selected st → i ∉ order → is_loaded st2 i = false)
  ∧ ((∀ i, i ∈ selected st → i ∈ order) →
     length (filter (λ i, is_loaded st2 i = true) (selected st))
     = length (selected st) - length (filter (λ i, ok i = false) (selected st))).
Proof.
  intros Hb Hnd Hsub st1 ps st2.
  destruct (loadAll_spec st) as (Hps & Hlog & _ & _).
  fold ps st1 in Hps, Hlog.
  assert (served (tickets st) ok why order st2) as [_ Hpend Hdone].
  { apply served_run; rewrite ?tickets_fst; try done.
    - apply NoDup_selected.
    - by apply loadAll_served. }
  assert (∀ i, i ∈ selected st → ∃ p, (i, p) ∈ tickets st ∧ p ∈ ps) as Htick.
  { intros i Hi. apply list_elem_of_lookup in Hi as (n & Hn).
    exists (length (promises st) + n). split.
    - apply elem_of_tickets. by exists n.
    - rewrite Hps. apply elem_of_seq. apply lookup_lt_Some in Hn. lia. }
  assert (∀ p, p ∈ ps → ∃ i, (i, p) ∈ tickets st ∧ i ∈ selected st) as Hback.
  { intros p Hp. rewrite Hps in Hp. apply elem_of_seq in Hp.
    destruct (lookup_lt_is_Some_2 (selected st) (p - length (promises st)))
      as [i Hi]; [lia|].
    exists i. split.
    - apply elem_of_tickets. exists (p - length (promises st)). split; [done|lia].
    - by eapply list_elem_of_lookup_2. }
  assert (∀ i, i ∈ order → is_loaded st2 i = ok i) as Hloaded.
  { intros i Hi. destruct (Htick i (Hsub i Hi)) as (p & Hp & _).
    by destruct (Hdone i p Hp Hi). }
  assert (∀ i, i ∈ selected st → i ∉ order → is_loaded st2 i = false) as Hnot.
  { intros i Hi Hno. destruct (Htick i Hi) as (p & Hp & _).
    destruct (Hpend i p Hp Hno) as (im & Him & Hl & _). unfold is_loaded.
    by rewrite Him. }
  split; [apply elem_of_selected|].
  split; [by rewrite Hps, length_seq|].
  split; [done|].
  split.
  { unfold allSettled. destruct (forallb (settled st2) ps) eqn:Hall.
    - split; [|done]. intros _ i Hi.
      destruct (decide (i ∈ order)) as [|Hno]; [done|].
      destruct (Htick i Hi) as (p & Hp & Hpp).
      destruct (Hpend i p Hp Hno) as (im & _ & _ & _ & _ & Hpe).
      rewrite forallb_elem_of in Hall. specialize (Hall p Hpp).
      by rewrite (settled_pstate _ _ _ Hpe) in Hall.
    - split; [done|]. intros Hcov. exfalso.
      apply not_true_iff_false in Hall. apply Hall.
      apply forallb_elem_of. intros p Hp.
      destruct (Hback p Hp) as (i & Hip & Hi).
      destruct (Hdone i p Hip (Hcov i Hi)) as [_ Hpe].
      rewrite (settled_pstate _ _ _ Hpe). unfold answer. by destruct (ok i). }
  split.
  { intros e. unfold allSettled. by destruct (forallb _ _). }
  split; [done|]. split; [done|].
  intros Hcov.
  rewrite (filter_bool_ext (is_loaded st2) ok).
  - apply length_filter_true_false.
  - intros i Hi. by apply Hloaded, Hcov.
Qed.

Lemma loadAll_settles_every_load_witness :
  let ok := λ i, bool_decide (i ≠ 1) in
  let why := λ _, "404" in
  (listeners_bound page_ready ∧ NoDup [2; 0; 1]
   ∧ ∀ i, i ∈ [2; 0; 1] → i ∈ selected page_ready)
  ∧ (allSettled (run (signal ok why <$> [2; 0; 1]) (loadAll page_ready).1)
       (loadAll page_ready).2 = Fulfilled
     ↔ ∀ i, i ∈ selected page_ready → i ∈ [2; 0; 1]).
Proof.
  intros ok why.
  assert (listeners_bound page_ready) as Hb.
  { intros i im k p Hi Hp.
    destruct i as [|[|[|i]]]; cbn in Hi; try discriminate;
      injection Hi as <-; destruct k; by apply elem_of_nil in Hp. }
  assert (NoDup [2; 0; 1]) as Hnd.
  { apply (bool_decide_unpack _). reflexivity. }
  assert (∀ i, i ∈ [2; 0; 1] → i ∈ selected page_ready) as Hsub.
  { intros i Hi. apply elem_of_selected.
    repeat (apply elem_of_cons in Hi as [->|Hi]; [reflexivity|]).
    by apply elem_of_nil in Hi. }
  split; [done|].
  exact (proj1 (proj2 (proj2 (proj2
    (loadAll_settles_every_load page_ready ok why [2; 0; 1] Hb Hnd Hsub))))).
Defined.

(** ** Every page of a session is well formed *)

Lemma grows_refl s : grows s s.
Proof. split; [done|]. intros i im k p Hi Hp. left. by exists im. Qed.

Lemma grows_trans s1 s2 s3 : grows s1 s2 → grows s2 s3 → grows s1 s3.
Proof.
  intros [Hl1 H1] [Hl2 H2]. split; [lia|].
  intros i im3 k p Hi Hp.
  destruct (H2 i im3 k p Hi Hp) as [(im2 & Hi2 & Hp2)|?]; [|by right].
  destruct (H1 i im2 k p Hi2 Hp2) as [?|?]; [by left|right; lia].
Qed.

Lemma grows_same s s' :
  images s' = images s → length (promises s') = length (promises s) → grows s s'.
Proof.
  intros Him Hpr. split; [lia|]. intros i im k p Hi Hp. left. exists im.
  by rewrite <- Him.
Qed.

Lemma grows_bound s s' : grows s s' → listeners_bound s → listeners_bound s'.
Proof.
  intros [Hl H] Hb i im' k p Hi Hp.
  destruct (H i im' k p Hi Hp) as [(im & Hi0 & Hp0)|?]; [|done].
  specialize (Hb i im k p Hi0 Hp0). lia.
Qed.

Lemma grows_fold {B} (f : Page → B → Page) (l : list B) s :
  (∀ s' x, grows s' (f s' x)) → grows s (foldl f s l).
Proof.
  intros Hf. apply (foldl_inv (grows s)); [apply grows_refl|].
  intros s' x _ Hs. eapply grows_trans; [done|apply Hf].
Qed.

Lemma grows_loadImage i s : grows s (loadImage i s).1.
Proof.
  destruct (loadImage_cases i s) as [(im & Hi & _ & _ & ->)|(_ & st & ->)];
    unfold grows; proj.
  - split; [rewrite length_app; cbn; lia|].
    intros j im' k p Hj Hp. destruct (decide (i = j)) as [<-|Hne].
    + rewrite list_lookup_alter_eq, Hi in Hj. injection Hj as <-.
      rewrite started_listeners in Hp. apply elem_of_app in Hp as [Hp|Hp].
      * left. by exists im.
      * right. apply list_elem_of_singleton in Hp as ->.
        rewrite length_app. cbn. lia.
    + rewrite list_lookup_alter_ne in Hj by done. left. by exists im'.
  - split; [rewrite length_app; cbn; lia|].
    intros j im' k p Hj Hp. left. by exists im'.
Qed.

Lemma grows_then p c s : grows s (then_ p c s).
Proof.
  apply grows_same; [apply then_images|].
  by rewrite then_promises, length_alter.
Qed.

Lemma grows_dispatch k e i s : grows s (dispatch k e i s).
Proof.
  split; [by rewrite dispatch_promises_length|].
  intros j im' k' p Hj Hp. left. destruct (decide (i = j)) as [<-|Hne].
  - destruct (images s !! i) as [im|] eqn:Hi.
    + rewrite (dispatch_lookup _ _ _ _ _ Hi) in Hj. injection Hj as <-.
      exists im. split; [done|]. by apply fin_all_listeners in Hp as [Hp _].
    + unfold dispatch in Hj. rewrite Hi in Hj. congruence.
  - rewrite dispatch_lookup_ne in Hj by done. by exists im'.
Qed.

Lemma grows_toggle_one i s : grows s (toggle_one i s).
Proof.
  split; [by rewrite toggle_one_promises|].
  intros j im' k p Hj Hp. left. rewrite toggle_one_images in Hj.
  destruct (decide (i = j)) as [<-|Hne].
  - rewrite list_lookup_alter_eq in Hj.
    destruct (images s !! i) as [im|]; [|done]. cbn in Hj. injection Hj as <-.
    exists im. split; [done|]. by destruct k.
  - rewrite list_lookup_alter_ne in Hj by done. by exists im'.
Qed.

Lemma grows_toggleMode b s : grows s (toggleMode b s).
Proof.
  unfold toggleMode. eapply grows_trans; [|apply grows_fold].
  - by apply grows_same.
  - intros s' i. apply grows_toggle_one.
Qed.

Lemma grows_click_handler b i s : grows s (click_handler b i s).
Proof.
  unfold click_handler. set (s2 := upd_btn b _ (upd_btn b _ s)).
  destruct (loadImage i s2) as [s3 p] eqn:Hl.
  replace s3 with (loadImage i s2).1 by (by rewrite Hl).
  eapply grows_trans; [|apply grows_then].
  eapply grows_trans; [|apply grows_loadImage]. by apply grows_same.
Qed.

Lemma grows_click b s : grows s (click b s).
Proof.
  unfold click. destruct (buttons s !! b) as [B|]; [|apply grows_refl].
  destruct (disabled B); [apply grows_refl|].
  apply grows_fold. intros s' i. apply grows_click_handler.
Qed.

Lemma grows_io_entry en s : grows s (io_entry en s).
Proof.
  destruct en as [i b]. unfold io_entry. destruct (negb b); [apply grows_refl|].
  destruct (images s !! i) as [im|]; [|apply grows_refl].
  destruct (negb _); [apply grows_refl|].
  destruct (loadImage i s) as [s1 p] eqn:Hl.
  replace s1 with (loadImage i s).1 by (by rewrite Hl).
  eapply grows_trans; [apply grows_loadImage|].
  eapply grows_trans; [apply grows_then|]. by apply grows_same.
Qed.

Lemma grows_load_each l s : grows s (load_each l s).1.
Proof.
  revert s; induction l as [|i l IH]; intros s; [apply grows_refl|].
  cbn [load_each]. destruct (loadImage i s) as [s1 p] eqn:H1.
  destruct (load_each l s1) as [s2 ps] eqn:H2. cbn [fst].
  replace s2 with (load_each l s1).1 by (by rewrite H2).
  replace s1 with (loadImage i s).1 by (by rewrite H1).
  eapply grows_trans; [apply grows_loadImage | apply IH].
Qed.

Lemma grows_loadAll s : grows s (loadAll s).1.
Proof.
  unfold loadAll. destruct (load_each (selected s) s) as [s1 ps] eqn:H1. cbn [fst].
  replace s1 with (load_each (selected s) s).1 by (by rewrite H1).
  eapply grows_trans; [apply grows_load_each|].
  apply grows_fold. intros s' p. apply grows_then.
Qed.

Lemma grows_step ev s : grows s (step ev s).
Proof.
  destruct ev; cbn [step].
  - apply grows_toggleMode.
  - apply grows_loadAll.
  - unfold disconnectObserver. destruct (io s); [by apply grows_same | apply grows_refl].
  - apply grows_click.
  - unfold deliver, io_callback. apply grows_fold. intros s' en. apply grows_io_entry.
  - apply grows_dispatch.
  - apply grows_dispatch.
Qed.

Lemma setup_one_promises i s : promises (setup_one i s) = promises s.
Proof.
  unfold setup_one. destruct (images s !! i) as [im|]; [|done].
  destruct (String.eqb _ _); destruct (btn im); unfold ensureObserver; proj;
    destruct (io s); done.
Qed.

Lemma grows_init s : grows s (init s).
Proof.
  unfold init, setupImages. apply grows_fold. intros s' i.
  apply grows_same; [apply setup_one_images | by rewrite setup_one_promises].
Qed.

(** The observer: whatever holds of a new observer and is kept by
    [observe] and [unobserve] holds of the observer of every page. *)
Section ObserverInvariant.
Variable Q : nat → Observer → Prop.
Hypothesis Q_new : ∀ n, Q (S n) (mkObserver n []).
Hypothesis Q_observe : ∀ n i o, Q n o → Q n (observe i o).
Hypothesis Q_unobserve : ∀ n i o, Q n o → Q n (unobserve i o).

Lemma observer_inv_same s s' :
  io s' = io s → next_io s' = next_io s → observer_holds Q s → observer_holds Q s'.
Proof. intros Hio Hn H o. rewrite Hio, Hn. apply H. Qed.

Lemma observer_inv_unobserve i s : observer_holds Q s → observer_holds Q (io_unobserve i s).
Proof.
  intros H o. unfold io_unobserve. proj. destruct (io s) as [o'|] eqn:Ho; [|done].
  cbn. intros [= <-]. by apply Q_unobserve, H.
Qed.

Lemma observer_inv_ensure_observe i s :
  observer_holds Q s → observer_holds Q (io_observe i (ensureObserver s)).
Proof.
  intros H o. unfold io_observe, ensureObserver.
  destruct (io s) as [o'|] eqn:Ho; proj; rewrite ?Ho; cbn; intros [= <-].
  - by apply Q_observe, H.
  - apply Q_observe, Q_new.
Qed.

Lemma observer_inv_toggle_one i s : observer_holds Q s → observer_holds Q (toggle_one i s).
Proof.
  intros H. destruct (images s !! i) as [im|] eqn:Hi;
    [|by rewrite toggle_one_none].
  rewrite (toggle_one_eq _ _ _ Hi). intros o. proj.
  unfold toggled_io, toggled_next_io. destruct (loaded im); [apply H|].
  destruct (String.eqb (currentMode s) "scroll").
  - intros [= <-]. destruct (io s) as [o'|] eqn:Ho; cbn [default].
    + by apply Q_observe, H.
    + apply Q_observe, Q_new.
  - destruct (io s) as [o'|] eqn:Ho; [|done]. cbn. intros [= <-].
    by apply Q_unobserve, H.
Qed.

Lemma observer_inv_setup_one i s : observer_holds Q s → observer_holds Q (setup_one i s).
Proof.
  intros H. unfold setup_one. destruct (images s !! i) as [im|]; [|done].
  destruct (String.eqb _ _).
  - destruct (btn im); by apply (observer_inv_same s).
  - apply observer_inv_ensure_observe.
    destruct (btn im); by apply (observer_inv_same s).
Qed.

Lemma observer_inv_click_handler b i s :
  observer_holds Q s → observer_holds Q (click_handler b i s).
Proof.
  intros H. unfold click_handler. set (s2 := upd_btn b _ (upd_btn b _ s)).
  destruct (loadImage i s2) as [s3 p] eqn:Hl.
  replace s3 with (loadImage i s2).1 by (by rewrite Hl).
  apply (observer_inv_same s); [|by rewrite then_next_io, loadImage_next_io|done].
  by rewrite then_io, loadImage_io.
Qed.

Lemma observer_inv_io_entry en s : observer_holds Q s → observer_holds Q (io_entry en s).
Proof.
  intros H. destruct en as [i b]. unfold io_entry. destruct (negb b); [done|].
  destruct (images s !! i) as [im|]; [|done].
  destruct (negb _); [done|].
  destruct (loadImage i s) as [s1 p] eqn:Hl.
  replace s1 with (loadImage i s).1 by (by rewrite Hl).
  apply observer_inv_unobserve.
  apply (observer_inv_same s); [|by rewrite then_next_io, loadImage_next_io|done].
  by rewrite then_io, loadImage_io.
Qed.

Lemma load_each_io l s :
  io (load_each l s).1 = io s ∧ next_io (load_each l s).1 = next_io s.
Proof.
  revert s; induction l as [|i l IH]; intros s; [done|].
  cbn [load_each]. destruct (loadImage i s) as [s1 p] eqn:H1.
  destruct (load_each l s1) as [s2 ps] eqn:H2. cbn [fst].
  replace s2 with (load_each l s1).1 by (by rewrite H2).
  replace s1 with (loadImage i s).1 by (by rewrite H1).
  destruct (IH (loadImage i s).1) as [-> ->].
  by rewrite loadImage_io, loadImage_next_io.
Qed.

Lemma observer_inv_loadAll s : observer_holds Q s → observer_holds Q (loadAll s).1.
Proof.
  intros H. unfold loadAll.
  destruct (load_each (selected s) s) as [s1 ps] eqn:H1. cbn [fst].
  apply (foldl_inv (observer_holds Q)).
  - replace s1 with (load_each (selected s) s).1 by (by rewrite H1).
    destruct (load_each_io (selected s) s) as [Hio Hn].
    by apply (observer_inv_same s).
  - intros s' p _ Hs'.
    apply (observer_inv_same s'); [apply then_io | apply then_next_io | done].
Qed.

Lemma observer_inv_step ev s : observer_holds Q s → observer_holds Q (step ev s).
Proof.
  intros H. destruct ev; cbn [step].
  - unfold toggleMode. apply (foldl_inv (observer_holds Q)); [done|].
    intros s' i _. apply observer_inv_toggle_one.
  - by apply observer_inv_loadAll.
  - unfold disconnectObserver. destruct (io s); [|done]. by intros o'.
  - unfold click. destruct (buttons s !! b) as [B|]; [|done].
    destruct (disabled B); [done|].
    apply (foldl_inv (observer_holds Q)); [done|].
    intros s' i _. apply observer_inv_click_handler.
  - unfold deliver, io_callback. apply (foldl_inv (observer_holds Q)); [done|].
    intros s' en _. apply observer_inv_io_entry.
  - apply (observer_inv_same s); [apply dispatch_io | apply dispatch_next_io | done].
  - apply (observer_inv_same s); [apply dispatch_io | apply dispatch_next_io | done].
Qed.

Lemma observer_inv_session st0 evs :
  io st0 = None → observer_holds Q (run evs (init st0)).
Proof.
  intros Hio. unfold run. apply (foldl_inv (observer_holds Q)).
  - unfold init, setupImages. apply (foldl_inv (observer_holds Q)).
    + intros o. by rewrite Hio.
    + intros s i _. apply observer_inv_setup_one.
  - intros s ev _. apply observer_inv_step.
Qed.
End ObserverInvariant.

(** X18: on every page reached from a pristine one by [init] and any
    events, the listeners name existing promises, the observer is older
    than the next one, and no target is listed twice. *)
Lemma session_well_formed st0 evs :
  pristine st0 →
  listeners_bound (run evs (init st0))
  ∧ observer_bound (run evs (init st0))
  ∧ targets_distinct (run evs (init st0)).
Proof.
  intros (_ & Hls & Hio). split; [|split].
  - apply (grows_bound st0).
    + eapply grows_trans; [apply grows_init|]. unfold run. apply grows_fold.
      intros s ev. apply grows_step.
    + intros i im k p Hi Hp. rewrite (Hls i im k Hi) in Hp.
      by apply elem_of_nil in Hp.
  - apply (observer_inv_session (λ n o, io_id o < n)); try done.
    + intros n. cbn. lia.
    + intros n i o Ho. unfold observe. by destruct (decide _).
  - apply (observer_inv_session (λ _ o, NoDup (targets o))); try done.
    + intros n. apply NoDup_nil_2.
    + intros _ i o. apply NoDup_observe.
    + intros _ i o. apply NoDup_unobserve.
Qed.

(** ** applyDataAttributes on its own *)

Lemma apply_source_idemp s : apply_source (apply_source s) = apply_source s.
Proof. destruct s as [[d|] r]; reflexivity. Qed.

Lemma applyDataAttributes_eq im :
  applyDataAttributes im =
    mkImg (loaded im) (data_load im) (data_src im) (data_srcset im) (data_sizes im)
      (if truthy (data_src im) then data_src im else src im)
      (if truthy (data_srcset im) then data_srcset im else srcset im)
      (if truthy (data_sizes im) then data_sizes im else sizes im)
      (map apply_source <$> picture im) (skeleton im) (btn im)
      (on_load im) (on_error im).
Proof.
  destruct im as [l dl ds dss dz s ss z pic sk b ol oe].
  unfold applyDataAttributes. img_proj.
  destruct (truthy ds); img_proj; destruct (truthy dss); img_proj;
    destruct (truthy dz); reflexivity.
Qed.

(** X1: [applyDataAttributes] is idempotent: a second application writes
    the values the first one wrote, on the image and on the sources of its
    picture. *)
Theorem applyDataAttributes_idempotent im :
  applyDataAttributes (applyDataAttributes im) = applyDataAttributes im.
Proof.
  rewrite (applyDataAttributes_eq (applyDataAttributes im)).
  rewrite (applyDataAttributes_eq im). img_proj.
  f_equal.
  - by destruct (truthy (data_src im)).
  - by destruct (truthy (data_srcset im)).
  - by destruct (truthy (data_sizes im)).
  - destruct (picture im) as [srcs|]; [|done]. cbn. f_equal.
    rewrite map_map. apply map_ext. intros x. apply apply_source_idemp.
Qed.

(** X2: [applyDataAttributes] skips what is missing: when data-src,
    data-srcset and data-sizes are absent or empty and no source of the
    picture carries data-srcset, the image is left exactly as it was. *)
Theorem applyDataAttributes_nothing_pending im :
  truthy (data_src im) = false → truthy (data_srcset im) = false →
  truthy (data_sizes im) = false →
  (∀ srcs s, picture im = Some srcs → s ∈ srcs → s_data_srcset s = None) →
  applyDataAttributes im = im.
Proof.
  intros H1 H2 H3 Hp. rewrite applyDataAttributes_eq, H1, H2, H3.
  destruct im as [l dl ds dss dz s ss z pic sk b ol oe]. img_proj. f_equal.
  destruct pic as [srcs|]; [|done]. cbn. f_equal.
  specialize (Hp srcs).
  induction srcs as [|x srcs IH]; [done|]. cbn. f_equal.
  - unfold apply_source. rewrite (Hp x); [by destruct x|done|by left].
  - apply IH. intros s0 Heq Hs. apply Hp; [done|by right].
Qed.

Lemma applyDataAttributes_nothing_pending_witness :
  let im := mkImg false None (Some "") None None (Some "x.jpg") None None
              (Some [mkSource None (Some "x.webp")]) None None [] [] in
  (truthy (data_src im) = false ∧ truthy (data_srcset im) = false
   ∧ truthy (data_sizes im) = false
   ∧ ∀ srcs s, picture im = Some srcs → s ∈ srcs → s_data_srcset s = None)
  ∧ applyDataAttributes im = im.
Proof.
  intros im.
  assert (∀ srcs s, picture im = Some srcs → s ∈ srcs → s_data_srcset s = None) as Hp.
  { intros srcs s [= <-] Hs. apply list_elem_of_singleton in Hs as ->. reflexivity. }
  split; [by repeat split|].
  exact (applyDataAttributes_nothing_pending im eq_refl eq_refl eq_refl Hp).
Defined.

(** ** setupImages *)

Lemma setup_one_io i s im :
  images s !! i = Some im →
  io (setup_one i s)
  = (if String.eqb (loadMode im) "click" then io s
     else Some (observe i (default (mkObserver (next_io s) []) (io s))))
  ∧ next_io (setup_one i s)
    = (if String.eqb (loadMode im) "click" then next_io s
       else match io s with Some _ => next_io s | None => S (next_io s) end).
Proof.
  intros Hi. unfold setup_one. rewrite Hi.
  destruct (String.eqb (loadMode im) "click").
  - by destruct (btn im).
  - unfold ensureObserver.
    destruct (btn im); proj; destruct (io s) as [o|] eqn:Ho; proj; by rewrite ?Ho.
Qed.

Lemma setup_one_none i s : images s !! i = None → setup_one i s = s.
Proof. intros Hi. unfold setup_one. by rewrite Hi. Qed.

Lemma setup_one_log i s : log (setup_one i s) = log s.
Proof.
  unfold setup_one. destruct (images s !! i) as [im|]; [|done].
  destruct (String.eqb _ _); destruct (btn im); unfold ensureObserver; proj;
    destruct (io s); done.
Qed.

Lemma setup_one_skeletons i s : skeletons (setup_one i s) = skeletons s.
Proof.
  unfold setup_one. destruct (images s !! i) as [im|]; [|done].
  destruct (String.eqb _ _); destruct (btn im); unfold ensureObserver; proj;
    destruct (io s); done.
Qed.

Lemma fold_setup_images l s :
  images (foldl (λ s i, setup_one i s) s l) = images s.
Proof.
  apply (foldl_inv (λ s', images s' = images s)); [done|].
  intros s' i _ <-. apply setup_one_images.
Qed.

Lemma watch_all_cons a l o n :
  (∀ ob, o = Some ob → a ∉ targets ob) →
  watch_all l (Some (observe a (default (mkObserver n []) o)))
    (match o with Some _ => n | None => S n end)
  = watch_all (a :: l) o n.
Proof.
  intros Ha. destruct o as [ob|]; cbn [default].
  - unfold observe. rewrite decide_False by (by apply Ha).
    destruct l as [|b l]; cbn; [done|]. by rewrite <- app_assoc.
  - unfold observe. rewrite decide_False by (cbn; apply not_elem_of_nil).
    destruct l as [|b l]; cbn; done.
Qed.

Lemma fold_setup_io st0 k a s :
  images s = images st0 →
  (∀ ob j, io s = Some ob → j ∈ targets ob → j < a) →
  (io (foldl (λ s i, setup_one i s) s (seq a k)),
   next_io (foldl (λ s i, setup_one i s) s (seq a k)))
  = watch_all (filter (λ i, non_click st0 i = true) (seq a k)) (io s) (next_io s).
Proof.
  revert a s; induction k as [|k IH]; intros a s Him Hlt.
  - cbn. by destruct (io s).
  - cbn [seq foldl]. rewrite filter_cons.
    destruct (images s !! a) as [im|] eqn:Ha.
    + assert (non_click st0 a = negb (String.eqb (loadMode im) "click")) as Hnc.
      { unfold non_click. by rewrite <- Him, Ha. }
      destruct (setup_one_io a s im Ha) as [Hio Hn].
      rewrite IH.
      2:{ by rewrite setup_one_images. }
      2:{ intros ob j. rewrite Hio.
          destruct (String.eqb (loadMode im) "click").
          - intros Ho Hj. specialize (Hlt ob j Ho Hj). lia.
          - intros [= <-] Hj. apply elem_of_observe in Hj as [->|Hj]; [lia|].
            destruct (io s) as [ob'|] eqn:Ho; cbn in Hj.
            + specialize (Hlt ob' j eq_refl Hj). lia.
            + by apply elem_of_nil in Hj. }
      rewrite Hio, Hn.
      destruct (String.eqb (loadMode im) "click"); cbn [negb] in Hnc.
      * by rewrite decide_False by congruence.
      * rewrite decide_True by done. apply watch_all_cons.
        intros ob Ho Hin. specialize (Hlt ob a Ho Hin). lia.
    + assert (non_click st0 a = false) as Hnc.
      { unfold non_click. by rewrite <- Him, Ha. }
      rewrite setup_one_none by done. rewrite decide_False by congruence.
      apply IH; [done|]. intros ob j Ho Hj. specialize (Hlt ob j Ho Hj). lia.
Qed.

Lemma init_images st0 : images (init st0) = images st0.
Proof. apply fold_setup_images. Qed.

Lemma init_io st0 :
  io st0 = None →
  io (init st0)
  = match observed_by_setup st0 with
    | [] => None
    | l => Some (mkObserver (next_io st0) l)
    end.
Proof.
  intros Hio.
  pose proof (fold_setup_io st0 (length (images st0)) 0 st0 eq_refl) as H.
  rewrite Hio in H. unfold init, setupImages, indices, observed_by_setup, indices.
  assert (∀ (ob : Observer) (j : nat), None = Some ob → j ∈ targets ob → j < 0)
    as H0 by done.
  specialize (H H0). apply (f_equal fst) in H. cbn [fst] in H. rewrite H.
  by destruct (filter _ _).
Qed.

Lemma init_watched st0 i :
  io st0 = None → watched i (init st0) = non_click st0 i.
Proof.
  intros Hio. unfold watched. rewrite (init_io st0 Hio).
  assert (i ∈ observed_by_setup st0 ↔ non_click st0 i = true) as Hin.
  { unfold observed_by_setup, indices. rewrite list_elem_of_filter, elem_of_seq.
    split; [tauto|]. intros H. split; [done|]. unfold non_click in H.
    destruct (images st0 !! i) eqn:Hi; [|done]. apply lookup_lt_Some in Hi. lia. }
  destruct (observed_by_setup st0) as [|a l] eqn:Hl.
  - symmetry. apply not_true_iff_false. rewrite <- Hin. apply not_elem_of_nil.
  - cbn [targets]. destruct (non_click st0 i) eqn:Hnc.
    + apply bool_decide_eq_true. by apply Hin.
    + apply bool_decide_eq_false. rewrite Hin. congruence.
Qed.

(** X3: [setupImages] on a page without observer hands to the observer
    exactly the images whose mode is not "click", in document order; the
    observer is created for the first of them, and not at all when every
    image is in click mode. *)
Theorem init_observes_non_click st0 :
  io st0 = None →
  io (init st0)
  = match observed_by_setup st0 with
    | [] => None
    | l => Some (mkObserver (next_io st0) l)
    end
  ∧ (∀ i, watched i (init st0) = non_click st0 i).
Proof.
  intros Hio. split; [by apply init_io|]. intros i. by apply init_watched.
Qed.

Lemma init_observes_non_click_witness :
  io sample_page = None
  ∧ io (init sample_page) = Some (mkObserver 0 [0; 2]).
Proof.
  split; [reflexivity|].
  exact (proj1 (init_observes_non_click sample_page eq_refl)).
Defined.

(** X4: [setupImages] fetches nothing: images (attributes, classes,
    listeners), promises, wrappers and the trace are as before; only
    buttons and the observer are set up. *)
Theorem init_fetches_nothing st0 :
  images (init st0) = images st0
  ∧ promises (init st0) = promises st0
  ∧ log (init st0) = log st0
  ∧ skeletons (init st0) = skeletons st0.
Proof.
  unfold init, setupImages.
  apply (foldl_inv (λ s, images s = images st0 ∧ promises s = promises st0
                         ∧ log s = log st0 ∧ skeletons s = skeletons st0));
    [done|].
  intros s i _ (<- & <- & <- & <-).
  by rewrite setup_one_images, setup_one_promises, setup_one_log, setup_one_skeletons.
Qed.

(** X5: an image whose data-load is neither "click" nor "scroll" is handed
    to the observer by [setupImages] (its test is [=== 'click']) but the
    observer callback, which tests [!== 'scroll'], ignores its crossing:
    nothing is loaded and the image stays observed. *)
Theorem odd_mode_observed_but_never_loaded st0 i im :
  io st0 = None → images st0 !! i = Some im →
  loadMode im ≠ "click" → loadMode im ≠ "scroll" →
  watched i (init st0) = true
  ∧ deliver [(i, true)] (init st0) = init st0.
Proof.
  intros Hio Hi Hc Hs.
  assert (watched i (init st0) = true) as Hw.
  { rewrite (init_watched st0 i Hio). unfold non_click.
    rewrite Hi. by destruct (String.eqb_spec (loadMode im) "click"). }
  split; [done|].
  rewrite deliver_watched by done. unfold io_entry. cbn [negb].
  rewrite init_images, Hi.
  by destruct (String.eqb_spec (loadMode im) "scroll").
Qed.

Lemma odd_mode_observed_but_never_loaded_witness :
  (io page_odd_mode = None
   ∧ images page_odd_mode !! 0 = Some (img_at page_odd_mode 0)
   ∧ loadMode (img_at page_odd_mode 0) ≠ "click"
   ∧ loadMode (img_at page_odd_mode 0) ≠ "scroll")
  ∧ watched 0 (init page_odd_mode) = true
  ∧ deliver [(0, true)] (init page_odd_mode) = init page_odd_mode.
Proof.
  assert (loadMode (img_at page_odd_mode 0) ≠ "click") as Hc by discriminate.
  assert (loadMode (img_at page_odd_mode 0) ≠ "scroll") as Hs by discriminate.
  split; [by repeat split|].
  exact (odd_mode_observed_but_never_loaded page_odd_mode 0 _ eq_refl eq_refl Hc Hs).
Defined.

(** ** The click handler *)

Lemma click_handler_not_loaded b i s im :
  images s !! i = Some im → loaded im = false →
  click_handler b i s =
    mkPage (alter (started (length (promises s))) i (images s))
      (alter (with_text "Завантаження…") b (alter (with_disabled true) b (buttons s)))
      (skeletons s) (io s) (next_io s) (currentMode s) (modeLabel s)
      (promises s ++ [mkPromise Pending (Awaited b)])
      (log s ++ cycle i (length (promises s))).
Proof.
  intros Hi Hl. unfold click_handler.
  set (s2 := upd_btn b _ (upd_btn b _ s)).
  rewrite (loadImage_not_loaded s2 i im Hi Hl). unfold then_. proj.
  rewrite lookup_snoc. cbn [pstate].
  apply page_eq; proj; try done.
  apply (alter_snoc (λ _, mkPromise Pending (Awaited b))).
Qed.

Lemma click_handler_loaded b i s im :
  images s !! i = Some im → loaded im = true →
  click_handler b i s =
    mkPage (images s)
      (alter (with_text "Готово") b
         (alter (with_text "Завантаження…") b (alter (with_disabled true) b (buttons s))))
      (skeletons s) (io s) (next_io s) (currentMode s) (modeLabel s)
      (promises s ++ [mkPromise Fulfilled (Awaited b)])
      (log s).
Proof.
  intros Hi Hl. unfold click_handler.
  set (s2 := upd_btn b _ (upd_btn b _ s)).
  rewrite (loadImage_loaded s2 i im Hi Hl). unfold then_. proj.
  rewrite lookup_snoc. cbn [pstate run_consumer].
  apply page_eq; proj; try done.
  apply (alter_snoc (λ _, mkPromise Fulfilled (Awaited b))).
Qed.

Lemma click_single b B i s :
  buttons s !! b = Some B → disabled B = false → on_click B = [i] →
  click b s = click_handler b i s.
Proof. intros HB Hd Hc. unfold click. by rewrite HB, Hd, Hc. Qed.

Lemma loading_button b B i (m : gmap nat Button) :
  m !! b = Some B → disabled B = false → on_click B = [i] →
  alter (with_text "Завантаження…") b (alter (with_disabled true) b m) !! b
  = Some (mkButton (hidden B) true "Завантаження…" [i]).
Proof.
  intros HB Hd Hc. rewrite !lookup_alter_eq, HB. cbn. destruct B. cbn in *. by subst.
Qed.

(** X6: a click on an enabled button bound to one image that is not
    loaded disables the button, shows the loading text and starts one load
    of that image, awaited by the handler; while that load is in flight a
    further click on the button does nothing. *)
Theorem click_starts_one_load b B i im s :
  buttons s !! b = Some B → disabled B = false → on_click B = [i] →
  images s !! i = Some im → loaded im = false →
  buttons (click b s) !! b = Some (mkButton (hidden B) true "Завантаження…" [i])
  ∧ images (click b s) !! i = Some (started (length (promises s)) im)
  ∧ promises (click b s) = promises s ++ [mkPromise Pending (Awaited b)]
  ∧ log (click b s) = log s ++ cycle i (length (promises s))
  ∧ click b (click b s) = click b s.
Proof.
  intros HB Hd Hc Hi Hl.
  rewrite (click_single b B i s HB Hd Hc), (click_handler_not_loaded b i s im Hi Hl).
  pose proof (loading_button b B i (buttons s) HB Hd Hc) as HB'.
  split; [done|]. split; [proj; by rewrite list_lookup_alter_eq, Hi|].
  split; [done|]. split; [done|].
  unfold click at 1. proj. by rewrite HB'.
Qed.

Lemma click_starts_one_load_witness :
  (buttons page_ready !! 1 = Some (mkButton false false "Завантажити" [1])
   ∧ images page_ready !! 1 = Some (img_at page_ready 1)
   ∧ loaded (img_at page_ready 1) = false)
  ∧ click 1 (click 1 page_ready) = click 1 page_ready.
Proof.
  assert (buttons page_ready !! 1 = Some (mkButton false false "Завантажити" [1])) as HB
    by reflexivity.
  assert (images page_ready !! 1 = Some (img_at page_ready 1)) as Hi by reflexivity.
  assert (loaded (img_at page_ready 1) = false) as Hl by reflexivity.
  split; [done|].
  exact (proj2 (proj2 (proj2 (proj2
    (click_starts_one_load 1 _ 1 _ page_ready HB eq_refl eq_refl Hi Hl))))).
Defined.

(** X8: a click on an enabled button bound to one image that is already
    loaded ends at once: the button is disabled and shows the done text,
    nothing is committed and no listener is registered. *)
Theorem click_on_loaded_image b B i im s :
  buttons s !! b = Some B → disabled B = false → on_click B = [i] →
  images s !! i = Some im → loaded im = true →
  buttons (click b s) !! b = Some (mkButton (hidden B) true "Готово" [i])
  ∧ images (click b s) = images s
  ∧ log (click b s) = log s
  ∧ promises (click b s) = promises s ++ [mkPromise Fulfilled (Awaited b)].
Proof.
  intros HB Hd Hc Hi Hl.
  rewrite (click_single b B i s HB Hd Hc), (click_handler_loaded b i s im Hi Hl). proj.
  split; [|done].
  rewrite !lookup_alter_eq, HB. cbn. destruct B. cbn in *. by subst.
Qed.

Lemma click_on_loaded_image_witness :
  (buttons page_all_loaded !! 1 = Some (mkButton false false "Завантажити" [1])
   ∧ images page_all_loaded !! 1 = Some (img_at page_all_loaded 1)
   ∧ loaded (img_at page_all_loaded 1) = true)
  ∧ log (click 1 page_all_loaded) = log page_all_loaded.
Proof.
  assert (buttons page_all_loaded !! 1 = Some (mkButton false false "Завантажити" [1]))
    as HB by reflexivity.
  assert (images page_all_loaded !! 1 = Some (img_at page_all_loaded 1)) as Hi
    by reflexivity.
  assert (loaded (img_at page_all_loaded 1) = true) as Hl by reflexivity.
  split; [done|].
  exact (proj1 (proj2 (proj2
    (click_on_loaded_image 1 _ 1 _ page_all_loaded HB eq_refl eq_refl Hi Hl)))).
Defined.

Lemma consumer_buttons_outcome c k e (m : gmap nat Button) :
  consumer_buttons c (outcome k e) m
  = match c with
    | Awaited b => alter (reported k) b m
    | _ => m
    end.
Proof.
  destruct c as [| | |b], k; cbn [consumer_buttons outcome reported]; try done.
  apply map_eq; intros b'. destruct (decide (b = b')) as [<-|Hne].
  - rewrite !lookup_alter_eq. destruct (m !! b); reflexivity.
  - by rewrite !lookup_alter_ne.
Qed.

Lemma reported_idemp k B : reported k (reported k B) = reported k B.
Proof. by destruct k, B. Qed.

Lemma fire_button_cases k e i q s :
  buttons (fire k e i q s) = buttons s
  ∨ ∃ b', buttons (fire k e i q s) = alter (reported k) b' (buttons s).
Proof.
  destruct (images s !! i) as [im|] eqn:Hi; [|left; by rewrite fire_none].
  rewrite (fire_buttons _ _ _ _ _ _ Hi). destruct (decide _); [|by left].
  rewrite settle_buttons. destruct (promises s !! q) as [[[] c]|]; try by left.
  rewrite consumer_buttons_outcome. destruct c; try by left. right. by eexists.
Qed.

Lemma fire_button_step k e i q s b X :
  buttons s !! b = Some X →
  buttons (fire k e i q s) !! b = Some X
  ∨ buttons (fire k e i q s) !! b = Some (reported k X).
Proof.
  intros HX. destruct (fire_button_cases k e i q s) as [->|[b' ->]]; [by left|].
  rewrite lookup_alter. destruct (decide (b' = b)) as [->|]; [|by left].
  right. by rewrite HX.
Qed.

Lemma fold_fire_button_stable k e i l s b X :
  buttons s !! b = Some X → reported k X = X →
  buttons (foldl (λ s p, fire k e i p s) s l) !! b = Some X.
Proof.
  intros HX Hid.
  apply (foldl_inv (λ s', buttons s' !! b = Some X)); [done|].
  intros s' q _ HX'.
  destruct (fire_button_step k e i q s' b X HX') as [?|H]; [done|].
  by rewrite H, Hid.
Qed.

Lemma fold_fire_reports k e i l p b B X s im :
  images s !! i = Some im → p ∈ l → p ∈ listeners k im →
  promises s !! p = Some (mkPromise Pending (Awaited b)) →
  buttons s !! b = Some X → X = B ∨ X = reported k B →
  buttons (foldl (λ s p, fire k e i p s) s l) !! b = Some (reported k B).
Proof.
  revert s im X; induction l as [|q l IH]; intros s im X Hi Hp Hin Hpr HX HXB.
  - by apply elem_of_nil in Hp.
  - cbn [foldl]. destruct (decide (q = p)) as [->|Hne].
    + apply fold_fire_button_stable; [|apply reported_idemp].
      rewrite (fire_buttons _ _ _ _ _ _ Hi), decide_True by done.
      rewrite settle_buttons, Hpr, consumer_buttons_outcome.
      rewrite lookup_alter_eq, HX. cbn. f_equal.
      destruct HXB as [->| ->]; [done | apply reported_idemp].
    + apply elem_of_cons in Hp as [->|Hp]; [done|].
      destruct (fire_button_step k e i q s b X HX) as [HX'|HX'].
      * apply (IH (fire k e i q s) (fin k q im) X); try done.
        -- by rewrite fire_images, list_lookup_alter_eq, Hi.
        -- apply fin_listeners. split; [done|]. intros [? _]. congruence.
        -- by rewrite fire_lookup_ne.
      * apply (IH (fire k e i q s) (fin k q im) (reported k X)); try done.
        -- by rewrite fire_images, list_lookup_alter_eq, Hi.
        -- apply fin_listeners. split; [done|]. intros [? _]. congruence.
        -- by rewrite fire_lookup_ne.
        -- right. destruct HXB as [->| ->]; [done | apply reported_idemp].
Qed.

Lemma click_then_signal_state b B i im s k e :
  buttons s !! b = Some B → disabled B = false → on_click B = [i] →
  images s !! i = Some im → loaded im = false →
  let s' := dispatch k e i (click b s) in
  buttons s' !! b
    = Some (match k with
            | KLoad => mkButton (hidden B) true "Готово" [i]
            | KError => mkButton (hidden B) false "Помилка, спробуйте ще" [i]
            end)
  ∧ promises s' !! length (promises s)
    = Some (mkPromise (outcome k e) (Awaited b))
  ∧ (∃ im', images s' !! i = Some im'
            ∧ loaded im' = match k with KLoad => true | KError => false end).
Proof.
  intros HB Hd Hc Hi Hl s'. unfold s'.
  rewrite (click_single b B i s HB Hd Hc), (click_handler_not_loaded b i s im Hi Hl).
  set (s1 := mkPage _ _ _ _ _ _ _ _ _).
  pose proof (loading_button b B i (buttons s) HB Hd Hc) as HB'.
  assert (images s1 !! i = Some (started (length (promises s)) im)) as Hi'.
  { unfold s1. proj. by rewrite list_lookup_alter_eq, Hi. }
  assert (promises s1 = promises s ++ [mkPromise Pending (Awaited b)]) as Hpr by done.
  set (p := length (promises s)) in *.
  assert (p ∈ listeners k (started p im)) as Hin.
  { rewrite started_listeners. apply elem_of_app. right. by left. }
  assert (promises s1 !! p = Some (mkPromise Pending (Awaited b))) as Hp.
  { rewrite Hpr. apply lookup_snoc. }
  split; [|split].
  - unfold dispatch. rewrite Hi'.
    rewrite (fold_fire_reports k e i _ p b
               (mkButton (hidden B) true "Завантаження…" [i]) _ _ _ Hi' Hin Hin Hp HB');
      [|by left].
    by destruct k.
  - by apply (dispatch_settles k e i p _ _ _ Hi' Hin).
  - eexists. split; [apply (dispatch_lookup _ _ _ _ _ Hi')|].
    destruct k.
    + by apply (fin_all_loaded_load _ _ p).
    + rewrite fin_all_loaded_error. by rewrite (proj1 (started_static p im)).
Qed.

(** X7: after a click has started the load of its image, the signal that
    ends the load is shown on the button: on 'load' the image is loaded, the
    button shows the done text and stays disabled; on 'error' the image is
    not loaded, the button shows the retry text and is enabled again.  The
    awaited promise is fulfilled, or rejected with the reason. *)
Theorem click_then_signal b B i im s k e :
  buttons s !! b = Some B → disabled B = false → on_click B = [i] →
  images s !! i = Some im → loaded im = false →
  let s' := dispatch k e i (click b s) in
  buttons s' !! b
    = Some (match k with
            | KLoad => mkButton (hidden B) true "Готово" [i]
            | KError => mkButton (hidden B) false "Помилка, спробуйте ще" [i]
            end)
  ∧ promises s' !! length (promises s)
    = Some (mkPromise (outcome k e) (Awaited b))
  ∧ is_loaded s' i = match k with KLoad => true | KError => false end.
Proof.
  intros HB Hd Hc Hi Hl s'.
  destruct (click_then_signal_state b B i im s k e HB Hd Hc Hi Hl)
    as (H1 & H2 & im' & Hi' & Hl').
  split; [done|]. split; [done|]. unfold is_loaded, s'. by rewrite Hi'.
Qed.

Lemma click_then_signal_witness :
  (buttons page_ready !! 1 = Some (mkButton false false "Завантажити" [1])
   ∧ images page_ready !! 1 = Some (img_at page_ready 1)
   ∧ loaded (img_at page_ready 1) = false)
  ∧ buttons (dispatch KError "net" 1 (click 1 page_ready)) !! 1
    = Some (mkButton false false "Помилка, спробуйте ще" [1]).
Proof.
  assert (buttons page_ready !! 1 = Some (mkButton false false "Завантажити" [1])) as HB
    by reflexivity.
  assert (images page_ready !! 1 = Some (img_at page_ready 1)) as Hi by reflexivity.
  assert (loaded (img_at page_ready 1) = false) as Hl by reflexivity.
  split; [done|].
  exact (proj1
    (click_then_signal 1 _ 1 _ page_ready KError "net" HB eq_refl eq_refl Hi Hl)).
Defined.

(** X21: the retry works: after a click whose load has failed, a second
    click on the same button starts a new load, and when 'load' then fires
    the image is loaded and the button shows the done text and stays
    disabled. *)
Theorem retry_after_error b B i im s e e' :
  buttons s !! b = Some B → disabled B = false → on_click B = [i] →
  images s !! i = Some im → loaded im = false →
  let s1 := dispatch KError e i (click b s) in
  let s2 := dispatch KLoad e' i (click b s1) in
  is_loaded s1 i = false
  ∧ is_loaded s2 i = true
  ∧ buttons s2 !! b = Some (mkButton (hidden B) true "Готово" [i])
  ∧ count_eff (Commit i) (log s2) = 2 + count_eff (Commit i) (log s).
Proof.
  intros HB Hd Hc Hi Hl s1 s2.
  destruct (click_then_signal_state b B i im s KError e HB Hd Hc Hi Hl)
    as (HB1 & _ & im1 & Hi1 & Hl1).
  fold s1 in HB1, Hi1.
  destruct (click_then_signal_state b _ i im1 s1 KLoad e' HB1 eq_refl eq_refl Hi1 Hl1)
    as (HB2 & _ & im2 & Hi2 & Hl2).
  fold s2 in HB2, Hi2.
  split; [unfold is_loaded; by rewrite Hi1|].
  split; [unfold is_loaded; by rewrite Hi2|].
  split; [done|].
  unfold s2. rewrite dispatch_count_other by done.
  rewrite (click_single b _ i s1 HB1 eq_refl eq_refl),
    (click_handler_not_loaded b i s1 im1 Hi1 Hl1). proj.
  unfold s1. rewrite count_eff_app, dispatch_count_other by done.
  rewrite (click_single b B i s HB Hd Hc), (click_handler_not_loaded b i s im Hi Hl).
  proj. rewrite count_eff_app.
  assert (∀ q, count_eff (Commit i) (cycle i q) = 1) as Hcy.
  { intros q. unfold count_eff, cycle. rewrite !filter_cons, filter_nil.
    repeat (destruct (decide _) as [?|?]; try congruence). done. }
  rewrite !Hcy. lia.
Qed.

Lemma retry_after_error_witness :
  (buttons page_ready !! 1 = Some (mkButton false false "Завантажити" [1])
   ∧ images page_ready !! 1 = Some (img_at page_ready 1)
   ∧ loaded (img_at page_ready 1) = false)
  ∧ is_loaded (dispatch KLoad "" 1
                 (click 1 (dispatch KError "net" 1 (click 1 page_ready)))) 1 = true.
Proof.
  assert (buttons page_ready !! 1 = Some (mkButton false false "Завантажити" [1])) as HB
    by reflexivity.
  assert (images page_ready !! 1 = Some (img_at page_ready 1)) as Hi by reflexivity.
  assert (loaded (img_at page_ready 1) = false) as Hl by reflexivity.
  split; [done|].
  exact (proj1 (proj2
    (retry_after_error 1 _ 1 _ page_ready "net" "" HB eq_refl eq_refl Hi Hl))).
Defined.

(** ** loadAll with nothing to load *)

(** X9: when every image is loaded, [loadAll] selects nothing, leaves the
    page as it is, and the promise it awaits is fulfilled at once. *)
Theorem loadAll_nothing_to_load st :
  (∀ i im, images st !! i = Some im → loaded im = true) →
  selected st = [] ∧ loadAll st = (st, [])
  ∧ allSettled (loadAll st).1 (loadAll st).2 = Fulfilled.
Proof.
  intros Hall.
  assert (selected st = []) as Hsel.
  { apply elem_of_nil_inv. intros i Hi. apply elem_of_selected in Hi.
    apply not_loaded_Some in Hi as (im & Hi & Hl). rewrite (Hall i im Hi) in Hl.
    discriminate. }
  split; [done|]. unfold loadAll. rewrite Hsel. by cbn.
Qed.

Lemma loadAll_nothing_to_load_witness :
  (∀ i im, images page_all_loaded !! i = Some im → loaded im = true)
  ∧ loadAll page_all_loaded = (page_all_loaded, []).
Proof.
  assert (∀ i im, images page_all_loaded !! i = Some im → loaded im = true) as Hall.
  { intros i im Hi. destruct i as [|[|[|i]]]; cbn in Hi; try discriminate;
      injection Hi as <-; reflexivity. }
  split; [done|].
  exact (proj1 (proj2 (loadAll_nothing_to_load page_all_loaded Hall))).
Defined.

(** ** toggleMode as a whole *)

Lemma fold_toggle_frame l s :
  promises (foldl (λ s i, toggle_one i s) s l) = promises s
  ∧ log (foldl (λ s i, toggle_one i s) s l) = log s
  ∧ skeletons (foldl (λ s i, toggle_one i s) s l) = skeletons s.
Proof.
  apply (foldl_inv (λ s', promises s' = promises s ∧ log s' = log s
                          ∧ skeletons s' = skeletons s)); [done|].
  intros s' i _ (<- & <- & <-).
  by rewrite toggle_one_promises, toggle_one_log, toggle_one_skeletons.
Qed.

(** X10: after [toggleMode], every image carries the new mode in data-load;
    every image that is not loaded is observed exactly if the mode is
    "scroll", and its button, if it has one, is hidden exactly if the mode is
    "scroll". *)
Theorem toggleMode_reconciles_all b st i im :
  images st !! i = Some im →
  (data_load <$> images (toggleMode b st) !! i)
    = Some (Some (if b then "scroll" else "click"))
  ∧ (loaded im = false →
     watched i (toggleMode b st) = b
     ∧ ∀ k B, btn im = Some k → buttons (toggleMode b st) !! k = Some B →
              hidden B = b).
Proof.
  intros Hi.
  assert (images (toggleMode b st) !! i
          = Some (with_data_load (Some (if b then "scroll" else "click")) im)) as Hi'.
  { by rewrite toggleMode_images, list_lookup_fmap, Hi. }
  split; [by rewrite Hi'|].
  intros Hl.
  pose proof (toggleMode_reconciled b st i (lookup_lt_Some _ _ _ Hi)) as Hr.
  destruct (Hr _ Hi') as [_ Hn]. destruct (Hn Hl) as [Hb Hw].
  rewrite toggleMode_mode in Hb, Hw.
  assert (String.eqb (if b then "scroll" else "click") "scroll" = b) as Hm
    by (by destruct b).
  rewrite Hm in Hb, Hw. split; [done|].
  intros k B Hk HB. by apply (Hb k B).
Qed.

Lemma toggleMode_reconciles_all_witness :
  images page_ready !! 2 = Some (img_at page_ready 2)
  ∧ (data_load <$> images (toggleMode false page_ready) !! 2) = Some (Some "click").
Proof.
  assert (images page_ready !! 2 = Some (img_at page_ready 2)) as Hi by reflexivity.
  split; [done|].
  exact (proj1 (toggleMode_reconciles_all false page_ready 2 _ Hi)).
Defined.

(** X11: [toggleMode] starts no load: promises, the trace (no commit, no
    listener) and wrappers are as before, and of the images only data-load
    changes. *)
Theorem toggleMode_starts_no_load b st :
  promises (toggleMode b st) = promises st
  ∧ log (toggleMode b st) = log st
  ∧ skeletons (toggleMode b st) = skeletons st
  ∧ images (toggleMode b st)
    = with_data_load (Some (if b then "scroll" else "click")) <$> images st.
Proof.
  unfold toggleMode at 1 2 3.
  destruct (fold_toggle_frame
              (indices (with_mode (if b then "scroll" else "click")
                          (if b then "авто (on-scroll)" else "по кліку (on-click)") st))
              (with_mode (if b then "scroll" else "click")
                 (if b then "авто (on-scroll)" else "по кліку (on-click)") st))
    as (-> & -> & ->).
  split; [done|]. split; [done|]. split; [done|]. apply toggleMode_images.
Qed.

(** X12: [toggleMode(false)] never creates the observer: without observer
    before, there is none after, and no identity is used up. *)
Theorem toggleMode_off_creates_no_observer st :
  io st = None →
  io (toggleMode false st) = None ∧ next_io (toggleMode false st) = next_io st.
Proof.
  intros Hio. unfold toggleMode.
  set (s1 := with_mode _ _ st).
  assert (io (foldl (λ s i, toggle_one i s) s1 (indices s1)) = None
          ∧ next_io (foldl (λ s i, toggle_one i s) s1 (indices s1)) = next_io st
          ∧ currentMode (foldl (λ s i, toggle_one i s) s1 (indices s1)) = "click")
    as (H1 & H2 & _); [|done].
  apply (foldl_inv (λ s, io s = None ∧ next_io s = next_io st
                         ∧ currentMode s = "click")); [done|].
  intros s i _ (Ho & Hn & Hm).
  destruct (images s !! i) as [im|] eqn:Hi; [|by rewrite toggle_one_none].
  rewrite (toggle_one_eq _ _ _ Hi). proj.
  unfold toggled_io, toggled_next_io. rewrite Hm, Ho. cbn.
  by destruct (loaded im).
Qed.

Lemma toggleMode_off_creates_no_observer_witness :
  io sample_page = None ∧ io (toggleMode false sample_page) = None.
Proof.
  split; [reflexivity|].
  exact (proj1 (toggleMode_off_creates_no_observer sample_page eq_refl)).
Defined.

(** ** Entries that trigger nothing *)

(** X13: a batch of entries none of which is intersecting changes
    nothing. *)
Theorem deliver_not_intersecting entries st :
  (∀ en, en ∈ entries → en.2 = false) → deliver entries st = st.
Proof.
  intros Hall. unfold deliver, io_callback.
  apply (foldl_inv (λ s, s = st)); [done|].
  intros s [i b] Hen ->. apply list_elem_of_filter in Hen as [_ Hen].
  specialize (Hall _ Hen). cbn in Hall. subst b. reflexivity.
Qed.

Lemma deliver_not_intersecting_witness :
  (∀ en, en ∈ [(0, false); (2, false)] → en.2 = false)
  ∧ deliver [(0, false); (2, false)] page_ready = page_ready.
Proof.
  assert (∀ en : nat * bool, en ∈ [(0, false); (2, false)] → en.2 = false) as H.
  { intros en Hen. repeat (apply elem_of_cons in Hen as [->|Hen]; [reflexivity|]).
    by apply elem_of_nil in Hen. }
  split; [done|]. exact (deliver_not_intersecting _ page_ready H).
Defined.

Lemma deliver_no_observer entries st : io st = None → deliver entries st = st.
Proof.
  intros Hio. unfold deliver.
  assert (filter (λ en : nat * bool, watched en.1 st = true) entries = []) as ->;
    [|done].
  apply elem_of_nil_inv. intros en Hen.
  apply list_elem_of_filter in Hen as [Hw _]. unfold watched in Hw.
  by rewrite Hio in Hw.
Qed.

(** X14: the disconnect control stops every trigger: after it no crossing
    event changes anything, whatever the entries; without observer the
    control itself does nothing. *)
Theorem disconnect_stops_triggers st entries :
  deliver entries (disconnectObserver st) = disconnectObserver st
  ∧ (io st = None → disconnectObserver st = st).
Proof.
  split.
  - apply deliver_no_observer. unfold disconnectObserver.
    destruct (io st) eqn:Ho; [reflexivity | exact Ho].
  - intros Ho. unfold disconnectObserver. by rewrite Ho.
Qed.

(** ** The wrapper *)

Lemma mark_skeleton_idemp k im (m : gmap nat bool) :
  mark_skeleton k im (mark_skeleton k im m) = mark_skeleton k im m.
Proof.
  unfold mark_skeleton. destruct k; [|done]. destruct (skeleton im); [|done].
  apply insert_insert_eq.
Qed.

Lemma mark_skeleton_fin k k' q im (m : gmap nat bool) :
  mark_skeleton k (fin k' q im) m = mark_skeleton k im m.
Proof.
  unfold mark_skeleton. by rewrite (proj1 (proj2 (proj2 (fin_static k' q im)))).
Qed.

Lemma fold_fire_skeletons_cases k e i l s im :
  images s !! i = Some im →
  skeletons (foldl (λ s p, fire k e i p s) s l) = skeletons s
  ∨ skeletons (foldl (λ s p, fire k e i p s) s l)
    = mark_skeleton k im (skeletons s).
Proof.
  revert s im; induction l as [|q l IH]; intros s im Hi; [by left|].
  cbn [foldl].
  assert (images (fire k e i q s) !! i = Some (fin k q im)) as Hi'.
  { by rewrite fire_images, list_lookup_alter_eq, Hi. }
  destruct (IH _ _ Hi') as [-> | ->];
    rewrite ?mark_skeleton_fin, (fire_skeletons _ _ _ _ _ _ Hi);
    destruct (decide _); rewrite ?mark_skeleton_idemp; auto.
Qed.

Lemma fold_fire_skeletons_marked k e i l s im p :
  images s !! i = Some im → p ∈ l → p ∈ listeners k im →
  skeletons (foldl (λ s p, fire k e i p s) s l)
  = mark_skeleton k im (skeletons s).
Proof.
  revert s im; induction l as [|q l IH]; intros s im Hi Hp Hin.
  - by apply elem_of_nil in Hp.
  - cbn [foldl].
    assert (images (fire k e i q s) !! i = Some (fin k q im)) as Hi'.
    { by rewrite fire_images, list_lookup_alter_eq, Hi. }
    destruct (decide (q ∈ listeners k im)) as [Hq|Hq].
    + destruct (fold_fire_skeletons_cases k e i l _ _ Hi') as [-> | ->];
        rewrite ?mark_skeleton_fin, (fire_skeletons _ _ _ _ _ _ Hi), decide_True by done;
        by rewrite ?mark_skeleton_idemp.
    + apply elem_of_cons in Hp as [->|Hp]; [done|].
      rewrite (IH _ _ Hi' Hp).
      * by rewrite mark_skeleton_fin, (fire_skeletons _ _ _ _ _ _ Hi), decide_False.
      * apply fin_listeners. split; [done|]. tauto.
Qed.

(** X15: the wrapper is marked on success only: when 'load' fires at an
    image with a load in flight, its [.skeleton] wrapper, if it has one,
    gets the class [loaded] and no other wrapper changes; 'error' changes no
    wrapper. *)
Theorem signal_marks_wrapper_on_load st i im p e :
  images st !! i = Some im → p ∈ on_load im →
  skeletons (dispatch KLoad e i st)
    = match skeleton im with
      | Some w => <[w:=true]> (skeletons st)
      | None => skeletons st
      end
  ∧ skeletons (dispatch KError e i st) = skeletons st.
Proof.
  intros Hi Hp. split.
  - assert (p ∈ listeners KLoad im) as Hp' by done.
    unfold dispatch. rewrite Hi.
    rewrite (fold_fire_skeletons_marked KLoad e i _ st im p Hi Hp' Hp').
    reflexivity.
  - unfold dispatch. rewrite Hi.
    by destruct (fold_fire_skeletons_cases KError e i (listeners KError im) st im Hi)
      as [-> | ->].
Qed.

Lemma signal_marks_wrapper_on_load_witness :
  (images page_in_flight !! 1 = Some (img_at page_in_flight 1)
   ∧ 0 ∈ on_load (img_at page_in_flight 1))
  ∧ skeletons (dispatch KLoad "" 1 page_in_flight)
    = <[1:=true]> (skeletons page_in_flight).
Proof.
  assert (images page_in_flight !! 1 = Some (img_at page_in_flight 1)) as Hi
    by reflexivity.
  assert (0 ∈ on_load (img_at page_in_flight 1)) as Hp by (vm_compute; left).
  split; [done|].
  exact (proj1 (signal_marks_wrapper_on_load page_in_flight 1 _ 0 "" Hi Hp)).
Defined.

(** ** One image's signal and the others *)

(** X17: a signal at one image is local to it: every other image is left
    as it was, whether the signal is 'load' or 'error', and a promise that
    none of the listeners fired belongs to keeps its state. *)
Theorem signal_is_local st k e i j q :
  i ≠ j →
  images (dispatch k e i st) !! j = images st !! j
  ∧ is_loaded (dispatch k e i st) j = is_loaded st j
  ∧ ((∀ im, images st !! i = Some im → q ∉ listeners k im) →
     promises (dispatch k e i st) !! q = promises st !! q).
Proof.
  intros Hne.
  assert (images (dispatch k e i st) !! j = images st !! j) as H
    by (by apply dispatch_lookup_ne).
  split; [done|]. split; [unfold is_loaded; by rewrite H|].
  apply dispatch_lookup_notin.
Qed.

Lemma signal_is_local_witness :
  1 ≠ 0 ∧ images (dispatch KError "net" 1 page_in_flight) !! 0
          = images page_in_flight !! 0.
Proof.
  assert (1 ≠ 0) as Hne by discriminate.
  split; [done|].
  exact (proj1 (signal_is_local page_in_flight KError "net" 1 0 0 Hne)).
Defined.

(** ** What every event preserves *)

(** A relation between a page and a later one that is reflexive and
    transitive and holds across each primitive of the script holds across
    every event, hence across every session. *)
Section StepClosure.
Variable R : Page → Page → Prop.
Hypothesis R_refl : ∀ s, R s s.
Hypothesis R_trans : ∀ s1 s2 s3, R s1 s2 → R s2 s3 → R s1 s3.
Hypothesis R_loadImage : ∀ i s, R s (loadImage i s).1.
Hypothesis R_then : ∀ p c s, R s (then_ p c s).
Hypothesis R_dispatch : ∀ k e i s, R s (dispatch k e i s).
Hypothesis R_toggle_one : ∀ i s, R s (toggle_one i s).
Hypothesis R_buttons : ∀ b f s, R s (upd_btn b f s).
Hypothesis R_mode : ∀ m l s, R s (with_mode m l s).
Hypothesis R_unobserve : ∀ i s, R s (io_unobserve i s).
Hypothesis R_disconnect : ∀ s, R s (disconnectObserver s).

Lemma closure_fold {B} (f : Page → B → Page) (l : list B) s :
  (∀ s' x, R s' (f s' x)) → R s (foldl f s l).
Proof.
  intros Hf. apply (foldl_inv (R s)); [apply R_refl|].
  intros s' x _ Hs. eapply R_trans; [done|apply Hf].
Qed.

Lemma closure_click_handler b i s : R s (click_handler b i s).
Proof.
  unfold click_handler. set (s2 := upd_btn b _ (upd_btn b _ s)).
  assert (R s s2) as H2 by (eapply R_trans; apply R_buttons).
  destruct (loadImage i s2) as [s3 p] eqn:Hl.
  replace s3 with (loadImage i s2).1 by (by rewrite Hl).
  eapply R_trans; [exact H2|]. eapply R_trans; [apply R_loadImage | apply R_then].
Qed.

Lemma closure_io_entry en s : R s (io_entry en s).
Proof.
  destruct en as [i b]. unfold io_entry. destruct (negb b); [apply R_refl|].
  destruct (images s !! i) as [im|]; [|apply R_refl].
  destruct (negb _); [apply R_refl|].
  destruct (loadImage i s) as [s1 p] eqn:Hl.
  replace s1 with (loadImage i s).1 by (by rewrite Hl).
  eapply R_trans; [apply R_loadImage|].
  eapply R_trans; [apply R_then | apply R_unobserve].
Qed.

Lemma closure_load_each l s : R s (load_each l s).1.
Proof.
  revert s; induction l as [|i l IH]; intros s; [apply R_refl|].
  cbn [load_each]. destruct (loadImage i s) as [s1 p] eqn:H1.
  destruct (load_each l s1) as [s2 ps] eqn:H2. cbn [fst].
  replace s2 with (load_each l s1).1 by (by rewrite H2).
  replace s1 with (loadImage i s).1 by (by rewrite H1).
  eapply R_trans; [apply R_loadImage | apply IH].
Qed.

Lemma closure_step ev s : R s (step ev s).
Proof.
  destruct ev; cbn [step].
  - unfold toggleMode. eapply R_trans; [apply R_mode|].
    apply closure_fold. intros s' i. apply R_toggle_one.
  - unfold loadAll. destruct (load_each (selected s) s) as [s1 ps] eqn:H1. cbn [fst].
    replace s1 with (load_each (selected s) s).1 by (by rewrite H1).
    eapply R_trans; [apply closure_load_each|].
    apply closure_fold. intros s' p. apply R_then.
  - apply R_disconnect.
  - unfold click. destruct (buttons s !! b) as [B|]; [|apply R_refl].
    destruct (disabled B); [apply R_refl|].
    apply closure_fold. intros s' i. apply closure_click_handler.
  - unfold deliver, io_callback. apply closure_fold. intros s' en.
    apply closure_io_entry.
  - apply R_dispatch.
  - apply R_dispatch.
Qed.

Lemma closure_run evs s : R s (run evs s).
Proof. unfold run. apply closure_fold. intros s' ev. apply closure_step. Qed.
End StepClosure.

Lemma stays_loaded_same i s s' :
  images s' = images s →
  count_eff (Commit i) (log s') = count_eff (Commit i) (log s) →
  stays_loaded i s s'.
Proof. intros Him Hc Hl. unfold is_loaded. by rewrite Him. Qed.

Lemma count_eff_nil e : count_eff e [] = 0.
Proof. reflexivity. Qed.

Lemma stays_loaded_loadImage i j s : stays_loaded i s (loadImage j s).1.
Proof.
  intros Hl. unfold is_loaded in *.
  rewrite loadImage_log, count_eff_app.
  destruct (decide (j = i)) as [->|Hne].
  - assert (not_loaded s i = false) as Hn.
    { unfold not_loaded. destruct (images s !! i); [by rewrite Hl | done]. }
    rewrite loadImage_images, Hn, count_eff_nil. split; [done|]. lia.
  - rewrite loadImage_lookup_ne by done. split; [done|].
    destruct (not_loaded s j); [rewrite cycle_no_commit by done|rewrite count_eff_nil]; lia.
Qed.

Lemma stays_loaded_dispatch i k e j s : stays_loaded i s (dispatch k e j s).
Proof.
  intros Hl. split; [|by apply dispatch_count_other].
  unfold is_loaded in *. destruct (decide (j = i)) as [->|Hne].
  - destruct (images s !! i) as [im|] eqn:Hi; [|done].
    rewrite (dispatch_lookup _ _ _ _ _ Hi). by apply fin_all_loaded_keep.
  - by rewrite dispatch_lookup_ne.
Qed.

Lemma stays_loaded_toggle_one i j s : stays_loaded i s (toggle_one j s).
Proof.
  intros Hl. rewrite toggle_one_log. split; [|done].
  unfold is_loaded in *. rewrite toggle_one_images.
  destruct (decide (j = i)) as [->|Hne].
  - rewrite list_lookup_alter_eq. by destruct (images s !! i).
  - by rewrite list_lookup_alter_ne.
Qed.

(** X16: the class [loaded] is final: once an image carries it, it carries
    it after every further event (mode switch, load-all, disconnect,
    clicks, crossings, 'load' and 'error' signals), and its attributes are
    never committed again. *)
Theorem loaded_is_final st i evs :
  is_loaded st i = true →
  is_loaded (run evs st) i = true
  ∧ count_eff (Commit i) (log (run evs st)) = count_eff (Commit i) (log st).
Proof.
  apply (closure_run (stays_loaded i)).
  - by intros s Hl.
  - intros s1 s2 s3 H1 H2 Hl. destruct (H1 Hl) as [Hl2 Hc2].
    destruct (H2 Hl2) as [Hl3 Hc3]. split; [done | congruence].
  - intros j s. apply stays_loaded_loadImage.
  - intros p c s. apply stays_loaded_same; [apply then_images | by rewrite then_log].
  - intros k e j s. apply stays_loaded_dispatch.
  - intros j s. apply stays_loaded_toggle_one.
  - intros b f s. by apply stays_loaded_same.
  - intros m l s. by apply stays_loaded_same.
  - intros j s. by apply stays_loaded_same.
  - intros s. unfold disconnectObserver. destruct (io s); [|by intros Hl].
    apply stays_loaded_same; [done|]. proj. rewrite count_eff_app.
    unfold count_eff at 2. rewrite filter_cons, decide_False by done. cbn. lia.
Qed.

Lemma loaded_is_final_witness :
  is_loaded page_after_scroll 0 = true
  ∧ is_loaded (run [EvToggle false; EvLoadAll; EvError 0 "late"; EvToggle true]
                 page_after_scroll) 0 = true.
Proof.
  split; [reflexivity|].
  exact (proj1 (loaded_is_final page_after_scroll 0
                  [EvToggle false; EvLoadAll; EvError 0 "late"; EvToggle true]
                  eq_refl)).
Defined.

Lemma stays_settled_same p s s' : promises s' = promises s → stays_settled p s s'.
Proof. intros Hpr x Hx _. by rewrite Hpr. Qed.

(** X19: a promise of [loadImage] settles at most once: once it is
    fulfilled or rejected, it is in that state after every further
    event. *)
Theorem settled_promise_is_final st p x evs :
  (pstate <$> promises st !! p) = Some x → x ≠ Pending →
  (pstate <$> promises (run evs st) !! p) = Some x.
Proof.
  revert x. apply (closure_run (stays_settled p)).
  - by intros s x Hx _.
  - intros s1 s2 s3 H1 H2 x Hx Hne. apply H2; [|done]. by apply H1.
  - intros i s x Hx _. destruct (loadImage_promises i s) as [y ->].
    rewrite lookup_app_l; [done|].
    destruct (promises s !! p) eqn:Hp; [|done]. by eapply lookup_lt_Some.
  - intros q c s x Hx _. by rewrite then_pstate.
  - intros k e i s x Hx Hne.
    destruct (promises s !! p) as [pr|] eqn:Hp; [|done].
    cbn in Hx. injection Hx as <-.
    by rewrite (dispatch_lookup_done k e i p s pr Hp Hne).
  - intros i s. apply stays_settled_same, toggle_one_promises.
  - intros b f s. by apply stays_settled_same.
  - intros m l s. by apply stays_settled_same.
  - intros i s. by apply stays_settled_same.
  - intros s. unfold disconnectObserver. destruct (io s); by apply stays_settled_same.
Qed.

Lemma settled_promise_is_final_witness :
  ((pstate <$> promises page_failed !! 0) = Some (Rejected "net")
   ∧ Rejected "net" ≠ Pending)
  ∧ (pstate <$> promises (run [EvClick 1; EvLoad 1; EvLoadAll] page_failed) !! 0)
    = Some (Rejected "net").
Proof.
  assert (Rejected "net" ≠ Pending) as Hne by discriminate.
  split; [by split|].
  exact (settled_promise_is_final page_failed 0 _ [EvClick 1; EvLoad 1; EvLoadAll]
           eq_refl Hne).
Defined.

(** ** From crossing to loaded *)

Lemma started_src p im :
  src (started p im) = if truthy (data_src im) then data_src im else src im.
Proof. unfold started. by rewrite applyDataAttributes_eq. Qed.

(** X20: the scroll path as a whole.  When an observed image in scroll mode
    that is not loaded crosses into view, its pending source becomes its
    source and it is unobserved; when 'load' then fires, the image is
    loaded, its wrapper is marked, the promise of the load is fulfilled, and
    the image is still unobserved. *)
Theorem scroll_image_loads_on_crossing st i im o e :
  io st = Some o → i ∈ targets o → images st !! i = Some im →
  loadMode im = "scroll" → loaded im = false →
  let p := length (promises st) in
  let st1 := deliver [(i, true)] st in
  let st2 := dispatch KLoad e i st1 in
  images st1 !! i = Some (started p im)
  ∧ (truthy (data_src im) = true → src (started p im) = data_src im)
  ∧ watched i st1 = false
  ∧ is_loaded st2 i = true
  ∧ promises st2 !! p = Some (mkPromise Fulfilled Swallowed)
  ∧ skeletons st2
    = match skeleton im with
      | Some w => <[w:=true]> (skeletons st)
      | None => skeletons st
      end
  ∧ watched i st2 = false.
Proof.
  intros Ho Hin Hi Hm Hl p st1 st2.
  assert (watched i st = true) as Hw.
  { unfold watched. rewrite Ho. by apply bool_decide_eq_true. }
  assert (st1 = io_unobserve i (then_ p Swallowed (loadImage i st).1)) as Hst1.
  { unfold st1. rewrite deliver_watched by done. by apply (io_entry_scroll i st im). }
  assert (images st1 !! i = Some (started p im)) as Hi1.
  { rewrite Hst1. unfold io_unobserve. proj.
    rewrite then_images, (loadImage_not_loaded _ _ _ Hi Hl). proj.
    by rewrite list_lookup_alter_eq, Hi. }
  assert (promises st1 !! p = Some (mkPromise Pending Swallowed)) as Hp1.
  { rewrite Hst1. unfold io_unobserve. proj.
    rewrite then_promises, (loadImage_not_loaded _ _ _ Hi Hl). proj.
    unfold p. by rewrite list_lookup_alter_eq, lookup_snoc. }
  assert (skeletons st1 = skeletons st) as Hs1.
  { rewrite Hst1. unfold io_unobserve. proj.
    by rewrite then_skeletons, loadImage_skeletons. }
  assert (watched i st1 = false) as Hw1.
  { rewrite Hst1. apply watched_unobserve. }
  assert (p ∈ listeners KLoad (started p im)) as Hpl.
  { rewrite started_listeners. apply elem_of_app. right. by left. }
  split; [done|]. split; [intros Ht; by rewrite started_src, Ht|].
  split; [done|]. split.
  { unfold is_loaded, st2. rewrite (dispatch_lookup _ _ _ _ _ Hi1).
    by apply (fin_all_loaded_load _ _ p). }
  split; [by apply (dispatch_settles KLoad e i p _ _ _ Hi1 Hpl)|].
  split.
  { unfold st2, dispatch. rewrite Hi1.
    rewrite (fold_fire_skeletons_marked KLoad e i _ st1 _ p Hi1 Hpl Hpl), Hs1.
    unfold mark_skeleton. by rewrite (proj2 (proj2 (proj2 (started_static p im)))). }
  unfold watched, st2. rewrite dispatch_io. exact Hw1.
Qed.

Lemma scroll_image_loads_on_crossing_witness :
  (io page_ready = Some (mkObserver 0 [0; 2]) ∧ 0 ∈ [0; 2]
   ∧ images page_ready !! 0 = Some (img_at page_ready 0)
   ∧ loadMode (img_at page_ready 0) = "scroll"
   ∧ loaded (img_at page_ready 0) = false)
  ∧ is_loaded (dispatch KLoad "" 0 (deliver [(0, true)] page_ready)) 0 = true.
Proof.
  assert (0 ∈ [0; 2]) as Hin by left.
  split; [by repeat split|].
  exact (proj1 (proj2 (proj2 (proj2
    (scroll_image_loads_on_crossing page_ready 0 _ _ "" eq_refl Hin eq_refl
       eq_refl eq_refl))))).
Defined.

(** ** A session on the sample page *)

Lemma session_well_formed_witness :
  pristine sample_page
  ∧ listeners_bound
      (run [EvClick 1; EvLoadAll; EvError 1 "x"; EvToggle false] (init sample_page)).
Proof.
  assert (pristine sample_page) as Hp.
  { split; [|split].
    - intros b B HB. unfold sample_page in HB. cbn [buttons] in HB.
      repeat (apply lookup_insert_Some in HB as [[_ <-]|[_ HB]]; [reflexivity|]).
      by rewrite lookup_empty in HB.
    - intros i im k Hi.
      destruct i as [|[|[|i]]]; cbn in Hi; try discriminate;
        injection Hi as <-; by destruct k.
    - reflexivity. }
  split; [exact Hp|].
  exact (proj1 (session_well_formed sample_page
                  [EvClick 1; EvLoadAll; EvError 1 "x"; EvToggle false] Hp)).
Defined.
